(** * 308sh: a shallow embedding of [shell.c]

    The development follows the layout of the C file: character classes and
    the line parser [gen_command], the job registry ([add_job],
    [find_job_by_pid], [free_job_by_pid], [free_jobs]), the built-in
    dispatcher [run_built_in], and the read/parse/dispatch/sweep loop of
    [main].

    Modelling conventions.
    - A line is the byte buffer filled by [getline]: a [list ascii] of
      length [len], followed by the terminating NUL that [getline] always
      writes, so that [line[len]] reads as NUL.
    - Loop counters are natural numbers: lines are shorter than [INT_MAX]
      bytes, so the [int] counters of the C loops never wrap.
    - [malloc], [realloc], [strdup] and [strndup] succeed (the C code never
      tests their result).
    - Behaviour that C leaves undefined (a store past an allocation, a read
      through a null pointer, ...) is an explicit [Fault]. *)

From Stdlib Require Import ZArith Ascii String List Lia Bool.
From stdpp Require Import base option list gmap.
Import ListNotations.

Local Open Scope nat_scope.

(** ** Undefined behaviour as an error monad *)

Inductive fault :=
| NullDeref            (* read or write through a null pointer *)
| OutOfBounds (idx slots : nat) (* access to element [idx] of an array of [slots] elements *)
| UninitRead           (* use of an indeterminate value *)
| UseAfterFree         (* read of a string that was freed *)
| InvalidFree.         (* [free] of a pointer that is not live *)

Inductive res (A : Type) :=
| Ok (a : A)
| Fault (f : fault).
Arguments Ok {A} a.
Arguments Fault {A} f.

Definition res_bind {A B} (x : res A) (k : A -> res B) : res B :=
  match x with
  | Ok a => k a
  | Fault f => Fault f
  end.

Notation "x <- e1 ;;; e2" := (res_bind e1 (fun x => e2))
  (at level 100, e1 at next level, right associativity).

(** ** <ctype.h> in the "C" locale (the shell never calls [setlocale])

    Printable are the bytes 32 to 126, white space are the blank and the
    bytes 9 to 13; a byte above 126 is in neither class.  A byte above 127
    is a negative [char]: the tables of glibc cover it, the C standard
    leaves the call undefined. *)

Definition NUL : ascii := "000"%char.
Definition AMP : ascii := "&"%char.

Definition isprint (c : ascii) : bool :=
  let n := nat_of_ascii c in (32 <=? n) && (n <=? 126).

Definition isspace (c : ascii) : bool :=
  let n := nat_of_ascii c in (n =? 32) || ((9 <=? n) && (n <=? 13)).

(** [line[i]]: the buffer holds [len] bytes and then the NUL terminator. *)
Definition char_at (line : list ascii) (i : nat) : ascii := nth i line NUL.

(** [strndup(&line[start], n)]: at most [n] bytes, stopping at a NUL. *)
Fixpoint until_nul (s : list ascii) : list ascii :=
  match s with
  | [] => []
  | c :: r => if Ascii.eqb c NUL then [] else c :: until_nul r
  end.

Definition strndup (line : list ascii) (start n : nat) : list ascii :=
  until_nul (firstn n (skipn start line)).

(** ** The line parser *)

Inductive command_type := FAIL | SPACES | FOREGROUND | BACKGROUND.

(** A [char *]: indeterminate, null, or pointing to a NUL-terminated string
    (represented by its contents). *)
Inductive ptr :=
| Uninit
| NULL
| Str (s : list ascii).

(** [struct command]: [cmd] and the flexible array [argv], whose length is
    the number of slots that were allocated. *)
Record command := { cmd : ptr; argv : list ptr }.

(** How the first loop of [gen_command] is left. *)
Inductive scan_exit :=
| ScanFail                                        (* [return FAIL] *)
| ScanDone (num_args : nat) (is_background : bool). (* loop ended or [break] *)

(** First loop: [for (i = 0; i < len; ++i)], with [fuel = len - i]. *)
Fixpoint count_loop (line : list ascii) (fuel i num_args : nat) : scan_exit :=
  match fuel with
  | O => ScanDone num_args false
  | S fuel' =>
      let ch := char_at line i in
      let nx := char_at line (i + 1) in
      if negb (isprint ch) && negb (isspace ch) then ScanFail
      else if Ascii.eqb ch AMP then ScanDone num_args true
      else if (isspace nx || Ascii.eqb nx NUL) && negb (isspace ch)
           then count_loop line fuel' (S i) (S num_args)
           else count_loop line fuel' (S i) num_args
  end.

(** Locals and heap object of the second loop. *)
Record copy_state := { start : nat; count : nat; cur : command }.

(** The store [argv[idx] = p] into the Command, checked against the allocation. *)
Definition store_arg (c : command) (idx : nat) (p : ptr) : res command :=
  if idx <? length (argv c)
  then Ok {| cmd := cmd c; argv := <[idx := p]> (argv c) |}
  else Fault (OutOfBounds idx (length (argv c))).

(** One iteration of the second loop at index [i]. *)
Definition copy_step (line : list ascii) (i : nat) (s : copy_state) : res copy_state :=
  let ch := char_at line i in
  let nx := char_at line (i + 1) in
  if isspace ch && negb (isspace nx) then
    Ok {| start := i + 1; count := count s; cur := cur s |}
  else if negb (isspace ch) && (isspace nx || Ascii.eqb nx NUL) then
    let tok := strndup line (start s) (i - start s + 1) in
    let c1 := if count s =? 0
              then {| cmd := Str tok; argv := argv (cur s) |}
              else cur s in
    c2 <- store_arg c1 (count s) (Str tok) ;;;
    Ok {| start := start s; count := count s + 1; cur := c2 |}
  else Ok s.

(** Second loop: [for (i = 0; i < len; ++i)], with [fuel = len - i]. *)
Fixpoint copy_loop (line : list ascii) (fuel i : nat) (s : copy_state) : res copy_state :=
  match fuel with
  | O => Ok s
  | S fuel' => s' <- copy_step line i s ;;; copy_loop line fuel' (S i) s'
  end.

(** What [gen_command(line, len, &c)] returns and what it leaves in [*c]:
    [None] when [*c] was not assigned. *)
Definition gen_command (line : list ascii) : res (command_type * option command) :=
  let len := length line in
  match count_loop line len 0 0 with
  | ScanFail => Ok (FAIL, None)
  | ScanDone num_args is_background =>
      if num_args =? 0 then Ok (SPACES, None)
      else
        let c0 := {| cmd := Uninit; argv := replicate (num_args + 2) Uninit |} in
        s <- copy_loop line len 0 {| start := 0; count := 0; cur := c0 |} ;;;
        c1 <- store_arg (cur s) num_args NULL ;;;
        Ok (if is_background then BACKGROUND else FOREGROUND, Some c1)
  end.

(** The token vector a consumer sees: [argv[0]], [argv[1]], ... up to the
    first slot that is not a string (the NULL sentinel). *)
Fixpoint argv_tokens (a : list ptr) : list (list ascii) :=
  match a with
  | Str s :: r => s :: argv_tokens r
  | _ => []
  end.

(** Literals for examples: the bytes of a string, and the newline that
    [getline] leaves at the end of a line. *)
Definition bytes (s : string) : list ascii := list_ascii_of_string s.
Definition LF : ascii := "010"%char.

(** ** The job registry *)

(** [struct job]: the [name] field is a pointer into the heap of the strings
    made by [strdup], whose addresses are positive numbers. *)
Record job := { pid : Z; name : positive }.

(** [struct child_jobs]: [jobs] has one entry per allocated slot; a slot that
    was never written is [None]. *)
Record child_jobs_t := { len : nat; cap : nat; jobs : list (option job) }.

(** The part of the heap the registry lives in: the strings owned by the
    jobs and the global pointer [child_jobs] ([None] is the null pointer). *)
Record memory := {
  strings : gmap positive (list ascii);
  child_jobs : option child_jobs_t
}.

Definition no_jobs : memory := {| strings := ∅; child_jobs := None |}.

(** [&child_jobs->jobs[i]] read as a [struct job]. *)
Definition read_slot (r : child_jobs_t) (i : nat) : res job :=
  match jobs r !! i with
  | None => Fault (OutOfBounds i (length (jobs r)))
  | Some None => Fault UninitRead
  | Some (Some j) => Ok j
  end.

(** [memcpy(&jobs[dst], &jobs[src], sizeof(struct job))]. *)
Definition copy_slot (r : child_jobs_t) (dst src : nat) : res child_jobs_t :=
  match jobs r !! src with
  | None => Fault (OutOfBounds src (length (jobs r)))
  | Some sl =>
      if dst <? length (jobs r)
      then Ok {| len := len r; cap := cap r; jobs := <[dst := sl]> (jobs r) |}
      else Fault (OutOfBounds dst (length (jobs r)))
  end.

(** The loop of [free_job_by_pid]; [len0] is the local [len], read once
    before the loop, and [fuel = len0 - i]. *)
Fixpoint free_loop (p : Z) (len0 fuel i : nat)
    (h : gmap positive (list ascii)) (r : child_jobs_t)
    : res (gmap positive (list ascii) * child_jobs_t) :=
  match fuel with
  | O => Ok (h, r)
  | S fuel' =>
      j <- read_slot r i ;;;
      if Z.eqb (pid j) p then
        match h !! name j with
        | None => Fault InvalidFree
        | Some _ =>
            r1 <- (if i <? len0 - 1 then copy_slot r i (len0 - 1) else Ok r) ;;;
            free_loop p len0 fuel' (S i) (delete (name j) h)
              {| len := len r1 - 1; cap := cap r1; jobs := jobs r1 |}
        end
      else free_loop p len0 fuel' (S i) h r
  end.

Definition free_job_by_pid (p : Z) (m : memory) : res memory :=
  match child_jobs m with
  | None => Ok m
  | Some r =>
      if 0 <? len r then
        hr <- free_loop p (len r) (len r) 0 (strings m) r ;;;
        Ok {| strings := fst hr; child_jobs := Some (snd hr) |}
      else Ok m
  end.

(** The loop of [find_job_by_pid]; the result is the index of the slot the
    returned pointer points to. *)
Fixpoint find_loop (p : Z) (r : child_jobs_t) (fuel i : nat) : res (option nat) :=
  match fuel with
  | O => Ok None
  | S fuel' =>
      j <- read_slot r i ;;;
      if Z.eqb (pid j) p then Ok (Some i) else find_loop p r fuel' (S i)
  end.

Definition find_job_by_pid (p : Z) (m : memory) : res (option nat) :=
  match child_jobs m with
  | None => Ok None
  | Some r => if 0 <? len r then find_loop p r (len r) 0 else Ok None
  end.

(** [realloc] to [n] slots: the old contents are kept, new slots are
    indeterminate. *)
Definition realloc_jobs (l : list (option job)) (n : nat) : list (option job) :=
  firstn n l ++ replicate (n - length l) None.

(** [add_job(&j)] where [j.pid = p] and [j.name] points to the string [n]. *)
Definition add_job (p : Z) (n : list ascii) (m : memory) : res memory :=
  let r0 := match child_jobs m with
            | None => {| len := 0; cap := 4; jobs := replicate 4 None |}
            | Some r => r
            end in
  let r1 := if cap r0 <=? len r0
            then {| len := len r0; cap := cap r0 + 4;
                    jobs := realloc_jobs (jobs r0) (len r0 + 4) |}
            else r0 in
  if len r0 <? length (jobs r1) then
    let a := fresh (dom (strings m)) in
    Ok {| strings := <[a := n]> (strings m);
          child_jobs := Some {| len := len r1 + 1; cap := cap r1;
                                jobs := <[len r0 := Some {| pid := p; name := a |}]> (jobs r1) |} |}
  else Fault (OutOfBounds (len r0) (length (jobs r1))).

(** The loop of [free_jobs]. *)
Fixpoint free_names (r : child_jobs_t) (fuel i : nat) (h : gmap positive (list ascii))
    : res (gmap positive (list ascii)) :=
  match fuel with
  | O => Ok h
  | S fuel' =>
      j <- read_slot r i ;;;
      match h !! name j with
      | None => Fault InvalidFree
      | Some _ => free_names r fuel' (S i) (delete (name j) h)
      end
  end.

Definition free_jobs (m : memory) : res memory :=
  match child_jobs m with
  | None => Ok {| strings := strings m; child_jobs := None |}
  | Some r =>
      h <- (if 0 <? len r then free_names r (len r) 0 (strings m) else Ok (strings m)) ;;;
      Ok {| strings := h; child_jobs := None |}
  end.

(** [j->name] for the pointer [j] that [find_job_by_pid] returned (slot [i]). *)
Definition job_name (m : memory) (i : nat) : res (list ascii) :=
  match child_jobs m with
  | None => Fault NullDeref
  | Some r =>
      j <- read_slot r i ;;;
      match strings m !! name j with
      | None => Fault UseAfterFree
      | Some n => Ok n
      end
  end.

(** ** What the shell does to the outside world *)

Inductive outcome := Exited | Killed | Stopped | Continued.

Inductive event :=
| PrintUsage                                   (* "Incorrect usage: ..." *)
| PrintPrompt (p : list ascii)
| PrintReadError                               (* "Failed to read command line" *)
| PrintParseError                              (* "Could not parse command from line" *)
| PrintShellPid (p : Z)
| PrintParentPid (p : Z)
| PrintCwd (d : list ascii)
| PrintJob (p : Z) (n : list ascii)            (* "[pid] name" *)
| PrintLaunch (p : Z) (n : list ascii)         (* ">>> [pid] name" *)
| PrintReport (p : Z) (n : list ascii) (o : outcome) (code : Z)
| Perror (what : list ascii)
| CallFork
| CallExecvp (file : list ascii) (args : list (list ascii))
| CallWaitpid (p : Z) (options : Z)
| CallChdir (path : option (list ascii)).

(** <sys/wait.h> and <sys/param.h> are system headers: their macros are
    parameters of the model. *)
Record sys_headers := {
  WIFEXITED : Z -> bool;
  WEXITSTATUS : Z -> Z;
  WIFSIGNALED : Z -> bool;
  WTERMSIG : Z -> Z;
  WIFSTOPPED : Z -> bool;
  WSTOPSIG : Z -> Z;
  WIFCONTINUED : Z -> bool;
  WNOHANG : Z;
  MAXPATHLEN : nat
}.

(** The environment of the process: [getenv("HOME")], and the directory
    that [chdir(path)] makes current when called in directory [cwd]
    ([None] when the call fails; the kernel then leaves the working
    directory as it is). *)
Record os_env := {
  home : option (list ascii);
  resolve : list ascii -> list ascii -> option (list ascii)
}.

(** The answers of the system to the calls of one loop iteration. *)
Record answers := {
  a_getline : option (list ascii);  (* the bytes read; [None]: [getline] returned -1 *)
  a_getpid : Z;
  a_getppid : Z;
  a_fork : Z;                       (* the value [fork()] returns *)
  a_exec_fails : bool;              (* in the child: [execvp] returns *)
  a_getcwd_fails : bool;            (* [getcwd] returns NULL for a reason other
                                       than the size of the buffer *)
  a_status : Z;                     (* status stored by [waitpid(pid, &status, 0)] *)
  a_sweep : list (Z * Z)            (* successive [waitpid(-1, &status, WNOHANG)]:
                                       return value and status; afterwards 0 or -1 *)
}.

(** The state [main] carries from one iteration to the next. *)
Record shell := { error : Z; mem : memory; cwd : list ascii }.

Definition set_error (s : shell) (e : Z) : shell :=
  {| error := e; mem := mem s; cwd := cwd s |}.
Definition set_mem (s : shell) (m : memory) : shell :=
  {| error := error s; mem := m; cwd := cwd s |}.
Definition set_cwd (s : shell) (d : list ascii) : shell :=
  {| error := error s; mem := mem s; cwd := d |}.

Inductive built_ins := EXIT | PID | PPID | CD | PWD | JOBS | NOT.

(** The four-way report shared by the foreground wait and the sweep. *)
Definition report (H : sys_headers) (p : Z) (n : list ascii) (status : Z) : list event :=
  if WIFEXITED H status then [PrintReport p n Exited (WEXITSTATUS H status)]
  else if WIFSIGNALED H status then [PrintReport p n Killed (WTERMSIG H status)]
  else if WIFSTOPPED H status then [PrintReport p n Stopped (WSTOPSIG H status)]
  else if WIFCONTINUED H status then [PrintReport p n Continued status]
  else [].

(** A [char *] handed to [strcmp], [printf("%s")] or [execvp]. *)
Definition deref (p : ptr) : res (list ascii) :=
  match p with
  | Str s => Ok s
  | NULL => Fault NullDeref
  | Uninit => Fault UninitRead
  end.

(** [c->argv[i]] *)
Definition arg (c : command) (i : nat) : res ptr :=
  match argv c !! i with
  | Some p => Ok p
  | None => Fault (OutOfBounds i (length (argv c)))
  end.

(** [chdir(path)] *)
Definition chdir (E : os_env) (path : option (list ascii)) (s : shell) : Z * shell :=
  match path with
  | None => ((-1)%Z, s)
  | Some p =>
      match resolve E (cwd s) p with
      | Some d => (0%Z, set_cwd s d)
      | None => ((-1)%Z, s)
      end
  end.

(** The loop of the "jobs" built-in. *)
Fixpoint print_jobs (m : memory) (r : child_jobs_t) (fuel i : nat) : list event * res unit :=
  match fuel with
  | O => ([], Ok tt)
  | S fuel' =>
      match read_slot r i with
      | Fault f => ([], Fault f)
      | Ok j =>
          match strings m !! name j with
          | None => ([], Fault UseAfterFree)
          | Some n =>
              let '(ev, x) := print_jobs m r fuel' (S i) in
              (PrintJob (pid j) n :: ev, x)
          end
      end
  end.

Definition run_built_in (H : sys_headers) (E : os_env) (a : answers)
    (c : command) (s : shell) : list event * res (built_ins * shell) :=
  match deref (cmd c) with
  | Fault f => ([], Fault f)
  | Ok name =>
      if bool_decide (name = bytes "exit") then ([], Ok (EXIT, s))
      else if bool_decide (name = bytes "pid") then
        ([PrintShellPid (a_getpid a)], Ok (PID, s))
      else if bool_decide (name = bytes "ppid") then
        ([PrintParentPid (a_getppid a)], Ok (PPID, s))
      else if bool_decide (name = bytes "cd") then
        match arg c 0 with
        | Fault f => ([], Fault f)
        | Ok a0 =>
            match deref a0 with
            | Fault f => ([], Fault f)
            | Ok name0 =>
                if bool_decide (name0 = bytes "cd") then
                  match arg c 1 with
                  | Fault f => ([], Fault f)
                  | Ok Uninit => ([], Fault UninitRead)
                  | Ok a1 =>
                      let path := match a1 with Str d => Some d | _ => home E end in
                      let '(fail, s1) := chdir E path s in
                      (CallChdir path :: (if Z.eqb fail 0 then [] else [Perror (bytes "cd")]),
                       Ok (CD, s1))
                  end
                else ([], Ok (NOT, s))
            end
        end
      else if bool_decide (name = bytes "pwd") then
        (if negb (a_getcwd_fails a) && (length (cwd s) <? MAXPATHLEN H)
         then [PrintCwd (cwd s)] else [Perror (bytes "cd")],
         Ok (PWD, s))
      else if bool_decide (name = bytes "jobs") then
        match child_jobs (mem s) with
        | None => ([], Fault NullDeref)
        | Some r =>
            let '(ev, x) := print_jobs (mem s) r (len r) 0 in
            (ev, _ <- x ;;; Ok (JOBS, s))
        end
      else ([], Ok (NOT, s))
  end.

(** ** Freeing a Command *)

(** The loop [for (i = 0; c->argv[i]; i++) free(c->argv[i])] over the slots
    from index [i] on; the result lists the strings that were freed. *)
Fixpoint free_args (a : list ptr) (i slots : nat) : res (list (list ascii)) :=
  match a with
  | [] => Fault (OutOfBounds i slots)
  | NULL :: _ => Ok []
  | Uninit :: _ => Fault UninitRead
  | Str s :: r => l <- free_args r (S i) slots ;;; Ok (s :: l)
  end.

(** [free_command(c)]; [None] is the null pointer.  [free(c->cmd)] accepts
    a null [cmd]. *)
Definition free_command (c : option command) : res (list (list ascii)) :=
  match c with
  | None => Ok []
  | Some c =>
      match cmd c with
      | Uninit => Fault UninitRead
      | NULL => free_args (argv c) 0 (length (argv c))
      | Str s => l <- free_args (argv c) 0 (length (argv c)) ;;; Ok (s :: l)
      end
  end.

(** ** The loop of [main] *)

(** The sweep at the end of an iteration:
    [while ((child = waitpid(-1, &status, WNOHANG)) > 0) ...].  An empty
    list of answers means the next call finds no child that changed state. *)
Fixpoint sweep (H : sys_headers) (ans : list (Z * Z)) (m : memory)
    : list event * res memory :=
  match ans with
  | [] => ([CallWaitpid (-1) (WNOHANG H)], Ok m)
  | (child, status) :: rest =>
      if (0 <? child)%Z then
        match find_job_by_pid child m with
        | Fault f => ([CallWaitpid (-1) (WNOHANG H)], Fault f)
        | Ok None =>
            let '(ev, x) := sweep H rest m in
            (CallWaitpid (-1) (WNOHANG H) :: ev, x)
        | Ok (Some i) =>
            match job_name m i with
            | Fault f => ([CallWaitpid (-1) (WNOHANG H)], Fault f)
            | Ok n =>
                match free_job_by_pid child m with
                | Fault f =>
                    (CallWaitpid (-1) (WNOHANG H) :: report H child n status, Fault f)
                | Ok m' =>
                    let '(ev, x) := sweep H rest m' in
                    (CallWaitpid (-1) (WNOHANG H) :: report H child n status ++ ev, x)
                end
            end
        end
      else ([CallWaitpid (-1) (WNOHANG H)], Ok m)
  end.

(** How [main] can stop. *)
Inductive exit_path :=
| UsageExit        (* [goto Exit] after the usage message *)
| BuiltinExit      (* [goto ExitCommand] on the "exit" built-in *)
| ExecFailedExit.  (* [goto ExitCommand] in the child, after [execvp] returned *)

Inductive step_result :=
| Next (s : shell)                         (* back to the top of [while (1)] *)
| Returned (how : exit_path) (status : Z)  (* [main] returns [status] *)
| Replaced                                 (* [execvp] succeeded *)
| Crashed (f : fault).

(** The labels [ExitCommand], [ExitLine], [Exit]: [free_jobs(); return error;]. *)
Definition leave (how : exit_path) (s : shell) : step_result :=
  match free_jobs (mem s) with
  | Fault f => Crashed f
  | Ok _ => Returned how (error s)
  end.

(** The label [FreeLine] and the sweep that follows. *)
Definition finish (H : sys_headers) (a : answers) (ev : list event) (s : shell)
    : list event * step_result :=
  let '(ev', x) := sweep H (a_sweep a) (mem s) in
  (ev ++ ev', match x with
              | Fault f => Crashed f
              | Ok m => Next (set_mem s m)
              end).

(** [free_command(c)] at the labels [FreeCommand] and [ExitCommand], after
    the events [ev]: the run goes on as [k] unless the call faults. *)
Definition freeing (c : command) (ev : list event) (k : list event * step_result)
    : list event * step_result :=
  match free_command (Some c) with
  | Fault f => (ev, Crashed f)
  | Ok _ => k
  end.

(** Steps of [main] after [run_built_in] returned [NOT]. *)
Definition launch (H : sys_headers) (a : answers) (t : command_type)
    (c : command) (name : list ascii) (ev : list event) (s : shell)
    : list event * step_result :=
  let p := a_fork a in
  if (p <? 0)%Z then
    let ev1 := ev ++ [CallFork; Perror (bytes "Fork Failed")] in
    freeing c ev1 (finish H a ev1 (set_error s (-3)))
  else if (p =? 0)%Z then
    let ev1 := ev ++ [CallFork; PrintLaunch (a_getpid a) name;
                      CallExecvp name (argv_tokens (argv c))] in
    if a_exec_fails a
    then
      let ev2 := ev1 ++ [Perror (bytes "Command Not Found")] in
      freeing c ev2 (ev2, leave ExecFailedExit (set_error s (-4)))
    else (ev1, Replaced)
  else
    match t with
    | FOREGROUND =>
        let ev1 := ev ++ [CallFork; CallWaitpid p 0] ++ report H p name (a_status a) in
        freeing c ev1 (finish H a ev1 s)
    | _ =>
        match add_job p name (mem s) with
        | Fault f => (ev ++ [CallFork], Crashed f)
        | Ok m => freeing c (ev ++ [CallFork]) (finish H a (ev ++ [CallFork]) (set_mem s m))
        end
    end.

(** One pass through the body of [while (1)].  [usleep] and the free of the
    line do not touch the state that is modelled; after a line that does
    not parse, or is blank, the Command pointer is null and the jump to
    [FreeLine] skips [free_command]. *)
Definition iteration (H : sys_headers) (E : os_env) (prompt : list ascii)
    (a : answers) (s : shell) : list event * step_result :=
  let ev0 := [PrintPrompt prompt] in
  match a_getline a with
  | None => (ev0 ++ [PrintReadError], Next (set_error s (-1)))
  | Some [] => (ev0 ++ [PrintReadError], Next (set_error s (-1)))
  | Some line =>
      match gen_command line with
      | Fault f => (ev0, Crashed f)
      | Ok (FAIL, _) => finish H a (ev0 ++ [PrintParseError]) (set_error s (-2))
      | Ok (SPACES, _) => finish H a ev0 s
      | Ok (_, None) => (ev0, Crashed NullDeref)
      | Ok (t, Some c) =>
          match run_built_in H E a c s with
          | (ev, Fault f) => (ev0 ++ ev, Crashed f)
          | (ev, Ok (EXIT, s1)) =>
              freeing c (ev0 ++ ev) (ev0 ++ ev, leave BuiltinExit s1)
          | (ev, Ok (NOT, s1)) =>
              match deref (cmd c) with
              | Fault f => (ev0 ++ ev, Crashed f)
              | Ok name => launch H a t c name (ev0 ++ ev) s1
              end
          | (ev, Ok (_, s1)) => freeing c (ev0 ++ ev) (finish H a (ev0 ++ ev) s1)
          end
      end
  end.

(** The result of feeding the loop a finite list of iterations. *)
Inductive run_result :=
| Running (s : shell)   (* every iteration went back to the prompt *)
| Stopped_by (r : step_result).

Fixpoint main_loop (H : sys_headers) (E : os_env) (prompt : list ascii)
    (trace : list answers) (s : shell) : list event * run_result :=
  match trace with
  | [] => ([], Running s)
  | a :: rest =>
      match iteration H E prompt a s with
      | (ev, Next s') =>
          let '(ev', r) := main_loop H E prompt rest s' in (ev ++ ev', r)
      | (ev, r) => (ev, Stopped_by r)
      end
  end.

(** The prompt: ["308sh> "] unless [argc == 3] and [argv[1]] is "-p". *)
Definition prompt_of (args : list (list ascii)) : list ascii :=
  if (length args =? 3) && bool_decide (args !! 1 = Some (bytes "-p"))
  then default [] (args !! 2)
  else bytes "308sh> ".

(** The locals of [main] when the loop is entered in directory [dir]. *)
Definition shell0 (dir : list ascii) : shell :=
  {| error := 0; mem := no_jobs; cwd := dir |}.

(** [main(argc, argv)], started in directory [dir]; [args] is [argv]. *)
Definition main (H : sys_headers) (E : os_env) (args : list (list ascii))
    (dir : list ascii) (trace : list answers) : list event * run_result :=
  let argc := length args in
  if negb (argc =? 1) && negb (argc =? 3) then
    ([PrintUsage], Stopped_by (leave UsageExit (shell0 dir)))
  else main_loop H E (prompt_of args) trace (shell0 dir).

(** The exit status the parent of the shell observes: the low eight bits of
    the value [main] returns. *)
Definition exit_status (ret : Z) : Z := (ret mod 256)%Z.

(** ** Concrete parameters for examples: the macros of glibc on Linux *)

Definition linux_headers : sys_headers := {|
  WIFEXITED := fun s => (Z.land s 127 =? 0)%Z;
  WEXITSTATUS := fun s => Z.shiftr (Z.land s 65280) 8;
  WIFSIGNALED := fun s => ((0 <? Z.land s 127) && (Z.land s 127 <? 127))%Z;
  WTERMSIG := fun s => Z.land s 127;
  WIFSTOPPED := fun s => (Z.land s 255 =? 127)%Z;
  WSTOPSIG := fun s => Z.shiftr (Z.land s 65280) 8;
  WIFCONTINUED := fun s => (s =? 65535)%Z;
  WNOHANG := 1;
  MAXPATHLEN := 4096
|}.

(** A file system with the two directories "/" and "/home/u". *)
Definition tiny_env : os_env := {|
  home := Some (bytes "/home/u");
  resolve := fun _ p =>
    if bool_decide (p = bytes "/") || bool_decide (p = bytes "/home/u")
    then Some p else None
|}.

(** ** The vocabulary of the specification *)

(** Tokens: the maximal runs of bytes that are not white space. *)
Fixpoint tokens (l : list ascii) : list (list ascii) :=
  match l with
  | [] => []
  | c :: r =>
      if isspace c then tokens r
      else match r with
           | [] => [[c]]
           | d :: _ =>
               if isspace d then [c] :: tokens r
               else match tokens r with
                    | t :: ts => (c :: t) :: ts
                    | [] => [[c]]
                    end
           end
  end.

(** A byte the parser accepts. *)
Definition accepted (c : ascii) : bool := isprint c || isspace c.

(** A byte below 128: as a [char] it is not negative, whatever the
    signedness of [char], so that the <ctype.h> calls on it are defined. *)
Definition is_ascii (c : ascii) : bool := nat_of_ascii c <? 128.

(** ** List views of the two loops of [gen_command]

    The loops index the buffer; the proofs run over the bytes still to be
    read.  [pending] is the part of the buffer from [start] to [i]. *)

Fixpoint count_rest (rest : list ascii) (num_args : nat) : scan_exit :=
  match rest with
  | [] => ScanDone num_args false
  | ch :: r =>
      let nx := hd NUL r in
      if negb (isprint ch) && negb (isspace ch) then ScanFail
      else if Ascii.eqb ch AMP then ScanDone num_args true
      else if (isspace nx || Ascii.eqb nx NUL) && negb (isspace ch)
           then count_rest r (S num_args)
           else count_rest r num_args
  end.

Fixpoint copy_rest (pending rest : list ascii) (k : nat) (c : command)
    : res (nat * command) :=
  match rest with
  | [] => Ok (k, c)
  | ch :: r =>
      let nx := hd NUL r in
      if isspace ch && negb (isspace nx) then copy_rest [] r k c
      else if negb (isspace ch) && (isspace nx || Ascii.eqb nx NUL) then
        let tok := until_nul (pending ++ [ch]) in
        let c1 := if k =? 0 then {| cmd := Str tok; argv := argv c |} else c in
        c2 <- store_arg c1 k (Str tok) ;;;
        copy_rest (pending ++ [ch]) r (k + 1) c2
      else copy_rest (pending ++ [ch]) r k c
  end.

(** Storing a list of tokens one after the other, as the second loop does. *)
Fixpoint store_tokens (toks : list (list ascii)) (k : nat) (c : command)
    : res (nat * command) :=
  match toks with
  | [] => Ok (k, c)
  | tok :: ts =>
      let c1 := if k =? 0 then {| cmd := Str tok; argv := argv c |} else c in
      c2 <- store_arg c1 k (Str tok) ;;;
      store_tokens ts (k + 1) c2
  end.


(** The counter and the Command of a final state of the second loop. *)
Definition view (x : res copy_state) : res (nat * command) :=
  s <- x ;;; Ok (count s, cur s).

(** The tokens the second loop still has to store when [pending] is the
    part of the current token that was already read. *)
Definition tokens_from (pending rest : list ascii) : list (list ascii) :=
  match rest with
  | [] => []
  | ch :: _ =>
      if isspace ch then tokens rest
      else match tokens rest with
           | t :: ts => (pending ++ t) :: ts
           | [] => []
           end
  end.

(** The buffer is empty or ends with a white-space byte. *)
Fixpoint blank_end (l : list ascii) : bool :=
  match l with
  | [] => true
  | [c] => isspace c
  | _ :: r => blank_end r
  end.

(** ** Statements about the parser, as the specification words them *)

(** "For all lines whose trailing non-space token is exactly & preceded by
    at least one other token, classification is background-command and the
    produced Command contains the tokens before the marker and not &." *)
Definition trailing_marker_claim (line : list ascii) : Prop :=
  forall toks,
    tokens line = toks ++ [[AMP]] -> toks <> [] ->
    exists c,
      gen_command line = Ok (BACKGROUND, Some c) /\
      (forall t, t ∈ toks -> t ∈ argv_tokens (argv c)) /\
      [AMP] ∉ argv_tokens (argv c).

(** "For all lines containing a non-printable, non-whitespace byte,
    classification is parse-failure." *)
Definition rejects_bad_bytes_claim (line : list ascii) : Prop :=
  (exists c, c ∈ line /\ accepted c = false) ->
  gen_command line = Ok (FAIL, None).

(** A line that is empty, all white space, or white space around a lone
    background marker. *)
Definition blank_input (line : list ascii) : Prop :=
  Forall (fun c => isspace c = true) line \/
  exists ws post,
    line = ws ++ AMP :: post /\
    Forall (fun c => isspace c = true) ws /\
    Forall (fun c => isspace c = true) post.

(** Events that create a process or replace its image. *)
Definition is_launch (e : event) : bool :=
  match e with
  | CallFork | CallExecvp _ _ => true
  | _ => false
  end.

(** ** The vocabulary of the registry *)

(** Slot [k] of the registry holds the job [j]. *)
Definition slot (r : child_jobs_t) (k : nat) (j : job) : Prop :=
  jobs r !! k = Some (Some j).

(** A registry state: the logical length is within the capacity, the
    capacity is the number of allocated slots, and every live slot holds a
    job whose name is a live string. *)
Definition registry_wf (h : gmap positive (list ascii)) (r : child_jobs_t) : Prop :=
  len r <= cap r /\ cap r = length (jobs r) /\
  forall k, k < len r -> exists j, slot r k j /\ is_Some (h !! name j).

(** The unique-pid invariant, and its counterpart for the name pointers
    ([strdup] returns a new string for every job). *)
Definition unique_pids (r : child_jobs_t) : Prop :=
  forall k1 k2 j1 j2, k1 < len r -> k2 < len r ->
    slot r k1 j1 -> slot r k2 j2 -> pid j1 = pid j2 -> k1 = k2.

Definition distinct_names (r : child_jobs_t) : Prop :=
  forall k1 k2 j1 j2, k1 < len r -> k2 < len r ->
    slot r k1 j1 -> slot r k2 j2 -> name j1 = name j2 -> k1 = k2.

Definition wf_memory (m : memory) : Prop :=
  match child_jobs m with
  | None => True
  | Some r => registry_wf (strings m) r
  end.

Definition registry_ok (m : memory) : Prop :=
  match child_jobs m with
  | None => True
  | Some r => registry_wf (strings m) r /\ unique_pids r /\ distinct_names r
  end.

(** No live job has pid [p]. *)
Definition absent (p : Z) (m : memory) : Prop :=
  match child_jobs m with
  | None => True
  | Some r => forall k j, k < len r -> slot r k j -> pid j <> p
  end.

(** [find(p)] returns a job, and its name is [n]. *)
Definition registered (m : memory) (p : Z) (n : list ascii) : Prop :=
  exists i, find_job_by_pid p m = Ok (Some i) /\ job_name m i = Ok n.

(** The number of live jobs. *)
Definition live (m : memory) : nat :=
  match child_jobs m with
  | None => 0
  | Some r => len r
  end.

(** Several [add_job] calls in a row. *)
Fixpoint add_jobs (l : list (Z * list ascii)) (m : memory) : res memory :=
  match l with
  | [] => Ok m
  | (p, n) :: rest => m' <- add_job p n m ;;; add_jobs rest m'
  end.

(** The allocated slots; a null registry has none. *)
Definition slots (m : memory) : list (option job) :=
  match child_jobs m with
  | None => []
  | Some r => jobs r
  end.

(** A [waitpid] call that cannot block: any child, with [WNOHANG]. *)
Definition polls (H : sys_headers) (e : event) : Prop :=
  forall p o, e = CallWaitpid p o -> p = (-1)%Z /\ o = WNOHANG H.

(** Once a token was stored, [cmd] and [argv[0]] hold the same string. *)
Definition named (k : nat) (c : command) : Prop :=
  k = 0 \/ exists n, cmd c = Str n /\ argv c !! 0 = Some (Str n).

(** ** The vocabulary of the exit status *)

(** The names the dispatcher recognises. *)
Definition is_built_in (n : list ascii) : bool :=
  bool_decide (n = bytes "exit") || bool_decide (n = bytes "pid") ||
  bool_decide (n = bytes "ppid") || bool_decide (n = bytes "cd") ||
  bool_decide (n = bytes "pwd") || bool_decide (n = bytes "jobs").

(** The failure class of an iteration and its code: the line could not be
    read (-1), the line could not be parsed (-2), a process had to be
    created for a command that is not a built-in and [fork] failed (-3). *)
Definition failure_of (a : answers) : option Z :=
  match a_getline a with
  | None | Some [] => Some (-1)%Z
  | Some line =>
      match gen_command line with
      | Ok (FAIL, _) => Some (-2)%Z
      | Ok (SPACES, _) => None
      | Ok (_, Some c) =>
          match cmd c with
          | Str n =>
              if negb (is_built_in n) && (a_fork a <? 0)%Z then Some (-3)%Z else None
          | _ => None
          end
      | _ => None
      end
  end.

(** The code of the last failure of a run that started with [e]. *)
Definition last_failure (e : Z) (trace : list answers) : Z :=
  fold_left (fun e a => default e (failure_of a)) trace e.

(** The system never gives a new process the pid of a child that was not
    reaped yet: at every iteration of the run, the pid that [fork] returns
    is not in the registry. *)
Fixpoint fresh_pids (H : sys_headers) (E : os_env) (prompt : list ascii)
    (trace : list answers) (s : shell) : Prop :=
  match trace with
  | [] => True
  | a :: rest =>
      absent (a_fork a) (mem s) /\
      match iteration H E prompt a s with
      | (_, Next s') => fresh_pids H E prompt rest s'
      | _ => True
      end
  end.

(** "Process exit status: zero on clean shutdown via the exit built-in",
    whatever was entered before; "a distinct small nonzero code for ...
    malformed startup arguments". *)
Definition clean_exit_claim : Prop :=
  forall H E args dir trace ev st,
    main H E args dir trace = (ev, Stopped_by (Returned BuiltinExit st)) ->
    exit_status st = 0%Z.

Definition usage_exit_claim : Prop :=
  forall H E args dir trace ev st,
    main H E args dir trace = (ev, Stopped_by (Returned UsageExit st)) ->
    exit_status st <> 0%Z.

(** An iteration in which the user types [line]; a command that is
    launched runs as process 501 of shell 500 and exits with status 0. *)
Definition typed (line : list ascii) : answers :=
  {| a_getline := Some line; a_getpid := 500; a_getppid := 1; a_fork := 501;
     a_exec_fails := false; a_getcwd_fails := false; a_status := 0;
     a_sweep := [] |}.

(** A registry with the single job 7, named "sleep". *)
Definition one_job : memory :=
  {| strings := {[ 1%positive := bytes "sleep" ]};
     child_jobs := Some {| len := 1; cap := 4;
                           jobs := [Some {| pid := 7; name := 1 |}; None; None; None] |} |}.

(** Five jobs for a registry that starts with room for four. *)
Definition five_jobs : list (Z * list ascii) :=
  [(101, bytes "a"); (102, bytes "b"); (103, bytes "c"); (104, bytes "d");
   (105, bytes "e")]%Z.

(** The name [find] and then [j->name] give for a pid, if any. *)
Definition lookup_name (m : memory) (p : Z) : option (list ascii) :=
  match find_job_by_pid p m with
  | Ok (Some i) => match job_name m i with Ok n => Some n | Fault _ => None end
  | _ => None
  end.

(** Slots [i .. i + n - 1] hold jobs whose pid is not [p]. *)
Definition others (p : Z) (r : child_jobs_t) (i n : nat) : Prop :=
  forall k, i <= k < i + n -> exists j, slot r k j /\ pid j <> p.

(** ** Further vocabulary: the parser on lines without a marker *)

(** What a line without '&' parses to, in terms of its tokens. *)
Definition parse_plain (line : list ascii) : res (command_type * option command) :=
  if forallb accepted line then
    match tokens line with
    | [] => Ok (SPACES, None)
    | t :: ts =>
        Ok (FOREGROUND,
            Some {| cmd := Str t; argv := map Str (t :: ts) ++ [NULL; Uninit] |})
    end
  else Ok (FAIL, None).

(** The first [k] slots of [argv] hold strings, the others were not
    written yet. *)
Definition filled (k : nat) (c : command) : Prop :=
  exists done r, argv c = map Str done ++ replicate r Uninit /\ length done = k.

(** ** Further vocabulary: the registry *)

(** The capacity field; a null registry has none. *)
Definition capacity (m : memory) : nat :=
  match child_jobs m with
  | None => 0
  | Some r => cap r
  end.

(** Some live slot holds a job with pid [q] whose name is the string [nm]. *)
Definition holds (m : memory) (q : Z) (nm : list ascii) : Prop :=
  exists r k j,
    child_jobs m = Some r /\ k < len r /\ slot r k j /\ pid j = q /\
    strings m !! name j = Some nm.

(** The pids the sweep receives from [waitpid] before the first answer that
    is not positive. *)
Fixpoint observed (ans : list (Z * Z)) : list Z :=
  match ans with
  | [] => []
  | (child, _) :: rest => if (0 <? child)%Z then child :: observed rest else []
  end.

(** * Properties *)

(** ** Reading the buffer *)

Lemma char_at_here (pre : list ascii) ch r :
  char_at (pre ++ ch :: r) (length pre) = ch.
Proof.
  unfold char_at. induction pre as [|x pre IH]; simpl; auto.
Qed.

Lemma char_at_next (pre : list ascii) ch r :
  char_at (pre ++ ch :: r) (length pre + 1) = hd NUL r.
Proof.
  unfold char_at. induction pre as [|x pre IH]; simpl; auto.
  destruct r; reflexivity.
Qed.

Lemma snoc_app (pre : list ascii) ch r : (pre ++ [ch]) ++ r = pre ++ ch :: r.
Proof. rewrite <- app_assoc. reflexivity. Qed.

Lemma length_snoc (pre : list ascii) ch : length (pre ++ [ch]) = S (length pre).
Proof. rewrite length_app. simpl. lia. Qed.

(** The first loop, started at index [length pre], only depends on the
    bytes from there on. *)
Lemma count_loop_rest rest : forall pre n,
  count_loop (pre ++ rest) (length rest) (length pre) n = count_rest rest n.
Proof.
  induction rest as [|ch r IH]; intros pre n; simpl; [reflexivity|].
  rewrite char_at_here, char_at_next.
  rewrite <- (snoc_app pre ch r), <- (length_snoc pre ch).
  rewrite !IH. reflexivity.
Qed.

Lemma strndup_pending (done pending : list ascii) ch r :
  strndup (done ++ pending ++ ch :: r) (length done)
          (length done + length pending - length done + 1)
  = until_nul (pending ++ [ch]).
Proof.
  unfold strndup. f_equal.
  rewrite drop_app_length.
  replace (length done + length pending - length done + 1)
    with (length (pending ++ [ch])) by (rewrite length_snoc; lia).
  rewrite <- (snoc_app pending ch r).
  apply take_app_length.
Qed.

(** The second loop in terms of the bytes still to be read. *)
Lemma copy_loop_rest rest : forall done pending k c,
  view (copy_loop (done ++ pending ++ rest) (length rest)
          (length done + length pending)
          {| start := length done; count := k; cur := c |})
  = copy_rest pending rest k c.
Proof.
  induction rest as [|ch r IH]; intros done pending k c; simpl; [reflexivity|].
  unfold copy_step; simpl.
  rewrite app_assoc, <- length_app, char_at_here, char_at_next.
  destruct (isspace ch && negb (isspace (hd NUL r))) eqn:E1; simpl.
  - specialize (IH ((done ++ pending) ++ [ch]) [] k c).
    rewrite app_nil_l, length_snoc, snoc_app in IH. simpl in IH.
    rewrite Nat.add_0_r in IH. rewrite Nat.add_1_r. exact IH.
  - destruct (negb (isspace ch) && (isspace (hd NUL r) || Ascii.eqb (hd NUL r) NUL)) eqn:E2;
      simpl.
    + rewrite length_app, <- app_assoc, strndup_pending.
      destruct (store_arg _ k _) as [c2|f]; simpl; [|reflexivity].
      specialize (IH done (pending ++ [ch]) (k + 1) c2).
      rewrite length_snoc, snoc_app in IH.
      rewrite <- Nat.add_succ_r. exact IH.
    + specialize (IH done (pending ++ [ch]) k c).
      rewrite length_snoc, snoc_app in IH.
      rewrite length_app, <- app_assoc, <- Nat.add_succ_r. exact IH.
Qed.

(** [gen_command] over the list views. *)
Lemma gen_command_rest line :
  gen_command line =
  match count_rest line 0 with
  | ScanFail => Ok (FAIL, None)
  | ScanDone num_args is_background =>
      if num_args =? 0 then Ok (SPACES, None)
      else
        kc <- copy_rest [] line 0
                {| cmd := Uninit; argv := replicate (num_args + 2) Uninit |} ;;;
        c1 <- store_arg (snd kc) num_args NULL ;;;
        Ok (if is_background then BACKGROUND else FOREGROUND, Some c1)
  end.
Proof.
  unfold gen_command.
  pose proof (count_loop_rest line [] 0) as Hc. simpl in Hc. rewrite Hc.
  destruct (count_rest line 0) as [|n b]; [reflexivity|].
  destruct (n =? 0); [reflexivity|].
  rewrite <- (copy_loop_rest line [] [] 0).
  simpl. destruct (copy_loop _ _ _ _) as [s|f]; reflexivity.
Qed.

(** ** Character classes *)

Lemma isspace_not_nul c : isspace c = true -> c <> NUL.
Proof. intros H ->. discriminate. Qed.

Lemma isspace_not_amp c : isspace c = true -> c <> AMP.
Proof. intros H ->. discriminate. Qed.

Lemma accepted_not_nul c : accepted c = true -> c <> NUL.
Proof. intros H ->. discriminate. Qed.

Lemma eqb_nul_false c : c <> NUL -> Ascii.eqb c NUL = false.
Proof. intros H. apply Ascii.eqb_neq. exact H. Qed.

Lemma accepted_pass c :
  accepted c = true -> negb (isprint c) && negb (isspace c) = false.
Proof.
  unfold accepted. destruct (isprint c), (isspace c); simpl; congruence.
Qed.

(** ** Tokens *)

Lemma tokens_nonspace_head c l : isspace c = false -> tokens (c :: l) <> [].
Proof.
  intros Hc. simpl. rewrite Hc.
  destruct l as [|d l']; [discriminate|].
  destruct (isspace d); [discriminate|].
  destruct (tokens (d :: l')); discriminate.
Qed.

Lemma tokens_blank l : Forall (fun c => isspace c = true) l -> tokens l = [].
Proof.
  induction 1 as [|c l Hc _ IH]; simpl; [reflexivity|].
  rewrite Hc. exact IH.
Qed.

Lemma tokens_nil_blank l : tokens l = [] -> Forall (fun c => isspace c = true) l.
Proof.
  induction l as [|c l IH]; intros H; [constructor|].
  destruct (isspace c) eqn:Hc.
  - constructor; [exact Hc|]. apply IH. simpl in H. rewrite Hc in H. exact H.
  - exfalso. exact (tokens_nonspace_head c l Hc H).
Qed.

(** The first token of a buffer that starts with a non-space byte starts
    with that byte. *)
Lemma tokens_head c l :
  isspace c = false -> exists t ts, tokens (c :: l) = (c :: t) :: ts.
Proof.
  intros Hc. simpl. rewrite Hc.
  destruct l as [|d l']; [eauto|].
  destruct (isspace d); [eauto|].
  destruct (tokens (d :: l')); eauto.
Qed.

Lemma tokens_from_nil rest : tokens_from [] rest = tokens rest.
Proof.
  destruct rest as [|ch r]; [reflexivity|].
  unfold tokens_from. destruct (isspace ch); [reflexivity|].
  destruct (tokens (ch :: r)); reflexivity.
Qed.

Lemma tokens_from_blank pending rest :
  isspace (hd NUL rest) = true \/ rest = [] ->
  tokens_from pending rest = tokens rest.
Proof.
  intros [H| ->]; [|reflexivity].
  destruct rest as [|ch r]; [reflexivity|].
  simpl in H. unfold tokens_from. rewrite H. reflexivity.
Qed.

Lemma until_nul_id l : Forall (fun c => c <> NUL) l -> until_nul l = l.
Proof.
  induction 1 as [|c l Hc _ IH]; simpl; [reflexivity|].
  rewrite (eqb_nul_false c Hc), IH. reflexivity.
Qed.

(** On a buffer without NUL bytes the second loop stores the tokens. *)
Lemma copy_rest_tokens rest : forall pending k c,
  Forall (fun x => x <> NUL) pending ->
  Forall (fun x => x <> NUL) rest ->
  copy_rest pending rest k c = store_tokens (tokens_from pending rest) k c.
Proof.
  induction rest as [|ch r IH]; intros pending k c Hp Hr; [reflexivity|].
  inversion Hr as [|? ? Hch Hr']; subst.
  assert (Hp' : Forall (fun x => x <> NUL) (pending ++ [ch])).
  { apply Forall_app. split; [exact Hp|]. constructor; [exact Hch|constructor]. }
  cbn [copy_rest].
  destruct (isspace ch) eqn:Hs.
  - (* white space *)
    replace (tokens_from pending (ch :: r)) with (tokens r)
      by (unfold tokens_from; rewrite Hs; simpl; rewrite Hs; reflexivity).
    destruct (isspace (hd NUL r)) eqn:Hn; simpl.
    + rewrite IH by assumption. rewrite tokens_from_blank by (left; exact Hn).
      reflexivity.
    + rewrite IH by (assumption || constructor). rewrite tokens_from_nil. reflexivity.
  - (* a byte of a token *)
    cbn [andb negb].
    destruct r as [|d r'].
    + cbn [hd]. replace (isspace NUL) with false by reflexivity.
      replace (Ascii.eqb NUL NUL) with true by reflexivity. cbn [orb].
      rewrite until_nul_id by exact Hp'.
      unfold tokens_from. rewrite Hs. cbn [tokens]. rewrite Hs.
      cbn [store_tokens copy_rest app].
      destruct (store_arg _ _ _); reflexivity.
    + inversion Hr' as [|? ? Hd _]; subst.
      cbn [hd]. rewrite (eqb_nul_false d Hd), orb_false_r.
      destruct (isspace d) eqn:Hsd.
      * rewrite until_nul_id by exact Hp'.
        unfold tokens_from at 1. rewrite Hs. cbn [tokens]. rewrite Hs, Hsd.
        cbn [store_tokens app].
        destruct (store_arg _ _ _) as [c2|f]; cbn [res_bind]; [|reflexivity].
        rewrite IH by assumption.
        rewrite tokens_from_blank by (left; exact Hsd).
        cbn [tokens]. rewrite Hsd. reflexivity.
      * rewrite IH by assumption.
        unfold tokens_from. rewrite Hs, Hsd. cbn [tokens]. rewrite Hs, Hsd.
        destruct (tokens_head d r' Hsd) as (t & ts & Ht).
        cbn [tokens] in Ht. rewrite Hsd in Ht. rewrite Ht.
        rewrite <- app_assoc. reflexivity.
Qed.

(** ** Stores into [argv] *)

Lemma store_arg_fresh (done : list (list ascii)) n m p :
  store_arg {| cmd := m; argv := map Str done ++ replicate (S n) Uninit |}
            (length done) p
  = Ok {| cmd := m; argv := map Str done ++ p :: replicate n Uninit |}.
Proof.
  unfold store_arg. cbn [argv cmd].
  rewrite length_app, length_map, length_replicate.
  replace (length done <? length done + S n) with true
    by (symmetry; apply Nat.ltb_lt; lia).
  rewrite insert_app_r_alt by (rewrite length_map; lia).
  rewrite length_map, Nat.sub_diag. reflexivity.
Qed.

(** Storing tokens into slots that are still free. *)
Lemma store_tokens_fits toks : forall done m n,
  length toks <= n ->
  store_tokens toks (length done)
    {| cmd := m; argv := map Str done ++ replicate n Uninit |}
  = Ok (length done + length toks,
        {| cmd := if length done =? 0
                  then match toks with t :: _ => Str t | [] => m end
                  else m;
           argv := map Str (done ++ toks) ++ replicate (n - length toks) Uninit |}).
Proof.
  induction toks as [|t ts IH]; intros done m n Hn; cbn [store_tokens].
  - rewrite app_nil_r, Nat.add_0_r, Nat.sub_0_r.
    destruct (length done =? 0); reflexivity.
  - destruct n as [|n]; [simpl in Hn; lia|].
    assert (Hc : forall m', store_arg
               {| cmd := m'; argv := map Str done ++ replicate (S n) Uninit |}
               (length done) (Str t)
             = Ok {| cmd := m'; argv := map Str (done ++ [t]) ++ replicate n Uninit |}).
    { intros m'. rewrite store_arg_fresh, map_app, <- app_assoc. reflexivity. }
    destruct (length done =? 0) eqn:Hk; cbn [argv]; rewrite Hc; cbn [res_bind].
    all: replace (length done + 1) with (length (done ++ [t]))
           by (rewrite length_app; reflexivity).
    all: rewrite IH by (simpl in Hn; lia).
    all: rewrite length_app; cbn [length].
    all: replace (length done + 1 =? 0) with false
           by (symmetry; apply Nat.eqb_neq; lia).
    all: rewrite <- app_assoc; cbn [app].
    all: f_equal; f_equal; lia.
Qed.

(** ** The first loop *)

Lemma count_rest_blank l : forall n,
  Forall (fun c => isspace c = true) l -> count_rest l n = ScanDone n false.
Proof.
  induction l as [|c l IH]; intros n Hl; [reflexivity|].
  inversion Hl as [|? ? Hc Hl']; subst. cbn [count_rest].
  rewrite Hc, andb_false_r.
  rewrite (proj2 (Ascii.eqb_neq c AMP) (isspace_not_amp c Hc)).
  cbn [negb]. rewrite andb_false_r. apply IH, Hl'.
Qed.

Lemma count_rest_blank_amp ws : forall rest n,
  Forall (fun c => isspace c = true) ws ->
  count_rest (ws ++ AMP :: rest) n = ScanDone n true.
Proof.
  induction ws as [|c ws IH]; intros rest n Hws; [reflexivity|].
  inversion Hws as [|? ? Hc Hws']; subst. cbn [count_rest app].
  rewrite Hc, andb_false_r.
  rewrite (proj2 (Ascii.eqb_neq c AMP) (isspace_not_amp c Hc)).
  cbn [negb]. rewrite andb_false_r. apply IH, Hws'.
Qed.

Lemma count_rest_rejects pre : forall c post n,
  Forall (fun x => x <> AMP) pre ->
  accepted c = false ->
  count_rest (pre ++ c :: post) n = ScanFail.
Proof.
  induction pre as [|x pre IH]; intros c post n Hpre Hc; cbn [count_rest app].
  - unfold accepted in Hc. apply orb_false_iff in Hc as [-> ->]. reflexivity.
  - inversion Hpre as [|? ? Hx Hpre']; subst.
    destruct (negb (isprint x) && negb (isspace x)); [reflexivity|].
    rewrite (proj2 (Ascii.eqb_neq x AMP) Hx).
    destruct (_ && _); apply IH; assumption.
Qed.

Lemma count_rest_tokens pre : forall post n,
  Forall (fun x => accepted x = true) pre ->
  Forall (fun x => x <> AMP) pre ->
  blank_end pre = true ->
  count_rest (pre ++ AMP :: post) n = ScanDone (n + length (tokens pre)) true.
Proof.
  induction pre as [|c pre IH]; intros post n Hacc Hamp Hend.
  - simpl. rewrite Nat.add_0_r. reflexivity.
  - inversion Hacc as [|? ? Hc Hacc']; subst.
    inversion Hamp as [|? ? Hca Hamp']; subst.
    cbn [count_rest app].
    rewrite (accepted_pass c Hc), (proj2 (Ascii.eqb_neq c AMP) Hca).
    destruct pre as [|d pre'].
    + cbn [blank_end] in Hend. cbn [app hd tokens]. rewrite Hend.
      cbn [negb]. rewrite andb_false_r. simpl. rewrite Nat.add_0_r. reflexivity.
    + assert (Hend' : blank_end (d :: pre') = true) by exact Hend.
      inversion Hacc' as [|? ? Hd _]; subst.
      cbn [app hd].
      rewrite (eqb_nul_false d (accepted_not_nul d Hd)), orb_false_r.
      specialize (IH post). cbn [app] in IH.
      cbn [tokens].
      destruct (isspace c) eqn:Hsc.
      * cbn [negb]. rewrite andb_false_r. apply IH; assumption.
      * cbn [negb]. rewrite andb_true_r.
        destruct (isspace d) eqn:Hsd.
        -- rewrite IH by assumption. cbn [tokens]. rewrite Hsd.
           cbn [length]. f_equal. lia.
        -- rewrite IH by assumption.
           destruct (tokens_head d pre' Hsd) as (t & ts & Ht).
           cbn [tokens] in Ht. rewrite Hsd in Ht.
           cbn [tokens]. rewrite Hsd, Ht. reflexivity.
Qed.

(** ** Lines that end with the token "&" *)

Lemma tokens_trailing_amp line : forall toks,
  tokens line = toks ++ [[AMP]] ->
  exists pre post,
    line = pre ++ AMP :: post /\ tokens pre = toks /\ blank_end pre = true /\
    Forall (fun c => isspace c = true) post.
Proof.
  induction line as [|c r IH]; intros toks H.
  - destruct toks; discriminate.
  - cbn [tokens] in H. destruct (isspace c) eqn:Hc.
    + destruct (IH toks H) as (pre & post & -> & Ht & He & Hp).
      exists (c :: pre), post. repeat split; try assumption.
      * cbn [tokens]. rewrite Hc. exact Ht.
      * destruct pre; [exact Hc|exact He].
    + destruct r as [|d r'].
      * destruct toks as [|t0 [|t1 toks']]; try discriminate.
        injection H as ->.
        exists [], []. repeat split. constructor.
      * destruct (isspace d) eqn:Hd.
        -- destruct toks as [|t0 toks'].
           ++ injection H as -> Hr.
              exists [], (d :: r'). repeat split. apply tokens_nil_blank, Hr.
           ++ injection H as <- Hr.
              destruct (IH toks' Hr) as (pre & post & Hl & Ht & He & Hp).
              destruct pre as [|d' pre'].
              ** injection Hl as -> _. discriminate.
              ** injection Hl as <- ->.
                 exists (c :: d :: pre'), post. repeat split; try assumption.
                 cbn [tokens]. rewrite Hc, Hd.
                 cbn [tokens] in Ht. rewrite Hd in Ht. rewrite Ht. reflexivity.
        -- destruct (tokens_head d r' Hd) as (t & ts & Ht'). rewrite Ht' in H.
           destruct toks as [|t0 toks'].
           ++ destruct ts; discriminate.
           ++ injection H as <- Hr. subst ts.
              destruct (IH ((d :: t) :: toks') Ht') as (pre & post & Hl & Ht & He & Hp).
              destruct pre as [|d' pre']; [discriminate|].
              injection Hl as <- ->.
              exists (c :: d :: pre'), post. repeat split; try assumption.
              cbn [tokens]. rewrite Hc, Hd.
              cbn [tokens] in Ht. rewrite Hd in Ht. rewrite Ht. reflexivity.
Qed.

(** Every byte of a buffer is white space or a byte of one of its tokens. *)
Lemma byte_in_token l : forall c,
  c ∈ l -> isspace c = true \/ exists t, t ∈ tokens l /\ c ∈ t.
Proof.
  induction l as [|x r IH]; intros c Hin.
  - inversion Hin.
  - cbn [tokens]. destruct (isspace x) eqn:Hx.
    + apply elem_of_cons in Hin as [->|Hin]; [left; exact Hx|]. apply IH, Hin.
    + destruct r as [|d r'].
      * apply elem_of_cons in Hin as [->|Hin]; [|inversion Hin].
        right. exists [x]. split; apply list_elem_of_here.
      * destruct (isspace d) eqn:Hd.
        -- apply elem_of_cons in Hin as [->|Hin].
           ++ right. exists [x]. split; apply list_elem_of_here.
           ++ destruct (IH c Hin) as [Hs|(t & Ht & Hct)]; [left; exact Hs|].
              right. exists t. split; [apply list_elem_of_further, Ht|exact Hct].
        -- destruct (tokens_head d r' Hd) as (t & ts & Ht). rewrite Ht.
           apply elem_of_cons in Hin as [->|Hin].
           ++ right. exists (x :: d :: t). split; apply list_elem_of_here.
           ++ destruct (IH c Hin) as [Hs|(t' & Ht'in & Hct)]; [left; exact Hs|].
              rewrite Ht in Ht'in.
              apply elem_of_cons in Ht'in as [->|Ht'in].
              ** right. exists (x :: d :: t).
                 split; [apply list_elem_of_here|apply list_elem_of_further, Hct].
              ** right. exists t'.
                 split; [apply list_elem_of_further, Ht'in|exact Hct].
Qed.

Lemma argv_tokens_sentinel toks rest :
  argv_tokens (map Str toks ++ NULL :: rest) = toks.
Proof.
  induction toks as [|t ts IH]; simpl; [reflexivity|]. rewrite IH. reflexivity.
Qed.

Lemma accepted_no_nul l :
  Forall (fun c => accepted c = true) l -> Forall (fun c => c <> NUL) l.
Proof.
  intros H. eapply Forall_impl; [exact H|]. exact accepted_not_nul.
Qed.

(** ** The parser: claims *)

(** C1 (amended). For every line of accepted bytes whose last token is
    exactly "&", preceded by at least one token, none of which contains the
    byte '&', [gen_command] classifies the line as BACKGROUND and the
    argument vector of the Command, read up to its NULL sentinel, is exactly
    the list of the tokens before the marker; it does not contain "&". *)
Theorem gen_command_trailing_marker line toks :
  tokens line = toks ++ [[AMP]] ->
  toks <> [] ->
  Forall (fun c => accepted c = true) line ->
  (forall t, t ∈ toks -> AMP ∉ t) ->
  exists c,
    gen_command line = Ok (BACKGROUND, Some c) /\
    argv_tokens (argv c) = toks /\
    (forall t, t ∈ toks -> t ∈ argv_tokens (argv c)) /\
    [AMP] ∉ argv_tokens (argv c).
Proof.
  intros Htok Hne Hacc Hamp.
  destruct (tokens_trailing_amp line toks Htok) as (pre & post & Hl & Hpre & Hend & Hpost).
  assert (Haccpre : Forall (fun c => accepted c = true) pre).
  { rewrite Hl in Hacc. apply Forall_app in Hacc. tauto. }
  assert (Hamppre : Forall (fun x => x <> AMP) pre).
  { apply Forall_forall. intros x Hx ->.
    destruct (byte_in_token pre AMP Hx) as [Hs|(t & Ht & Hin)]; [discriminate|].
    rewrite Hpre in Ht. exact (Hamp t Ht Hin). }
  remember (length toks) as n eqn:En.
  assert (Hn : n <> 0) by (subst n; destruct toks; simpl; congruence).
  exists {| cmd := match toks with t :: _ => Str t | [] => Uninit end;
            argv := map Str toks ++ [NULL; Uninit] |}.
  split; [|cbn [argv]; rewrite argv_tokens_sentinel; repeat split].
  - rewrite gen_command_rest. rewrite Hl at 1.
    rewrite (count_rest_tokens pre post 0 Haccpre Hamppre Hend), Hpre.
    cbn [Nat.add]. rewrite <- En.
    rewrite (proj2 (Nat.eqb_neq n 0) Hn).
    rewrite copy_rest_tokens by (constructor || apply accepted_no_nul, Hacc).
    rewrite tokens_from_nil, Htok.
    pose proof (store_tokens_fits (toks ++ [[AMP]]) [] Uninit (n + 2)) as Hst.
    cbn [length map app Nat.eqb] in Hst.
    rewrite Hst by (rewrite length_app, <- En; simpl; lia).
    cbn [res_bind snd].
    replace (replicate (n + 2 - length (toks ++ [[AMP]])) Uninit) with [Uninit]
      by (rewrite length_app, <- En; cbn [length];
          replace (n + 2 - (n + 1)) with 1 by lia; reflexivity).
    rewrite map_app, <- app_assoc. cbn [map app].
    unfold store_arg. cbn [argv cmd].
    rewrite length_app, length_map, <- En. cbn [length].
    replace (n <? n + 2) with true by (symmetry; apply Nat.ltb_lt; lia).
    rewrite insert_app_r_alt by (rewrite length_map, <- En; lia).
    rewrite length_map, <- En, Nat.sub_diag. cbn [res_bind].
    destruct toks; [congruence|reflexivity].
  - auto.
  - intros Hin. exact (Hamp [AMP] Hin (list_elem_of_here _ _)).
Qed.

Lemma gen_command_trailing_marker_witness :
  exists c,
    gen_command (bytes "sleep 5 &" ++ [LF]) = Ok (BACKGROUND, Some c) /\
    argv_tokens (argv c) = [bytes "sleep"; bytes "5"] /\
    (forall t, t ∈ [bytes "sleep"; bytes "5"] -> t ∈ argv_tokens (argv c)) /\
    [AMP] ∉ argv_tokens (argv c).
Proof.
  apply (gen_command_trailing_marker (bytes "sleep 5 &" ++ [LF])
           [bytes "sleep"; bytes "5"]).
  - reflexivity.
  - discriminate.
  - repeat constructor.
  - intros t Ht. apply list_elem_of_In in Ht. simpl in Ht.
    intros Hin. apply list_elem_of_In in Hin.
    destruct Ht as [<-|[<-|[]]]; simpl in Hin;
      repeat (destruct Hin as [Hin|Hin]; [discriminate Hin|]); exact Hin.
Defined.

(** C1 fails as stated: an earlier '&' stops the first loop, so the token
    "a&b" is dropped; and a non-printable byte before the marker makes the
    line a parse failure. *)
Lemma trailing_marker_claim_fails :
  ~ trailing_marker_claim (bytes "ls a&b &" ++ [LF]) /\
  ~ trailing_marker_claim (bytes "ls " ++ ["001"%char] ++ bytes " &" ++ [LF]).
Proof.
  split; intros H.
  - destruct (H [bytes "ls"; bytes "a&b"]) as (c & Hc & Hin & _);
      [reflexivity|discriminate|].
    vm_compute in Hc. injection Hc as <-.
    specialize (Hin (bytes "a&b")).
    assert (Hx : bytes "a&b" ∈ [bytes "ls"; bytes "a&b"])
      by (apply list_elem_of_further, list_elem_of_here).
    apply Hin in Hx. apply list_elem_of_In in Hx. simpl in Hx.
    destruct Hx as [Hx|[]]. discriminate Hx.
  - destruct (H [bytes "ls"; ["001"%char]]) as (c & Hc & _);
      [reflexivity|discriminate|].
    vm_compute in Hc. discriminate Hc.
Qed.

(** C2 (amended). For every line that contains a byte that is neither
    printable nor white space at a position that no '&' precedes,
    [gen_command] returns FAIL and leaves the Command pointer alone. *)
Theorem gen_command_rejects pre c post :
  accepted c = false ->
  Forall (fun x => x <> AMP) pre ->
  gen_command (pre ++ c :: post) = Ok (FAIL, None).
Proof.
  intros Hc Hpre. rewrite gen_command_rest.
  rewrite (count_rest_rejects pre c post 0 Hpre Hc). reflexivity.
Qed.

Lemma gen_command_rejects_witness :
  gen_command (bytes "ls " ++ "007"%char :: bytes " -l &" ++ [LF]) = Ok (FAIL, None).
Proof.
  apply (gen_command_rejects (bytes "ls ") "007"%char (bytes " -l &" ++ [LF])).
  - reflexivity.
  - repeat constructor; discriminate.
Defined.

(** C2 fails as stated: the first loop stops at '&' and does not look at
    the bytes after it. *)
Lemma rejects_bad_bytes_claim_fails :
  ~ rejects_bad_bytes_claim (bytes "a &" ++ ["001"%char; LF]).
Proof.
  intros H.
  assert (Hbad : exists c, c ∈ bytes "a &" ++ ["001"%char; LF] /\ accepted c = false).
  { exists "001"%char. split; [|reflexivity].
    apply list_elem_of_In. simpl. tauto. }
  specialize (H Hbad). vm_compute in H. discriminate H.
Qed.

(** C9 (defect of the code). On "a & b c" the first loop stops at '&' with
    [num_args = 1], so [argv] gets three slots; the second loop does not
    stop at '&' and stores "a", "&", "b" and then "c" at index 3, one past
    the last slot. *)
Theorem copy_loop_overruns_argv :
  count_loop (bytes "a & b c" ++ [LF]) 8 0 0 = ScanDone 1 true /\
  gen_command (bytes "a & b c" ++ [LF]) = Fault (OutOfBounds 3 3).
Proof. split; reflexivity. Qed.

(** ** The sweep *)

(** The sweep only calls [waitpid(-1, &status, WNOHANG)] and prints reports. *)
Lemma sweep_events H (P : event -> Prop) :
  P (CallWaitpid (-1) (WNOHANG H)) ->
  (forall p n o c, P (PrintReport p n o c)) ->
  forall ans m, Forall P (fst (sweep H ans m)).
Proof.
  intros Hw Hr.
  assert (Hone : Forall P [CallWaitpid (-1) (WNOHANG H)])
    by (apply Forall_cons_2; [exact Hw|apply Forall_nil_2]).
  assert (Hrep : forall p n st, Forall P (report H p n st)).
  { intros p n st. unfold report.
    repeat match goal with
           | |- context [if ?b then _ else _] => destruct b
           end;
      try apply Forall_nil_2; (apply Forall_cons_2; [apply Hr|apply Forall_nil_2]). }
  induction ans as [|[child st] rest IH]; intros m; cbn [sweep]; [exact Hone|].
  destruct (0 <? child)%Z; [|exact Hone].
  destruct (find_job_by_pid child m) as [[i|]|f]; [| |exact Hone].
  - destruct (job_name m i) as [n|f]; [|exact Hone].
    destruct (free_job_by_pid child m) as [m'|f].
    + specialize (IH m'). destruct (sweep H rest m') as [ev x]. cbn [fst] in *.
      apply Forall_cons_2; [exact Hw|].
      apply Forall_app. split; [apply Hrep|exact IH].
    + cbn [fst]. apply Forall_cons_2; [exact Hw|apply Hrep].
  - specialize (IH m). destruct (sweep H rest m) as [ev x]. cbn [fst] in *.
    apply Forall_cons_2; [exact Hw|exact IH].
Qed.

Lemma sweep_no_launch H ans m :
  Forall (fun e => is_launch e = false) (fst (sweep H ans m)).
Proof. apply sweep_events; reflexivity. Qed.

(** C5. A line that is empty, all white space, or white space around a
    lone '&' is classified SPACES, no Command is produced, and the
    iteration of [main] that reads it neither forks nor executes anything. *)
Theorem blank_input_is_skipped line :
  blank_input line ->
  gen_command line = Ok (SPACES, None) /\
  forall H E prompt a s,
    a_getline a = Some line ->
    Forall (fun e => is_launch e = false) (fst (iteration H E prompt a s)).
Proof.
  intros Hb.
  assert (Hg : gen_command line = Ok (SPACES, None)).
  { rewrite gen_command_rest.
    destruct Hb as [Hb|(ws & post & -> & Hws & _)].
    - rewrite (count_rest_blank line 0 Hb). reflexivity.
    - rewrite (count_rest_blank_amp ws post 0 Hws). reflexivity. }
  split; [exact Hg|].
  intros H E prompt a s Ha. unfold iteration. rewrite Ha.
  destruct line as [|c r]; [repeat constructor|].
  rewrite Hg. unfold finish.
  pose proof (sweep_no_launch H (a_sweep a) (mem s)) as Hs.
  destruct (sweep H (a_sweep a) (mem s)) as [ev x]. cbn [fst] in *.
  constructor; [reflexivity|exact Hs].
Qed.

Lemma blank_input_is_skipped_witness :
  gen_command (bytes "  &  " ++ [LF]) = Ok (SPACES, None) /\
  forall H E prompt a s,
    a_getline a = Some (bytes "  &  " ++ [LF]) ->
    Forall (fun e => is_launch e = false) (fst (iteration H E prompt a s)).
Proof.
  apply (blank_input_is_skipped (bytes "  &  " ++ [LF])).
  right. exists (bytes "  "), (bytes "  " ++ [LF]).
  split; [reflexivity|]. split; repeat constructor.
Defined.

(** ** The registry: the loops *)

Section Loops.
Variable p : Z.

Lemma read_slot_ok r k j : slot r k j -> read_slot r k = Ok j.
Proof. unfold slot, read_slot. intros ->. reflexivity. Qed.

Lemma find_loop_skip r n : forall fuel i,
  others p r i n ->
  find_loop p r (n + fuel) i = find_loop p r fuel (i + n).
Proof.
  induction n as [|n IH]; intros fuel i Ho.
  - rewrite Nat.add_0_r. reflexivity.
  - destruct (Ho i) as (j & Hj & Hp); [lia|].
    cbn [Nat.add find_loop]. rewrite (read_slot_ok r i j Hj). cbn [res_bind].
    rewrite (proj2 (Z.eqb_neq (pid j) p) Hp).
    rewrite IH; [f_equal; lia|].
    intros k Hk. apply Ho. lia.
Qed.

Lemma find_loop_hit r i j fuel :
  slot r i j -> pid j = p -> find_loop p r (S fuel) i = Ok (Some i).
Proof.
  intros Hj Hp. cbn [find_loop]. rewrite (read_slot_ok r i j Hj). cbn [res_bind].
  rewrite (proj2 (Z.eqb_eq (pid j) p) Hp). reflexivity.
Qed.

Lemma free_loop_skip len0 n : forall fuel i h r,
  others p r i n ->
  free_loop p len0 (n + fuel) i h r = free_loop p len0 fuel (i + n) h r.
Proof.
  induction n as [|n IH]; intros fuel i h r Ho.
  - rewrite Nat.add_0_r. reflexivity.
  - destruct (Ho i) as (j & Hj & Hp); [lia|].
    cbn [Nat.add free_loop]. rewrite (read_slot_ok r i j Hj). cbn [res_bind].
    rewrite (proj2 (Z.eqb_neq (pid j) p) Hp).
    rewrite IH; [f_equal; lia|].
    intros k Hk. apply Ho. lia.
Qed.

(** What [find_loop] returns is the first slot with pid [p]. *)
Lemma find_loop_sound r fuel : forall i k,
  find_loop p r fuel i = Ok (Some k) ->
  i <= k < i + fuel /\ (exists j, slot r k j /\ pid j = p) /\ others p r i (k - i).
Proof.
  induction fuel as [|fuel IH]; intros i k H; [discriminate|].
  cbn [find_loop] in H. unfold read_slot in H.
  destruct (jobs r !! i) as [[j|]|] eqn:Hs; try discriminate.
  cbn [res_bind] in H. destruct (Z.eqb (pid j) p) eqn:Hp.
  - injection H as <-. split; [lia|]. split.
    + exists j. split; [exact Hs|apply Z.eqb_eq, Hp].
    + intros k Hk. lia.
  - destruct (IH (S i) k H) as (Hk & Hj & Ho).
    split; [lia|]. split; [exact Hj|].
    intros k' Hk'. destruct (decide (k' = i)) as [->|Hne].
    + exists j. split; [exact Hs|apply Z.eqb_neq, Hp].
    + apply Ho. lia.
Qed.
End Loops.

(** ** The registry: removal *)

Lemma slot_fun r k j1 j2 : slot r k j1 -> slot r k j2 -> j1 = j2.
Proof. unfold slot. congruence. Qed.

Lemma memory_eta m r : child_jobs m = Some r ->
  {| strings := strings m; child_jobs := Some r |} = m.
Proof. destruct m; simpl; intros ->; reflexivity. Qed.

Lemma free_absent p m :
  wf_memory m -> absent p m -> free_job_by_pid p m = Ok m.
Proof.
  unfold wf_memory, absent, free_job_by_pid.
  destruct (child_jobs m) as [r|] eqn:Hc; [|reflexivity].
  intros (_ & _ & Hlive) Habs.
  destruct (0 <? len r); [|reflexivity].
  pose proof (free_loop_skip p (len r) (len r) 0 0 (strings m) r) as H.
  rewrite Nat.add_0_r in H. rewrite H.
  - cbn [free_loop res_bind fst snd]. rewrite (memory_eta m r Hc). reflexivity.
  - intros k Hk. destruct (Hlive k) as (j & Hj & _); [lia|].
    exists j. split; [exact Hj|]. apply (Habs k j); [lia|exact Hj].
Qed.

Lemma free_present p m r i j :
  child_jobs m = Some r -> registry_wf (strings m) r ->
  (forall k jk, k < len r -> slot r k jk -> pid jk = p -> k = i) ->
  i < len r -> slot r i j -> pid j = p ->
  exists last,
    jobs r !! (len r - 1) = Some last /\
    free_job_by_pid p m =
      Ok {| strings := delete (name j) (strings m);
            child_jobs := Some {| len := len r - 1; cap := cap r;
                                  jobs := <[i := last]> (jobs r) |} |}.
Proof.
  intros Hc (Hle & Hcap & Hlive) Huniq Hi Hj Hp.
  destruct (Hlive (len r - 1)) as (jl & Hjl & _); [lia|].
  exists (Some jl). split; [exact Hjl|].
  unfold free_job_by_pid. rewrite Hc.
  replace (0 <? len r) with true by (symmetry; apply Nat.ltb_lt; lia).
  assert (Hbefore : others p r 0 i).
  { intros k Hk. destruct (Hlive k) as (jk & Hjk & _); [lia|].
    exists jk. split; [exact Hjk|]. intros Hpk.
    assert (k = i) by (apply (Huniq k jk); try assumption; lia).
    lia. }
  replace (len r) with (i + S (len r - i - 1)) at 2 by lia.
  rewrite (free_loop_skip p (len r) i _ 0 (strings m) r Hbefore).
  cbn [Nat.add free_loop]. rewrite (read_slot_ok r i j Hj). cbn [res_bind].
  rewrite (proj2 (Z.eqb_eq (pid j) p) Hp).
  destruct (Hlive i Hi) as (j' & Hj' & [n Hn]).
  rewrite (slot_fun r i j' j Hj' Hj) in Hn. rewrite Hn.
  set (r1 := {| len := len r; cap := cap r; jobs := <[i := Some jl]> (jobs r) |}).
  assert (Hcopy : (if i <? len r - 1 then copy_slot r i (len r - 1) else Ok r) = Ok r1).
  { destruct (i <? len r - 1) eqn:Hlt.
    - unfold copy_slot. rewrite Hjl.
      replace (i <? length (jobs r)) with true
        by (symmetry; apply Nat.ltb_lt; lia).
      reflexivity.
    - apply Nat.ltb_ge in Hlt. assert (i = len r - 1) by lia. subst i.
      unfold r1. rewrite list_insert_id by exact Hjl. destruct r; reflexivity. }
  rewrite Hcopy. cbn [res_bind].
  set (r2 := {| len := len r1 - 1; cap := cap r1; jobs := jobs r1 |}).
  pose proof (free_loop_skip p (len r) (len r - i - 1) 0 (S i)
                (delete (name j) (strings m)) r2) as Hskip.
  rewrite Nat.add_0_r in Hskip. rewrite Hskip.
  - reflexivity.
  - intros k Hk. destruct (Hlive k) as (jk & Hjk & _); [lia|].
    exists jk. split.
    + unfold slot, r2, r1. cbn [jobs].
      rewrite list_lookup_insert_ne by lia. exact Hjk.
    + intros Hpk.
      assert (k = i) by (apply (Huniq k jk); try assumption; lia).
      lia.
Qed.

(** C6. In a registry state with unique pids, [free_job_by_pid] on the pid
    of the job in slot [i] releases that job's name, puts the last live
    slot into slot [i] and takes one off the length, leaving the capacity
    and every other slot as they were; on a pid that no live job has it
    changes nothing. *)
Theorem free_job_by_pid_spec m r p :
  child_jobs m = Some r ->
  registry_wf (strings m) r ->
  unique_pids r ->
  (forall i j, i < len r -> slot r i j -> pid j = p ->
     exists last m',
       jobs r !! (len r - 1) = Some last /\
       free_job_by_pid p m = Ok m' /\
       strings m' = delete (name j) (strings m) /\
       strings m' !! name j = None /\
       child_jobs m' = Some {| len := len r - 1; cap := cap r;
                               jobs := <[i := last]> (jobs r) |}) /\
  (absent p m -> free_job_by_pid p m = Ok m).
Proof.
  intros Hc Hwf Huniq. split.
  - intros i j Hi Hj Hp.
    assert (Honly : forall k jk, k < len r -> slot r k jk -> pid jk = p -> k = i).
    { intros k jk Hk Hjk Hpk. apply (Huniq k i jk j); try assumption. congruence. }
    destruct (free_present p m r i j Hc Hwf Honly Hi Hj Hp) as (last & Hlast & Hfree).
    eexists last, _. split; [exact Hlast|]. split; [exact Hfree|].
    cbn [strings child_jobs]. split; [reflexivity|].
    split; [apply lookup_delete_eq|reflexivity].
  - apply free_absent. unfold wf_memory. rewrite Hc. exact Hwf.
Qed.

(** ** The registry: insertion *)

(** What [add_job] builds: the old slots, possibly followed by new ones,
    with the new job written at the old length. *)
Lemma add_job_spec p n m :
  wf_memory m ->
  exists a extra r1,
    strings m !! a = None /\
    live m < length (slots m ++ extra) /\
    live m <= length (slots m) /\
    r1 = {| len := live m + 1; cap := length (slots m ++ extra);
            jobs := <[live m := Some {| pid := p; name := a |}]> (slots m ++ extra) |} /\
    add_job p n m = Ok {| strings := <[a := n]> (strings m); child_jobs := Some r1 |}.
Proof.
  intros Hwf.
  set (a := fresh (dom (strings m))).
  assert (Ha : strings m !! a = None)
    by (apply not_elem_of_dom; unfold a; apply is_fresh).
  unfold wf_memory in Hwf. unfold add_job, live, slots. fold a.
  destruct (child_jobs m) as [r|] eqn:Hc.
  - destruct Hwf as (Hle & Hcap & _).
    destruct (cap r <=? len r) eqn:Hfull.
    + apply Nat.leb_le in Hfull.
      exists a, (replicate 4 None). eexists. split; [exact Ha|].
      rewrite length_app, length_replicate.
      split; [lia|]. split; [lia|]. split; [reflexivity|].
      cbn [len cap jobs]. unfold realloc_jobs.
      rewrite firstn_all2 by lia.
      replace (len r + 4 - length (jobs r)) with 4 by lia.
      rewrite length_app, length_replicate.
      replace (len r <? length (jobs r) + 4) with true
        by (symmetry; apply Nat.ltb_lt; lia).
      repeat f_equal. lia.
    + apply Nat.leb_gt in Hfull.
      exists a, []. eexists. split; [exact Ha|].
      rewrite app_nil_r.
      split; [lia|]. split; [lia|]. split; [reflexivity|].
      replace (len r <? length (jobs r)) with true
        by (symmetry; apply Nat.ltb_lt; lia).
      repeat f_equal. lia.
  - exists a, (replicate 4 None). eexists. split; [exact Ha|].
    cbn [app length replicate].
    split; [lia|]. split; [lia|]. split; reflexivity.
Qed.

Lemma live_slot m r k j :
  child_jobs m = Some r -> slot r k j -> slots m !! k = Some (Some j).
Proof. unfold slots, slot. intros ->. auto. Qed.

Lemma add_job_effect p n m :
  wf_memory m ->
  exists m1 r1 a,
    add_job p n m = Ok m1 /\
    child_jobs m1 = Some r1 /\
    len r1 = live m + 1 /\
    len r1 <= cap r1 /\ cap r1 = length (jobs r1) /\
    strings m !! a = None /\
    strings m1 = <[a := n]> (strings m) /\
    slot r1 (live m) {| pid := p; name := a |} /\
    (forall k, k < live m -> jobs r1 !! k = slots m !! k).
Proof.
  intros Hwf.
  destruct (add_job_spec p n m Hwf) as (a & extra & r1 & Ha & Hlt & Hle & Hr1 & Hadd).
  eexists _, r1, a. split; [exact Hadd|]. cbn [child_jobs strings].
  split; [reflexivity|]. subst r1. cbn [len cap jobs].
  rewrite length_insert.
  split; [reflexivity|]. split; [lia|]. split; [reflexivity|].
  split; [exact Ha|]. split; [reflexivity|]. split.
  - unfold slot. cbn [jobs]. apply list_lookup_insert_eq. exact Hlt.
  - intros k Hk. rewrite list_lookup_insert_ne by lia.
    apply lookup_app_l. lia.
Qed.

Lemma slots_some m r : child_jobs m = Some r -> slots m = jobs r.
Proof. unfold slots. intros ->. reflexivity. Qed.

Lemma live_some m r : child_jobs m = Some r -> live m = len r.
Proof. unfold live. intros ->. reflexivity. Qed.

Lemma add_job_wf p n m m1 :
  wf_memory m -> add_job p n m = Ok m1 -> wf_memory m1.
Proof.
  intros Hwf Hadd.
  destruct (add_job_effect p n m Hwf)
    as (m1' & r1 & a & Hadd' & Hc1 & Hlen & Hle & Hcap & Ha & Hstr & Hnew & Hold).
  rewrite Hadd in Hadd'. injection Hadd' as <-.
  unfold wf_memory. rewrite Hc1. split; [exact Hle|]. split; [exact Hcap|].
  intros k Hk. destruct (decide (k = live m)) as [->|Hne].
  - eexists. split; [exact Hnew|]. rewrite Hstr. cbn [name].
    rewrite lookup_insert_eq. eauto.
  - assert (Hk' : k < live m) by lia.
    unfold wf_memory in Hwf. unfold live in Hk', Hold. unfold slots in Hold.
    destruct (child_jobs m) as [r|]; [|lia].
    destruct Hwf as (_ & _ & Hlive). destruct (Hlive k Hk') as (j & Hj & Hn).
    exists j. split; [unfold slot; rewrite Hold by exact Hk'; exact Hj|].
    rewrite Hstr. apply lookup_insert_is_Some'. right. exact Hn.
Qed.

(** A job that [find] returned before [add_job] is returned afterwards,
    with the same name. *)
Lemma add_job_keeps p n m m1 q nm :
  wf_memory m -> add_job p n m = Ok m1 ->
  registered m q nm -> registered m1 q nm.
Proof.
  intros Hwf Hadd (i & Hfind & Hname).
  destruct (add_job_effect p n m Hwf)
    as (m1' & r1 & a & Hadd' & Hc1 & Hlen & Hle & Hcap & Ha & Hstr & Hnew & Hold).
  rewrite Hadd in Hadd'. injection Hadd' as <-.
  unfold find_job_by_pid in Hfind. unfold job_name in Hname.
  destruct (child_jobs m) as [r|] eqn:Hc; [|discriminate].
  destruct (0 <? len r) eqn:Hpos; [|discriminate].
  destruct (find_loop_sound q r (len r) 0 i Hfind) as (Hi & (j & Hj & Hpj) & Ho).
  rewrite (read_slot_ok r i j Hj) in Hname. cbn [res_bind] in Hname.
  destruct (strings m !! name j) as [nm'|] eqn:Hnm; [|discriminate].
  injection Hname as ->.
  rewrite (live_some m r Hc) in *. rewrite (slots_some m r Hc) in Hold.
  assert (Hj1 : slot r1 i j) by (unfold slot; rewrite Hold by lia; exact Hj).
  exists i. split.
  - unfold find_job_by_pid. rewrite Hc1, Hlen.
    replace (0 <? len r + 1) with true by (symmetry; apply Nat.ltb_lt; lia).
    replace (len r + 1) with (i + S (len r - i)) by lia.
    rewrite (find_loop_skip q r1 i).
    + apply (find_loop_hit q r1 i j); assumption.
    + intros k Hk. destruct (Ho k) as (jk & Hjk & Hpk); [lia|].
      exists jk. split; [unfold slot; rewrite Hold by lia; exact Hjk|exact Hpk].
  - unfold job_name. rewrite Hc1, (read_slot_ok r1 i j Hj1). cbn [res_bind].
    rewrite Hstr, lookup_insert_ne by congruence. rewrite Hnm. reflexivity.
Qed.

Lemma absent_others p m r :
  child_jobs m = Some r -> registry_wf (strings m) r -> absent p m ->
  others p r 0 (len r).
Proof.
  intros Hc (_ & _ & Hlive) Habs k Hk. unfold absent in Habs. rewrite Hc in Habs.
  destruct (Hlive k) as (j & Hj & _); [lia|].
  exists j. split; [exact Hj|]. apply (Habs k j); [lia|exact Hj].
Qed.

(** After [add_job(p, n)] on a registry without [p], [find(p)] returns the
    new job, and [remove(p)] takes it out again. *)
Lemma add_job_new p n m m1 :
  wf_memory m -> absent p m -> add_job p n m = Ok m1 ->
  registered m1 p n /\
  exists m2, free_job_by_pid p m1 = Ok m2 /\ find_job_by_pid p m2 = Ok None /\
             live m2 = live m.
Proof.
  intros Hwf Habs Hadd.
  pose proof (add_job_wf p n m m1 Hwf Hadd) as Hwf1.
  destruct (add_job_effect p n m Hwf)
    as (m1' & r1 & a & Hadd' & Hc1 & Hlen & Hle & Hcap & Ha & Hstr & Hnew & Hold).
  rewrite Hadd in Hadd'. injection Hadd' as <-.
  assert (Ho : others p r1 0 (live m)).
  { intros k Hk. unfold live in Hk, Hold. unfold slots in Hold.
    destruct (child_jobs m) as [r|] eqn:Hc; [|lia].
    assert (Hwfr : registry_wf (strings m) r)
      by (unfold wf_memory in Hwf; rewrite Hc in Hwf; exact Hwf).
    destruct (absent_others p m r Hc Hwfr Habs k Hk) as (jk & Hjk & Hpk).
    exists jk. split; [unfold slot; rewrite Hold by lia; exact Hjk|exact Hpk]. }
  split.
  - exists (live m). split.
    + unfold find_job_by_pid. rewrite Hc1, Hlen.
      replace (0 <? live m + 1) with true by (symmetry; apply Nat.ltb_lt; lia).
      rewrite (find_loop_skip p r1 (live m) 1 0 Ho).
      apply (find_loop_hit p r1 _ _ 0 Hnew). reflexivity.
    + unfold job_name. rewrite Hc1, (read_slot_ok r1 _ _ Hnew). cbn [res_bind name].
      rewrite Hstr, lookup_insert_eq. reflexivity.
  - assert (Honly : forall k jk, k < len r1 -> slot r1 k jk -> pid jk = p -> k = live m).
    { intros k jk Hk Hjk Hpk. destruct (decide (k = live m)) as [->|Hne]; [reflexivity|].
      destruct (Ho k) as (jk' & Hjk' & Hpk'); [lia|].
      rewrite (slot_fun r1 k jk jk' Hjk Hjk') in Hpk. contradiction. }
    unfold wf_memory in Hwf1. rewrite Hc1 in Hwf1.
    destruct (free_present p m1 r1 (live m) _ Hc1 Hwf1 Honly ltac:(lia) Hnew eq_refl)
      as (last & Hlast & Hfree).
    eexists. split; [exact Hfree|].
    unfold find_job_by_pid, live at 3. cbn [child_jobs len].
    rewrite Hlen. replace (live m + 1 - 1) with (live m) by lia.
    split; [|reflexivity].
    destruct (0 <? live m); [|reflexivity].
    pose proof (find_loop_skip p
      {| len := live m; cap := cap r1; jobs := <[live m := last]> (jobs r1) |}
      (live m) 0 0) as Hskip.
    rewrite Nat.add_0_r in Hskip. rewrite Hskip; [reflexivity|].
    intros k Hk. destruct (Ho k Hk) as (jk & Hjk & Hpk).
    exists jk. split; [|exact Hpk].
    unfold slot. cbn [jobs]. rewrite list_lookup_insert_ne by lia. exact Hjk.
Qed.

Lemma add_job_total p n m :
  wf_memory m ->
  exists m1, add_job p n m = Ok m1 /\ wf_memory m1 /\ live m1 = live m + 1.
Proof.
  intros Hwf.
  destruct (add_job_effect p n m Hwf) as (m1 & r1 & a & Hadd & Hc1 & Hlen & _).
  exists m1. split; [exact Hadd|]. split; [exact (add_job_wf p n m m1 Hwf Hadd)|].
  rewrite (live_some m1 r1 Hc1). exact Hlen.
Qed.

(** Any number of further insertions, whatever the capacity, keeps the
    jobs that were there. *)
Lemma add_jobs_keep more : forall m,
  wf_memory m ->
  exists m',
    add_jobs more m = Ok m' /\ wf_memory m' /\
    live m' = live m + length more /\
    forall q nm, registered m q nm -> registered m' q nm.
Proof.
  induction more as [|[p n] more IH]; intros m Hwf.
  - exists m. cbn [add_jobs length]. rewrite Nat.add_0_r. auto.
  - destruct (add_job_total p n m Hwf) as (m1 & Hadd & Hwf1 & Hlive1).
    destruct (IH m1 Hwf1) as (m' & Hadds & Hwf' & Hlive' & Hkeep).
    exists m'. cbn [add_jobs length]. rewrite Hadd. cbn [res_bind].
    split; [exact Hadds|]. split; [exact Hwf'|]. split; [lia|].
    intros q nm Hq. apply Hkeep. exact (add_job_keeps p n m m1 q nm Hwf Hadd Hq).
Qed.

(** C4. In every registry state, for a pid [p] that no live job has:
    after [add_job(p, n)], [find_job_by_pid(p)] returns a job whose name is
    [n]; after [free_job_by_pid(p)], it returns no job; and whatever is
    added afterwards, also past the capacity, every job that could be found
    before is still found with its name. *)
Theorem registry_round_trip m p n :
  wf_memory m ->
  absent p m ->
  exists m1,
    add_job p n m = Ok m1 /\
    registered m1 p n /\
    (exists m2, free_job_by_pid p m1 = Ok m2 /\ find_job_by_pid p m2 = Ok None) /\
    (forall more, exists m',
        add_jobs more m1 = Ok m' /\
        live m' = live m + 1 + length more /\
        forall q nm, registered m q nm \/ (q = p /\ nm = n) -> registered m' q nm).
Proof.
  intros Hwf Habs.
  destruct (add_job_total p n m Hwf) as (m1 & Hadd & Hwf1 & Hlive1).
  destruct (add_job_new p n m m1 Hwf Habs Hadd) as (Hreg & m2 & Hfree & Hfind & _).
  exists m1. split; [exact Hadd|]. split; [exact Hreg|].
  split; [exists m2; split; assumption|].
  intros more.
  destruct (add_jobs_keep more m1 Hwf1) as (m' & Hadds & _ & Hlive' & Hkeep).
  exists m'. split; [exact Hadds|]. split; [lia|].
  intros q nm [Hq|[-> ->]]; apply Hkeep; [|exact Hreg].
  exact (add_job_keeps p n m m1 q nm Hwf Hadd Hq).
Qed.

Lemma registry_round_trip_witness :
  exists m1,
    add_job 100 (bytes "sleep") no_jobs = Ok m1 /\
    registered m1 100 (bytes "sleep") /\
    (exists m2, free_job_by_pid 100 m1 = Ok m2 /\ find_job_by_pid 100 m2 = Ok None) /\
    (forall more, exists m',
        add_jobs more m1 = Ok m' /\
        live m' = live no_jobs + 1 + length more /\
        forall q nm,
          registered no_jobs q nm \/ (q = 100%Z /\ nm = bytes "sleep") ->
          registered m' q nm).
Proof.
  apply (registry_round_trip no_jobs 100 (bytes "sleep")); exact I.
Defined.

Lemma free_job_by_pid_spec_witness :
  let r := {| len := 2; cap := 4;
              jobs := [Some {| pid := 7; name := 1 |};
                       Some {| pid := 9; name := 2 |}; None; None] |} in
  let m := {| strings := <[1%positive := bytes "a"]> (<[2%positive := bytes "b"]> ∅);
              child_jobs := Some r |} in
  (forall i j, i < len r -> slot r i j -> pid j = 7%Z ->
     exists last m',
       jobs r !! (len r - 1) = Some last /\
       free_job_by_pid 7 m = Ok m' /\
       strings m' = delete (name j) (strings m) /\
       strings m' !! name j = None /\
       child_jobs m' = Some {| len := len r - 1; cap := cap r;
                               jobs := <[i := last]> (jobs r) |}) /\
  (absent 7 m -> free_job_by_pid 7 m = Ok m).
Proof.
  intros r m. apply (free_job_by_pid_spec m r 7).
  - reflexivity.
  - split; [simpl; lia|]. split; [reflexivity|].
    intros k Hk. simpl in Hk.
    destruct k as [|[|k]]; [| |lia]; eexists; (split; [reflexivity|]);
      vm_compute; eauto.
  - intros k1 k2 j1 j2 H1 H2 Hs1 Hs2 Hp. simpl in H1, H2. unfold slot in Hs1, Hs2.
    destruct k1 as [|[|k1]]; destruct k2 as [|[|k2]]; try lia;
      simpl in Hs1, Hs2; injection Hs1 as <-; injection Hs2 as <-; discriminate Hp.
Defined.

(** ** The registry invariant *)

Lemma registry_ok_wf m : registry_ok m -> wf_memory m.
Proof.
  unfold registry_ok, wf_memory. destruct (child_jobs m); [tauto|auto].
Qed.

Lemma registry_ok_no_jobs : registry_ok no_jobs.
Proof. exact I. Qed.

(** On a registry state [find_job_by_pid] never faults: it returns nothing
    when no live job has the pid, and the slot of such a job otherwise. *)
Lemma find_loop_total p r h : registry_wf h r ->
  forall fuel i, i + fuel = len r ->
    (find_loop p r fuel i = Ok None /\ others p r i fuel) \/
    (exists k, find_loop p r fuel i = Ok (Some k)).
Proof.
  intros (_ & _ & Hlive). induction fuel as [|fuel IH]; intros i Hi.
  - left. split; [reflexivity|]. intros k Hk. lia.
  - destruct (Hlive i) as (j & Hj & _); [lia|].
    cbn [find_loop]. rewrite (read_slot_ok r i j Hj). cbn [res_bind].
    destruct (Z.eqb (pid j) p) eqn:Hp; [right; eauto|].
    destruct (IH (S i)) as [(Hn & Ho)|Hs]; [lia| |right; exact Hs].
    left. split; [exact Hn|].
    intros k Hk. destruct (decide (k = i)) as [->|Hne].
    + exists j. split; [exact Hj|apply Z.eqb_neq, Hp].
    + apply Ho. lia.
Qed.

Lemma find_total p m :
  wf_memory m ->
  (find_job_by_pid p m = Ok None /\ absent p m) \/
  (exists r i j, child_jobs m = Some r /\ find_job_by_pid p m = Ok (Some i) /\
                 i < len r /\ slot r i j /\ pid j = p).
Proof.
  unfold wf_memory, find_job_by_pid, absent.
  destruct (child_jobs m) as [r|] eqn:Hc; [|left; auto].
  intros Hwf. destruct (0 <? len r) eqn:Hpos.
  - destruct (find_loop_total p r _ Hwf (len r) 0 eq_refl) as [(Hn & Ho)|(k & Hk)].
    + left. split; [exact Hn|]. intros k j Hk Hj.
      destruct (Ho k) as (j' & Hj' & Hp); [lia|].
      rewrite (slot_fun r k j j' Hj Hj'). exact Hp.
    + right. destruct (find_loop_sound p r _ _ _ Hk) as (Hlt & (j & Hj & Hp) & _).
      exists r, k, j. repeat split; try assumption. lia.
  - left. split; [reflexivity|]. apply Nat.ltb_ge in Hpos. intros k j Hk. lia.
Qed.

(** The slots of a registry from which slot [i] was removed come from the
    other slots of the old registry, different slots from different ones. *)
Lemma removed_slot r i last k jk :
  jobs r !! (len r - 1) = Some last -> i < len r -> k < len r - 1 ->
  slot {| len := len r - 1; cap := cap r; jobs := <[i := last]> (jobs r) |} k jk ->
  slot r (if decide (k = i) then len r - 1 else k) jk.
Proof.
  intros Hlast Hi Hk. unfold slot. cbn [jobs].
  destruct (decide (k = i)) as [->|Hne].
  - intros H. pose proof (lookup_lt_Some _ _ _ Hlast) as Hlt.
    rewrite list_lookup_insert_eq in H by lia.
    injection H as <-. exact Hlast.
  - rewrite list_lookup_insert_ne by congruence. auto.
Qed.

Lemma free_job_ok p m :
  registry_ok m ->
  exists m', free_job_by_pid p m = Ok m' /\ registry_ok m' /\ absent p m' /\
             live m' <= live m.
Proof.
  intros Hok. pose proof (registry_ok_wf m Hok) as Hwf.
  destruct (find_total p m Hwf) as [(_ & Habs)|(r & i & j & Hc & _ & Hi & Hj & Hp)].
  - exists m. split; [apply free_absent; assumption|]. auto.
  - unfold registry_ok in Hok. rewrite Hc in Hok.
    destruct Hok as (Hwfr & Huniq & Hnames).
    assert (Honly : forall k jk, k < len r -> slot r k jk -> pid jk = p -> k = i).
    { intros k jk Hk Hjk Hpk. apply (Huniq k i jk j); try assumption. congruence. }
    destruct (free_present p m r i j Hc Hwfr Honly Hi Hj Hp) as (last & Hlast & Hfree).
    eexists. split; [exact Hfree|].
    set (r' := {| len := len r - 1; cap := cap r; jobs := <[i := last]> (jobs r) |}).
    destruct Hwfr as (Hle & Hcap & Hlive).
    assert (Hold : forall k jk, k < len r' -> slot r' k jk ->
              exists k', k' < len r /\ k' <> i /\ slot r k' jk /\
                         k' = if decide (k = i) then len r - 1 else k).
    { intros k jk Hk Hjk. unfold r' in Hk, Hjk. cbn [len] in Hk.
      pose proof (removed_slot r i last k jk Hlast Hi Hk Hjk) as Hs.
      eexists. split; [|split; [|split; [exact Hs|reflexivity]]];
        destruct (decide (k = i)); lia. }
    unfold registry_ok, absent, live. cbn [child_jobs strings]. rewrite Hc.
    fold r'. split; [split; [|split]|split].
    + (* registry_wf *)
      unfold registry_wf, r'. cbn [len cap jobs].
      split; [lia|]. split; [rewrite length_insert; exact Hcap|].
      intros k Hk.
      destruct (Hlive (if decide (k = i) then len r - 1 else k)) as (jk & Hjk & Hn);
        [destruct (decide (k = i)); lia|].
      exists jk. split.
      * unfold slot. cbn [jobs]. destruct (decide (k = i)) as [->|Hne].
        -- rewrite list_lookup_insert_eq by lia.
           unfold slot in Hjk. congruence.
        -- rewrite list_lookup_insert_ne by congruence. exact Hjk.
      * rewrite lookup_delete_ne; [exact Hn|].
        intros Heq.
        assert (i = if decide (k = i) then len r - 1 else k)
          by (apply (Hnames _ _ j jk); try assumption; destruct (decide (k = i)); lia).
        destruct (decide (k = i)); lia.
    + (* unique pids *)
      intros k1 k2 j1 j2 H1 H2 Hs1 Hs2 Hpid.
      destruct (Hold k1 j1 H1 Hs1) as (k1' & Hk1' & _ & Hs1' & He1).
      destruct (Hold k2 j2 H2 Hs2) as (k2' & Hk2' & _ & Hs2' & He2).
      pose proof (Huniq k1' k2' j1 j2 Hk1' Hk2' Hs1' Hs2' Hpid) as Heq.
      unfold r' in H1, H2. cbn [len] in H1, H2.
      destruct (decide (k1 = i)); destruct (decide (k2 = i)); lia.
    + (* distinct names *)
      intros k1 k2 j1 j2 H1 H2 Hs1 Hs2 Hnm.
      destruct (Hold k1 j1 H1 Hs1) as (k1' & Hk1' & _ & Hs1' & He1).
      destruct (Hold k2 j2 H2 Hs2) as (k2' & Hk2' & _ & Hs2' & He2).
      pose proof (Hnames k1' k2' j1 j2 Hk1' Hk2' Hs1' Hs2' Hnm) as Heq.
      unfold r' in H1, H2. cbn [len] in H1, H2.
      destruct (decide (k1 = i)); destruct (decide (k2 = i)); lia.
    + (* the pid is gone *)
      intros k jk Hk Hjk Hpk.
      destruct (Hold k jk Hk Hjk) as (k' & Hk' & Hne & Hs' & _).
      apply Hne. exact (Honly k' jk Hk' Hs' Hpk).
    + unfold r'. cbn [len]. lia.
Qed.

Lemma add_job_ok p n m m1 :
  registry_ok m -> absent p m -> add_job p n m = Ok m1 -> registry_ok m1.
Proof.
  intros Hok Habs Hadd. pose proof (registry_ok_wf m Hok) as Hwf.
  pose proof (add_job_wf p n m m1 Hwf Hadd) as Hwf1.
  destruct (add_job_effect p n m Hwf)
    as (m1' & r1 & a & Hadd' & Hc1 & Hlen & Hle & Hcap & Ha & Hstr & Hnew & Hold).
  rewrite Hadd in Hadd'. injection Hadd' as <-.
  unfold registry_ok. unfold wf_memory in Hwf1. rewrite Hc1 in *.
  split; [exact Hwf1|].
  (* what is known about an old slot *)
  assert (Hprev : forall k jk, k < live m -> slot r1 k jk ->
            pid jk <> p /\ name jk <> a /\
            exists r, child_jobs m = Some r /\ k < len r /\ slot r k jk).
  { intros k jk Hk Hjk. unfold slot in Hjk. rewrite Hold in Hjk by exact Hk.
    unfold live in Hk. unfold slots in Hjk. unfold absent in Habs.
    unfold wf_memory in Hwf.
    destruct (child_jobs m) as [r|] eqn:Hc; [|lia].
    destruct Hwf as (_ & _ & Hlive). destruct (Hlive k Hk) as (j' & Hj' & Hn).
    rewrite (slot_fun r k j' jk Hj' Hjk) in Hn.
    split; [exact (Habs k jk Hk Hjk)|]. split; [|eauto].
    intros Heq. rewrite Heq, Ha in Hn. destruct Hn as [? Hn]. discriminate Hn. }
  split.
  - intros k1 k2 j1 j2 H1 H2 Hs1 Hs2 Hpid. rewrite Hlen in H1, H2.
    destruct (decide (k1 = live m)) as [->|Hn1];
      destruct (decide (k2 = live m)) as [->|Hn2]; [reflexivity| | |].
    + rewrite (slot_fun r1 _ _ _ Hs1 Hnew) in Hpid. cbn [pid] in Hpid.
      destruct (Hprev k2 j2 ltac:(lia) Hs2) as (Hp & _). congruence.
    + rewrite (slot_fun r1 _ _ _ Hs2 Hnew) in Hpid. cbn [pid] in Hpid.
      destruct (Hprev k1 j1 ltac:(lia) Hs1) as (Hp & _). congruence.
    + destruct (Hprev k1 j1 ltac:(lia) Hs1) as (_ & _ & r & Hc & Hk1 & Hr1).
      destruct (Hprev k2 j2 ltac:(lia) Hs2) as (_ & _ & r' & Hc' & Hk2 & Hr2).
      rewrite Hc in Hc'. injection Hc' as <-.
      unfold registry_ok in Hok. rewrite Hc in Hok. destruct Hok as (_ & Huniq & _).
      exact (Huniq k1 k2 j1 j2 Hk1 Hk2 Hr1 Hr2 Hpid).
  - intros k1 k2 j1 j2 H1 H2 Hs1 Hs2 Hnm. rewrite Hlen in H1, H2.
    destruct (decide (k1 = live m)) as [->|Hn1];
      destruct (decide (k2 = live m)) as [->|Hn2]; [reflexivity| | |].
    + rewrite (slot_fun r1 _ _ _ Hs1 Hnew) in Hnm. cbn [name] in Hnm.
      destruct (Hprev k2 j2 ltac:(lia) Hs2) as (_ & Hp & _). congruence.
    + rewrite (slot_fun r1 _ _ _ Hs2 Hnew) in Hnm. cbn [name] in Hnm.
      destruct (Hprev k1 j1 ltac:(lia) Hs1) as (_ & Hp & _). congruence.
    + destruct (Hprev k1 j1 ltac:(lia) Hs1) as (_ & _ & r & Hc & Hk1 & Hr1).
      destruct (Hprev k2 j2 ltac:(lia) Hs2) as (_ & _ & r' & Hc' & Hk2 & Hr2).
      rewrite Hc in Hc'. injection Hc' as <-.
      unfold registry_ok in Hok. rewrite Hc in Hok. destruct Hok as (_ & _ & Hnames).
      exact (Hnames k1 k2 j1 j2 Hk1 Hk2 Hr1 Hr2 Hnm).
Qed.

(** On a registry state that satisfies the invariant, [free_jobs] frees
    every name once. *)
Lemma free_names_ok r : distinct_names r ->
  forall fuel i h, i + fuel = len r ->
    (forall k, i <= k < len r -> exists j, slot r k j /\ is_Some (h !! name j)) ->
    exists h', free_names r fuel i h = Ok h'.
Proof.
  intros Hnames. induction fuel as [|fuel IH]; intros i h Hi Hlive.
  - eexists. reflexivity.
  - destruct (Hlive i) as (j & Hj & [n Hn]); [lia|].
    cbn [free_names]. rewrite (read_slot_ok r i j Hj). cbn [res_bind]. rewrite Hn.
    apply IH; [lia|].
    intros k Hk. destruct (Hlive k) as (jk & Hjk & Hnk); [lia|].
    exists jk. split; [exact Hjk|].
    rewrite lookup_delete_ne; [exact Hnk|].
    intros Heq. assert (i = k) by (apply (Hnames i k j jk); try assumption; lia). lia.
Qed.

Lemma free_jobs_ok m : registry_ok m -> exists m', free_jobs m = Ok m'.
Proof.
  unfold registry_ok, free_jobs.
  destruct (child_jobs m) as [r|]; [|eauto].
  intros ((_ & _ & Hlive) & _ & Hnames).
  destruct (0 <? len r); [|eexists; reflexivity].
  destruct (free_names_ok r Hnames (len r) 0 (strings m) eq_refl) as (h' & Hh').
  - intros k Hk. apply Hlive. lia.
  - rewrite Hh'. eexists. reflexivity.
Qed.

Lemma job_name_ok m r i j :
  child_jobs m = Some r -> registry_wf (strings m) r -> i < len r -> slot r i j ->
  exists n, strings m !! name j = Some n /\ job_name m i = Ok n.
Proof.
  intros Hc (_ & _ & Hlive) Hi Hj.
  destruct (Hlive i Hi) as (j' & Hj' & [n Hn]).
  rewrite (slot_fun r i j' j Hj' Hj) in Hn.
  exists n. split; [exact Hn|].
  unfold job_name. rewrite Hc, (read_slot_ok r i j Hj). cbn [res_bind].
  rewrite Hn. reflexivity.
Qed.

(** The sweep keeps the invariant and never faults on such a registry. *)
Lemma sweep_ok H ans : forall m,
  registry_ok m ->
  exists m', snd (sweep H ans m) = Ok m' /\ registry_ok m' /\ live m' <= live m.
Proof.
  induction ans as [|[child st] rest IH]; intros m Hok; cbn [sweep].
  - exists m. auto.
  - destruct (0 <? child)%Z; [|exists m; auto].
    pose proof (registry_ok_wf m Hok) as Hwf.
    destruct (find_total child m Hwf)
      as [(Hfind & _)|(r & i & j & Hc & Hfind & Hi & Hj & Hp)]; rewrite Hfind.
    + destruct (IH m Hok) as (m' & Hs & Hok' & Hl).
      destruct (sweep H rest m) as [ev x]. exists m'. auto.
    + unfold wf_memory in Hwf. rewrite Hc in Hwf.
      destruct (job_name_ok m r i j Hc Hwf Hi Hj) as (n & _ & Hn). rewrite Hn.
      destruct (free_job_ok child m Hok) as (m1 & Hfree & Hok1 & _ & Hl1).
      rewrite Hfree.
      destruct (IH m1 Hok1) as (m' & Hs & Hok' & Hl).
      destruct (sweep H rest m1) as [ev x]. exists m'.
      split; [exact Hs|]. split; [exact Hok'|lia].
Qed.

Lemma find_absent p m : wf_memory m -> absent p m -> find_job_by_pid p m = Ok None.
Proof.
  intros Hwf Habs.
  destruct (find_total p m Hwf) as [(Hf & _)|(r & i & j & Hc & _ & Hi & Hj & Hp)];
    [exact Hf|].
  unfold absent in Habs. rewrite Hc in Habs. destruct (Habs i j Hi Hj Hp).
Qed.

Lemma registered_slot m p n :
  registered m p n ->
  exists r i j, child_jobs m = Some r /\ find_job_by_pid p m = Ok (Some i) /\
                job_name m i = Ok n /\ i < len r /\ slot r i j /\ pid j = p.
Proof.
  intros (i & Hfind & Hname).
  pose proof Hfind as Hfind'. unfold find_job_by_pid in Hfind'.
  destruct (child_jobs m) as [r|] eqn:Hc; [|discriminate].
  destruct (0 <? len r); [|discriminate].
  destruct (find_loop_sound p r _ _ _ Hfind') as (Hi & (j & Hj & Hp) & _).
  exists r, i, j. repeat split; try assumption. lia.
Qed.

(** Every [waitpid] of the sweep waits for any child with [WNOHANG]. *)
Lemma sweep_polls H ans m : Forall (polls H) (fst (sweep H ans m)).
Proof.
  apply sweep_events.
  - intros p o [= <- <-]. auto.
  - intros p n o c p' o' Heq. discriminate Heq.
Qed.

(** ** The program name of a Command *)

Lemma store_arg_inv c k p c' :
  store_arg c k p = Ok c' ->
  cmd c' = cmd c /\ argv c' = <[k := p]> (argv c) /\ k < length (argv c).
Proof.
  unfold store_arg. destruct (k <? length (argv c)) eqn:Hk; [|discriminate].
  intros [= <-]. apply Nat.ltb_lt in Hk. auto.
Qed.

Lemma store_token_named k c tok c2 :
  store_arg (if k =? 0 then {| cmd := Str tok; argv := argv c |} else c) k (Str tok)
    = Ok c2 ->
  named k c -> named (k + 1) c2.
Proof.
  intros Hst Hn. right.
  apply store_arg_inv in Hst as (Hcmd & Hargv & Hlt).
  destruct k as [|k]; cbn [Nat.eqb] in *.
  - exists tok. cbn [cmd argv] in *. split; [exact Hcmd|].
    rewrite Hargv. apply list_lookup_insert_eq. exact Hlt.
  - destruct Hn as [Hn|(n & Hc & Ha)]; [discriminate|].
    exists n. rewrite Hcmd, Hargv. split; [exact Hc|].
    rewrite list_lookup_insert_ne by lia. exact Ha.
Qed.

Lemma copy_rest_named rest : forall pending k c k' c',
  copy_rest pending rest k c = Ok (k', c') ->
  k <= k' /\ (named k c -> named k' c').
Proof.
  induction rest as [|ch r IH]; intros pending k c k' c' H; cbn [copy_rest] in H.
  - injection H as <- <-. auto.
  - destruct (isspace ch && negb (isspace (hd NUL r))); [exact (IH _ _ _ _ _ H)|].
    destruct (negb (isspace ch) && (isspace (hd NUL r) || Ascii.eqb (hd NUL r) NUL));
      [|exact (IH _ _ _ _ _ H)].
    destruct (store_arg _ k _) as [c2|f] eqn:Hst; [|discriminate].
    cbn [res_bind] in H. destruct (IH _ _ _ _ _ H) as (Hle & Hn).
    split; [lia|]. intros Hk. apply Hn. exact (store_token_named k c _ c2 Hst Hk).
Qed.

(** A token counted by the first loop is stored by the second. *)
Lemma copy_rest_counts rest : forall n n' b pending k c k' c',
  count_rest rest n = ScanDone n' b -> n < n' ->
  copy_rest pending rest k c = Ok (k', c') -> k < k'.
Proof.
  induction rest as [|ch r IH]; intros n n' b pending k c k' c' Hc Hn H;
    cbn [count_rest copy_rest] in *.
  - injection Hc as <- _. lia.
  - destruct (negb (isprint ch) && negb (isspace ch)); [discriminate|].
    destruct (Ascii.eqb ch AMP); [injection Hc as <- _; lia|].
    destruct (isspace ch) eqn:Hs; cbn [negb andb] in *.
    + rewrite andb_false_r in Hc.
      destruct (negb (isspace (hd NUL r))); exact (IH _ _ _ _ _ _ _ _ Hc Hn H).
    + rewrite andb_true_r in Hc.
      destruct (isspace (hd NUL r) || Ascii.eqb (hd NUL r) NUL).
      * destruct (store_arg _ k _) as [c2|f]; [|discriminate].
        cbn [res_bind] in H. apply copy_rest_named in H. lia.
      * exact (IH _ _ _ _ _ _ _ _ Hc Hn H).
Qed.

(** A Command that [gen_command] produces comes with FOREGROUND or
    BACKGROUND, and its [cmd] and [argv[0]] are the same string. *)
Lemma gen_command_named line t c :
  gen_command line = Ok (t, Some c) ->
  (t = FOREGROUND \/ t = BACKGROUND) /\
  exists n, cmd c = Str n /\ argv c !! 0 = Some (Str n).
Proof.
  rewrite gen_command_rest.
  destruct (count_rest line 0) as [|num b] eqn:Hcount; [discriminate|].
  destruct (num =? 0) eqn:Hnum; [discriminate|]. apply Nat.eqb_neq in Hnum.
  destruct (copy_rest [] line 0 _) as [[k' c']|f] eqn:Hcopy; [|discriminate].
  cbn [res_bind snd].
  destruct (store_arg c' num NULL) as [c1|f] eqn:Hst; [|discriminate].
  cbn [res_bind]. intros [= <- <-].
  split; [destruct b; auto|].
  assert (Hk : 0 < k') by (eapply copy_rest_counts; [exact Hcount|lia|exact Hcopy]).
  destruct (copy_rest_named _ _ _ _ _ _ Hcopy) as (_ & Hn).
  destruct (Hn (or_introl eq_refl)) as [Hz|(n & Hc & Ha)]; [lia|].
  apply store_arg_inv in Hst as (Hcmd & Hargv & _).
  exists n. rewrite Hcmd, Hargv. split; [exact Hc|].
  rewrite list_lookup_insert_ne by lia. exact Ha.
Qed.

(** ** The parser on lines without a marker *)

Lemma count_rest_plain l : forall n,
  Forall (fun x => accepted x = true) l ->
  Forall (fun x => x <> AMP) l ->
  count_rest l n = ScanDone (n + length (tokens l)) false.
Proof.
  induction l as [|c r IH]; intros n Hacc Hamp.
  - simpl. rewrite Nat.add_0_r. reflexivity.
  - inversion Hacc as [|? ? Hc Hacc']; subst.
    inversion Hamp as [|? ? Hca Hamp']; subst.
    cbn [count_rest].
    rewrite (accepted_pass c Hc), (proj2 (Ascii.eqb_neq c AMP) Hca).
    destruct r as [|d r'].
    + cbn [hd tokens count_rest].
      replace (isspace NUL || Ascii.eqb NUL NUL) with true by reflexivity.
      destruct (isspace c); cbn [negb andb count_rest length]; f_equal; lia.
    + inversion Hacc' as [|? ? Hd _]; subst.
      cbn [hd]. rewrite (eqb_nul_false d (accepted_not_nul d Hd)), orb_false_r.
      cbn [tokens].
      destruct (isspace c) eqn:Hsc.
      * cbn [negb]. rewrite andb_false_r. apply IH; assumption.
      * cbn [negb]. rewrite andb_true_r.
        destruct (isspace d) eqn:Hsd.
        -- rewrite IH by assumption. cbn [tokens]. rewrite Hsd.
           cbn [length]. f_equal. lia.
        -- rewrite IH by assumption.
           destruct (tokens_head d r' Hsd) as (t & ts & Ht).
           cbn [tokens] in Ht. rewrite Hsd in Ht.
           cbn [tokens]. rewrite Hsd, Ht. reflexivity.
Qed.

Lemma first_rejected l :
  forallb accepted l = false ->
  exists pre c post, l = pre ++ c :: post /\ accepted c = false.
Proof.
  induction l as [|x r IH]; [discriminate|]. cbn [forallb].
  destruct (accepted x) eqn:Hx.
  - intros H. destruct (IH H) as (pre & c & post & -> & Hc).
    exists (x :: pre), c, post. auto.
  - intros _. exists [], x, r. auto.
Qed.

Lemma Forall_app_l {A} (P : A -> Prop) (l1 l2 : list A) :
  Forall P (l1 ++ l2) -> Forall P l1.
Proof. intros H. apply Forall_app in H. tauto. Qed.

(** X1. On a line without the byte '&', [gen_command] is the plain
    parser: FAIL when some byte is neither printable nor white space,
    SPACES when the line has no token, and otherwise FOREGROUND with the
    tokens of the line, in order, followed by NULL in [argv] and the first
    token in [cmd].  In particular no store leaves the allocation. *)
Theorem gen_command_plain line :
  Forall (fun x => x <> AMP) line ->
  gen_command line = parse_plain line.
Proof.
  intros Hamp. unfold parse_plain.
  destruct (forallb accepted line) eqn:Hall.
  - assert (Hacc : Forall (fun x => accepted x = true) line).
    { apply Forall_forall. intros x Hx. rewrite forallb_forall in Hall.
      apply Hall. apply list_elem_of_In. exact Hx. }
    rewrite gen_command_rest, (count_rest_plain line 0 Hacc Hamp). cbn [Nat.add].
    destruct (tokens line) as [|t ts] eqn:Htok; [reflexivity|].
    remember (length (t :: ts)) as n eqn:En.
    replace (n =? 0) with false by (subst n; reflexivity).
    rewrite copy_rest_tokens by (constructor || apply accepted_no_nul, Hacc).
    rewrite tokens_from_nil, Htok.
    pose proof (store_tokens_fits (t :: ts) [] Uninit (n + 2)) as Hst.
    cbn [length map app Nat.eqb] in Hst. cbn [length] in En.
    rewrite Hst by lia. cbn [res_bind snd].
    replace (n + 2 - S (length ts)) with 2 by lia.
    unfold store_arg. cbn [argv cmd].
    change (Str t :: map Str ts ++ replicate 2 Uninit)
      with (map Str (t :: ts) ++ replicate 2 Uninit).
    rewrite length_app, length_map. cbn [length replicate].
    replace (n <? S (length ts) + 2) with true by (symmetry; apply Nat.ltb_lt; lia).
    rewrite insert_app_r_alt by (rewrite length_map; cbn [length]; lia).
    rewrite length_map. cbn [length]. rewrite <- En, Nat.sub_diag. reflexivity.
  - destruct (first_rejected line Hall) as (pre & c & post & -> & Hc).
    rewrite gen_command_rest.
    rewrite (count_rest_rejects pre c post 0 (Forall_app_l _ _ _ Hamp) Hc). reflexivity.
Qed.

(** ** The shape of a Command *)

Lemma store_token_filled k c tok c2 :
  store_arg (if k =? 0 then {| cmd := Str tok; argv := argv c |} else c) k (Str tok)
    = Ok c2 ->
  filled k c -> filled (k + 1) c2 /\ length (argv c2) = length (argv c).
Proof.
  intros Hst (done & r & Ha & Hk).
  apply store_arg_inv in Hst as (_ & Hargv & Hlt).
  assert (Hsame : argv (if k =? 0 then {| cmd := Str tok; argv := argv c |} else c)
                  = argv c) by (destruct (k =? 0); reflexivity).
  rewrite Hsame in Hargv, Hlt. rewrite Hargv, length_insert. split; [|reflexivity].
  rewrite Ha, length_app, length_map, length_replicate in Hlt.
  destruct r as [|r]; [lia|].
  exists (done ++ [tok]), r. split; [|rewrite length_app; simpl; lia].
  rewrite Hargv, Ha, <- Hk.
  rewrite insert_app_r_alt by (rewrite length_map; lia).
  rewrite length_map, Nat.sub_diag, map_app, <- app_assoc. reflexivity.
Qed.

Lemma copy_rest_filled rest : forall pending k c k' c',
  copy_rest pending rest k c = Ok (k', c') ->
  filled k c -> filled k' c' /\ length (argv c') = length (argv c).
Proof.
  induction rest as [|ch r IH]; intros pending k c k' c' H Hf; cbn [copy_rest] in H.
  - injection H as <- <-. auto.
  - destruct (isspace ch && negb (isspace (hd NUL r))); [exact (IH _ _ _ _ _ H Hf)|].
    destruct (negb (isspace ch) && (isspace (hd NUL r) || Ascii.eqb (hd NUL r) NUL));
      [|exact (IH _ _ _ _ _ H Hf)].
    destruct (store_arg _ k _) as [c2|f] eqn:Hst; [|discriminate].
    cbn [res_bind] in H.
    destruct (store_token_filled k c _ c2 Hst Hf) as (Hf2 & Hl2).
    destruct (IH _ _ _ _ _ H Hf2) as (Hf' & Hl'). split; [exact Hf'|congruence].
Qed.

(** The second loop stores at least the tokens that the first loop counted. *)
Lemma copy_rest_counts_ge rest : forall n n' b pending k c k' c',
  count_rest rest n = ScanDone n' b ->
  copy_rest pending rest k c = Ok (k', c') ->
  n <= n' /\ k + (n' - n) <= k'.
Proof.
  induction rest as [|ch r IH]; intros n n' b pending k c k' c' Hc H;
    cbn [count_rest copy_rest] in *.
  - injection Hc as <- _. injection H as <- _. lia.
  - destruct (negb (isprint ch) && negb (isspace ch)); [discriminate|].
    destruct (Ascii.eqb ch AMP).
    { injection Hc as <- _.
      assert (k <= k'); [|lia].
      destruct (isspace ch && negb (isspace (hd NUL r)));
        [exact (proj1 (copy_rest_named _ _ _ _ _ _ H))|].
      destruct (negb (isspace ch) && (isspace (hd NUL r) || Ascii.eqb (hd NUL r) NUL));
        [|exact (proj1 (copy_rest_named _ _ _ _ _ _ H))].
      destruct (store_arg _ k _) as [c2|f]; [|discriminate].
      cbn [res_bind] in H. apply copy_rest_named in H. lia. }
    destruct (isspace ch) eqn:Hs; cbn [negb andb] in *.
    + rewrite andb_false_r in Hc.
      destruct (negb (isspace (hd NUL r))); exact (IH _ _ _ _ _ _ _ _ Hc H).
    + rewrite andb_true_r in Hc.
      destruct (isspace (hd NUL r) || Ascii.eqb (hd NUL r) NUL).
      * destruct (store_arg _ k _) as [c2|f]; [|discriminate].
        cbn [res_bind] in H. destruct (IH _ _ _ _ _ _ _ _ Hc H). lia.
      * exact (IH _ _ _ _ _ _ _ _ Hc H).
Qed.

(** The first loop ends with [is_background] set exactly when it met '&'. *)
Lemma count_rest_background l : forall n n' b,
  count_rest l n = ScanDone n' b -> (b = true <-> AMP ∈ l).
Proof.
  induction l as [|ch r IH]; intros n n' b H; cbn [count_rest] in H.
  - injection H as _ <-. split; [discriminate|]. intros Hin. inversion Hin.
  - destruct (negb (isprint ch) && negb (isspace ch)); [discriminate|].
    destruct (Ascii.eqb ch AMP) eqn:Hamp.
    + injection H as _ <-. apply Ascii.eqb_eq in Hamp as ->.
      split; [intros _; apply list_elem_of_here|reflexivity].
    + apply Ascii.eqb_neq in Hamp.
      assert (Hr : b = true <-> AMP ∈ r) by (destruct (_ && _); exact (IH _ _ _ H)).
      rewrite Hr. split; [apply list_elem_of_further|].
      intros Hin. apply elem_of_cons in Hin as [Heq|Hin]; [congruence|exact Hin].
Qed.

(** Every Command of [gen_command]: strings, then NULL, then one more slot. *)
Lemma gen_command_argv line t c :
  gen_command line = Ok (t, Some c) ->
  exists tok toks last,
    cmd c = Str tok /\ argv c = map Str (tok :: toks) ++ [NULL; last] /\
    (t = if bool_decide (AMP ∈ line) then BACKGROUND else FOREGROUND).
Proof.
  intros Hgen. destruct (gen_command_named line t c Hgen) as (_ & n & Hcmd & Ha0).
  rewrite gen_command_rest in Hgen.
  destruct (count_rest line 0) as [|num b] eqn:Hcount; [discriminate|].
  destruct (num =? 0) eqn:Hnum; [discriminate|]. apply Nat.eqb_neq in Hnum.
  destruct (copy_rest [] line 0 _) as [[k' c']|f] eqn:Hcopy; [|discriminate].
  cbn [res_bind snd] in Hgen.
  destruct (store_arg c' num NULL) as [c1|f] eqn:Hst; [|discriminate].
  cbn [res_bind] in Hgen. injection Hgen as <- <-.
  destruct (copy_rest_counts_ge _ _ _ _ _ _ _ _ _ Hcount Hcopy) as (_ & Hge).
  destruct (copy_rest_filled _ _ _ _ _ _ Hcopy) as ((done & r & Ha & Hk) & Hlen).
  { exists [], (num + 2). split; reflexivity. }
  cbn [argv] in Hlen. rewrite length_replicate in Hlen.
  apply store_arg_inv in Hst as (Hcmd1 & Hargv1 & _).
  (* the slots of [argv]: [num] strings, one slot for NULL, one more *)
  assert (Hsplit : exists toks x last,
            length toks = num /\ argv c' = map Str toks ++ [x; last]).
  { rewrite Ha. rewrite Ha, length_app, length_map, length_replicate in Hlen.
    exists (take num done).
    destruct (drop num done) as [|d1 [|d2 rest']] eqn:Hd.
    - (* no further string *)
      assert (length done = num)
        by (apply (f_equal length) in Hd; rewrite length_drop in Hd; simpl in Hd; lia).
      exists Uninit, Uninit. split; [apply length_take_le; lia|].
      rewrite firstn_all2 by lia. replace r with 2 by lia. reflexivity.
    - assert (length done = num + 1)
        by (apply (f_equal length) in Hd; rewrite length_drop in Hd; simpl in Hd; lia).
      exists (Str d1), Uninit. split; [apply length_take_le; lia|].
      rewrite <- (take_drop num done) at 1. rewrite Hd, map_app, <- app_assoc.
      replace r with 1 by lia. reflexivity.
    - assert (length done = num + 2 /\ rest' = []) as (Hd2 & ->).
      { apply (f_equal length) in Hd. rewrite length_drop in Hd. simpl in Hd.
        destruct rest'; simpl in Hd; [split; [lia|reflexivity]|lia]. }
      exists (Str d1), (Str d2). split; [apply length_take_le; lia|].
      rewrite <- (take_drop num done) at 1. rewrite Hd, map_app, <- app_assoc.
      replace r with 0 by lia. reflexivity. }
  destruct Hsplit as (toks & x & last & Hnumt & Hargv').
  rewrite Hargv' in Hargv1.
  rewrite insert_app_r_alt in Hargv1 by (rewrite length_map; lia).
  rewrite length_map, Hnumt, Nat.sub_diag in Hargv1. cbn [insert list_insert] in Hargv1.
  destruct toks as [|tok toks]; [simpl in Hnumt; congruence|].
  rewrite Hargv1 in Ha0. cbn in Ha0. injection Ha0 as <-.
  exists tok, toks, last. split; [exact Hcmd|]. split; [exact Hargv1|].
  destruct (count_rest_background _ _ _ _ Hcount) as (Hb1 & Hb2).
  destruct (bool_decide (AMP ∈ line)) eqn:Hdec.
  - apply bool_decide_eq_true in Hdec. rewrite (Hb2 Hdec). reflexivity.
  - apply bool_decide_eq_false in Hdec. destruct b; [destruct (Hdec (Hb1 eq_refl))|].
    reflexivity.
Qed.

(** X2. Whatever the line, a Command is produced exactly with the
    classifications FOREGROUND and BACKGROUND, and then: [cmd] is a copy of
    the first string of [argv]; [argv] holds at least one string, then the
    NULL sentinel, then one spare slot; and the classification is
    BACKGROUND exactly when the line contains the byte '&'. *)
Theorem gen_command_shape line t oc :
  gen_command line = Ok (t, oc) ->
  match oc with
  | None => t = FAIL \/ t = SPACES
  | Some c =>
      exists tok toks last,
        cmd c = Str tok /\
        argv c = map Str (tok :: toks) ++ [NULL; last] /\
        argv_tokens (argv c) = tok :: toks /\
        (t = BACKGROUND <-> AMP ∈ line) /\
        (t = FOREGROUND <-> AMP ∉ line)
  end.
Proof.
  intros Hgen. destruct oc as [c|].
  - destruct (gen_command_argv line t c Hgen) as (tok & toks & last & Hcmd & Hargv & Ht).
    exists tok, toks, last. split; [exact Hcmd|]. split; [exact Hargv|].
    split; [rewrite Hargv; apply argv_tokens_sentinel|].
    destruct (bool_decide (AMP ∈ line)) eqn:Hdec; subst t.
    + apply bool_decide_eq_true in Hdec. split; split; auto; try discriminate.
      intros Hn. destruct (Hn Hdec).
    + apply bool_decide_eq_false in Hdec. split; split; auto; try discriminate.
      intros Hin. destruct (Hdec Hin).
  - rewrite gen_command_rest in Hgen.
    destruct (count_rest line 0) as [|num b]; [injection Hgen as <-; auto|].
    destruct (num =? 0); [injection Hgen as <-; auto|].
    destruct (copy_rest [] line 0 _) as [[k' c']|f]; [|discriminate].
    cbn [res_bind snd] in Hgen.
    destruct (store_arg c' num NULL); discriminate.
Qed.

Lemma gen_command_shape_witness :
  exists tok toks last,
    cmd {| cmd := Str (bytes "sleep");
           argv := [Str (bytes "sleep"); Str (bytes "5"); NULL; Uninit] |} = Str tok /\
    argv {| cmd := Str (bytes "sleep");
            argv := [Str (bytes "sleep"); Str (bytes "5"); NULL; Uninit] |}
      = map Str (tok :: toks) ++ [NULL; last] /\
    argv_tokens [Str (bytes "sleep"); Str (bytes "5"); NULL; Uninit] = tok :: toks /\
    (BACKGROUND = BACKGROUND <-> AMP ∈ bytes "sleep 5 &" ++ [LF]) /\
    (BACKGROUND = FOREGROUND <-> AMP ∉ bytes "sleep 5 &" ++ [LF]).
Proof.
  apply (gen_command_shape (bytes "sleep 5 &" ++ [LF]) BACKGROUND
           (Some {| cmd := Str (bytes "sleep");
                    argv := [Str (bytes "sleep"); Str (bytes "5"); NULL; Uninit] |})).
  vm_compute. reflexivity.
Defined.

(** ** [free_command] *)

Lemma free_args_sentinel toks rest : forall i slots,
  free_args (map Str toks ++ NULL :: rest) i slots = Ok toks.
Proof.
  induction toks as [|t ts IH]; intros i slots; cbn [map app free_args];
    [reflexivity|].
  rewrite IH. reflexivity.
Qed.

(** [free_command] does not fault on a Command of [gen_command], so the
    labels [FreeCommand] and [ExitCommand] of [main] are passed. *)
Lemma gen_command_frees line t c :
  gen_command line = Ok (t, Some c) -> exists l, free_command (Some c) = Ok l.
Proof.
  intros Hgen.
  destruct (gen_command_argv line t c Hgen) as (tok & toks & last & Hcmd & Hargv & _).
  unfold free_command. rewrite Hcmd, Hargv, free_args_sentinel. eexists. reflexivity.
Qed.

Lemma freeing_ok line t c ev k :
  gen_command line = Ok (t, Some c) -> freeing c ev k = k.
Proof.
  intros Hgen. unfold freeing.
  destruct (gen_command_frees line t c Hgen) as (l & ->). reflexivity.
Qed.

(** X3. [free_command] on a Command of [gen_command] frees the copy of the
    program name and then the strings of [argv] up to the NULL sentinel, and
    reads no slot after the sentinel; on the null pointer it does nothing. *)
Theorem free_command_spec line t c :
  gen_command line = Ok (t, Some c) ->
  exists tok toks,
    argv_tokens (argv c) = tok :: toks /\
    free_command (Some c) = Ok (tok :: tok :: toks) /\
    free_command None = Ok [].
Proof.
  intros Hgen.
  destruct (gen_command_argv line t c Hgen) as (tok & toks & last & Hcmd & Hargv & _).
  exists tok, toks. split; [rewrite Hargv; apply argv_tokens_sentinel|].
  split; [|reflexivity].
  unfold free_command. rewrite Hcmd, Hargv, free_args_sentinel. reflexivity.
Qed.

Lemma free_command_spec_witness :
  exists tok toks,
    argv_tokens [Str (bytes "ls"); NULL; Str [AMP]] = tok :: toks /\
    free_command (Some {| cmd := Str (bytes "ls");
                          argv := [Str (bytes "ls"); NULL; Str [AMP]] |})
      = Ok (tok :: tok :: toks) /\
    free_command None = Ok [].
Proof.
  apply (free_command_spec (bytes "ls a&b &" ++ [LF]) BACKGROUND
           {| cmd := Str (bytes "ls"); argv := [Str (bytes "ls"); NULL; Str [AMP]] |}).
  vm_compute. reflexivity.
Defined.

Lemma gen_command_plain_witness :
  gen_command (bytes "  echo   hi " ++ [LF]) = parse_plain (bytes "  echo   hi " ++ [LF]).
Proof.
  apply (gen_command_plain (bytes "  echo   hi " ++ [LF])).
  repeat constructor; discriminate.
Defined.

(** ** The built-in "cd" *)

Lemma run_cd H E a c s :
  cmd c = Str (bytes "cd") ->
  argv c !! 0 = Some (Str (bytes "cd")) ->
  (argv c !! 1 = Some NULL ->
     run_built_in H E a c s =
       (CallChdir (home E) ::
          (if Z.eqb (fst (chdir E (home E) s)) 0 then [] else [Perror (bytes "cd")]),
        Ok (CD, snd (chdir E (home E) s)))) /\
  (forall path, argv c !! 1 = Some (Str path) ->
     run_built_in H E a c s =
       (CallChdir (Some path) ::
          (if Z.eqb (fst (chdir E (Some path) s)) 0 then [] else [Perror (bytes "cd")]),
        Ok (CD, snd (chdir E (Some path) s)))).
Proof.
  intros Hcmd Ha0. unfold run_built_in, arg. rewrite Hcmd, Ha0. cbn [deref].
  replace (bool_decide (bytes "cd" = bytes "exit")) with false by reflexivity.
  replace (bool_decide (bytes "cd" = bytes "pid")) with false by reflexivity.
  replace (bool_decide (bytes "cd" = bytes "ppid")) with false by reflexivity.
  replace (bool_decide (bytes "cd" = bytes "cd")) with true by reflexivity.
  split.
  - intros ->. destruct (chdir E (home E) s) as [fail s1]. reflexivity.
  - intros path ->. destruct (chdir E (Some path) s) as [fail s1]. reflexivity.
Qed.

Lemma finish_ok H a ev s :
  registry_ok (mem s) ->
  exists m', finish H a ev s = (ev ++ fst (sweep H (a_sweep a) (mem s)), Next (set_mem s m'))
             /\ registry_ok m'.
Proof.
  intros Hok. destruct (sweep_ok H (a_sweep a) (mem s) Hok) as (m' & Hs & Hok' & _).
  exists m'. split; [|exact Hok'].
  unfold finish. destruct (sweep H (a_sweep a) (mem s)) as [ev' x].
  cbn [fst snd] in *. rewrite Hs. reflexivity.
Qed.

Lemma gen_command_nil : gen_command [] = Ok (SPACES, None).
Proof. reflexivity. Qed.

(** C8. For a line whose Command is "cd": without an argument the
    iteration makes the home directory the working directory; with an
    argument that [chdir] rejects it reports the error with [perror], leaves
    the working directory and the error code as they were, and goes back to
    the prompt. *)
Theorem cd_spec H E prompt a s line t c :
  a_getline a = Some line ->
  gen_command line = Ok (t, Some c) ->
  cmd c = Str (bytes "cd") ->
  registry_ok (mem s) ->
  (argv c !! 1 = Some NULL ->
   forall h d, home E = Some h -> resolve E (cwd s) h = Some d ->
     exists ev s',
       iteration H E prompt a s = (ev, Next s') /\
       cwd s' = d /\ error s' = error s /\ CallChdir (Some h) ∈ ev /\
       Perror (bytes "cd") ∉ ev) /\
  (forall path, argv c !! 1 = Some (Str path) -> resolve E (cwd s) path = None ->
     exists ev s',
       iteration H E prompt a s = (ev, Next s') /\
       cwd s' = cwd s /\ error s' = error s /\ Perror (bytes "cd") ∈ ev).
Proof.
  intros Ha Hgen Hcmd Hok.
  destruct (gen_command_named line t c Hgen) as (Ht & n & Hn & Ha0).
  rewrite Hcmd in Hn. injection Hn as <-.
  destruct (run_cd H E a c s Hcmd Ha0) as (Hhome & Hpath).
  assert (Hnil : line <> []) by (intros ->; rewrite gen_command_nil in Hgen; discriminate).
  assert (Hit : forall ev s1,
            run_built_in H E a c s = (ev, Ok (CD, s1)) ->
            iteration H E prompt a s = finish H a ([PrintPrompt prompt] ++ ev) s1).
  { intros ev s1 Hrun. unfold iteration. rewrite Ha.
    destruct line as [|x l]; [congruence|]. rewrite Hgen, Hrun.
    destruct Ht as [-> | ->]; apply (freeing_ok _ _ _ _ _ Hgen). }
  split.
  - intros Ha1 h d Hh Hd. specialize (Hhome Ha1).
    unfold chdir in Hhome. rewrite Hh, Hd in Hhome. cbn [fst snd Z.eqb] in Hhome.
    rewrite (Hit _ _ Hhome).
    destruct (finish_ok H a ([PrintPrompt prompt] ++ [CallChdir (Some h)]) (set_cwd s d) Hok)
      as (m' & Hfin & _).
    rewrite Hfin. eexists _, _. split; [reflexivity|]. cbn [cwd error set_mem set_cwd].
    split; [reflexivity|]. split; [reflexivity|]. split.
    + apply list_elem_of_In. simpl. tauto.
    + intros Hin. apply list_elem_of_In in Hin. simpl in Hin.
      destruct Hin as [Hin|[Hin|Hin]]; try discriminate Hin.
      apply list_elem_of_In in Hin.
      pose proof (sweep_events H (fun e => e <> Perror (bytes "cd"))
                    ltac:(discriminate) ltac:(discriminate)
                    (a_sweep a) (mem s)) as Hs.
      rewrite Forall_forall in Hs. exact (Hs _ Hin eq_refl).
  - intros path Ha1 Hres. specialize (Hpath path Ha1).
    unfold chdir in Hpath. rewrite Hres in Hpath. cbn [fst snd Z.eqb] in Hpath.
    rewrite (Hit _ _ Hpath).
    destruct (finish_ok H a ([PrintPrompt prompt] ++ [CallChdir (Some path); Perror (bytes "cd")])
                s Hok) as (m' & Hfin & _).
    rewrite Hfin. eexists _, _. split; [reflexivity|]. cbn [cwd error set_mem].
    split; [reflexivity|]. split; [reflexivity|].
    apply list_elem_of_In. simpl. tauto.
Qed.

(** ** The dispatcher *)

Lemma run_exit H E a c s :
  cmd c = Str (bytes "exit") -> run_built_in H E a c s = ([], Ok (EXIT, s)).
Proof. intros Hcmd. unfold run_built_in. rewrite Hcmd. reflexivity. Qed.

(** What the dispatcher returns for a Command whose [cmd] and [argv[0]]
    are the string [n]: NOT exactly when [n] is not a built-in name, and
    never a change of the error code or of the registry. *)
Lemma run_built_in_kind H E a c s n :
  cmd c = Str n -> argv c !! 0 = Some (Str n) ->
  (is_built_in n = false -> run_built_in H E a c s = ([], Ok (NOT, s))) /\
  (is_built_in n = true ->
   forall ev b s1, run_built_in H E a c s = (ev, Ok (b, s1)) ->
     b <> NOT /\ error s1 = error s /\ mem s1 = mem s).
Proof.
  intros Hcmd Ha0. unfold run_built_in, is_built_in, arg. rewrite Hcmd, Ha0.
  cbn [deref].
  destruct (bool_decide (n = bytes "exit")) eqn:E1;
    [split; [discriminate|intros _ ev b s1 [= <- <- <-]; auto]|].
  destruct (bool_decide (n = bytes "pid")) eqn:E2;
    [split; [discriminate|intros _ ev b s1 [= <- <- <-]; auto]|].
  destruct (bool_decide (n = bytes "ppid")) eqn:E3;
    [split; [discriminate|intros _ ev b s1 [= <- <- <-]; auto]|].
  destruct (bool_decide (n = bytes "cd")) eqn:E4.
  { split; [discriminate|]. intros _ ev b s1.
    destruct (argv c !! 1) as [[| |d]|]; try discriminate.
    - unfold chdir. destruct (home E) as [h|]; [destruct (resolve E (cwd s) h)|];
        intros [= <- <- <-]; auto.
    - unfold chdir. destruct (resolve E (cwd s) d); intros [= <- <- <-]; auto. }
  destruct (bool_decide (n = bytes "pwd")) eqn:E5;
    [split; [discriminate|intros _ ev b s1 [= <- <- <-]; auto]|].
  destruct (bool_decide (n = bytes "jobs")) eqn:E6.
  { split; [discriminate|]. intros _ ev b s1.
    destruct (child_jobs (mem s)) as [r|]; [|discriminate].
    destruct (print_jobs (mem s) r (len r) 0) as [ev' [[]|f]]; [|discriminate].
    intros [= <- <- <-]. auto. }
  split; [reflexivity|discriminate].
Qed.

(** ** One iteration of the loop *)

Lemma finish_next H a ev s ev' s' :
  finish H a ev s = (ev', Next s') ->
  error s' = error s /\ cwd s' = cwd s /\ (registry_ok (mem s) -> registry_ok (mem s')).
Proof.
  unfold finish. destruct (sweep H (a_sweep a) (mem s)) as [e x] eqn:Hs.
  destruct x as [m|f]; [|discriminate]. intros [= _ <-]. cbn [error cwd mem set_mem].
  split; [reflexivity|]. split; [reflexivity|]. intros Hok.
  destruct (sweep_ok H (a_sweep a) (mem s) Hok) as (m' & Hs' & Hok' & _).
  rewrite Hs in Hs'. cbn [snd] in Hs'. injection Hs' as ->. exact Hok'.
Qed.

Lemma leave_not_next how s s' : leave how s <> Next s'.
Proof. unfold leave. destruct (free_jobs (mem s)); discriminate. Qed.

Lemma leave_ok how s : registry_ok (mem s) -> leave how s = Returned how (error s).
Proof.
  intros Hok. unfold leave. destruct (free_jobs_ok (mem s) Hok) as (m' & ->).
  reflexivity.
Qed.

(** An iteration that goes back to the prompt leaves in [error] the code
    of its failure, or what was there; and it keeps the registry invariant
    when the pid that [fork] returned is new. *)
Lemma iteration_next H E prompt a s ev s' :
  iteration H E prompt a s = (ev, Next s') ->
  error s' = default (error s) (failure_of a) /\
  (registry_ok (mem s) -> absent (a_fork a) (mem s) -> registry_ok (mem s')).
Proof.
  unfold iteration, failure_of.
  destruct (a_getline a) as [[|x l]|]; try (intros [= _ <-]; cbn; auto; fail).
  destruct (gen_command (x :: l)) as [[t oc]|f] eqn:Hgen; [|discriminate].
  assert (Hfin : forall ev0 s0 o,
            finish H a ev0 s0 = (ev, Next s') ->
            error s0 = default (error s) o -> mem s0 = mem s ->
            error s' = default (error s) o /\
            (registry_ok (mem s) -> absent (a_fork a) (mem s) -> registry_ok (mem s'))).
  { intros ev0 s0 o Hf He Hm. apply finish_next in Hf as (He' & _ & Hok).
    rewrite Hm in Hok. split; [congruence|auto]. }
  destruct t; try (intros Hf; apply (Hfin _ _ _ Hf); reflexivity).
  all: destruct oc as [c|]; [|discriminate].
  all: destruct (gen_command_named _ _ _ Hgen) as (_ & n & Hcmd & Ha0).
  all: destruct (run_built_in_kind H E a c s n Hcmd Ha0) as (Hnot & Hyes).
  all: rewrite Hcmd; cbn [deref].
  all: destruct (is_built_in n) eqn:Hb; cbn [negb andb].
  all: try (destruct (run_built_in H E a c s) as [ev1 [[b s1]|f]] eqn:Hrun;
            [|discriminate];
            destruct (Hyes eq_refl _ _ _ eq_refl) as (Hne & He & Hm);
            destruct b; try congruence;
            rewrite (freeing_ok _ _ _ _ _ Hgen);
            try (intros [= _ Hl]; destruct (leave_not_next _ _ _ Hl));
            intros Hf; apply (Hfin _ _ _ Hf); assumption).
  all: rewrite (Hnot eq_refl); unfold launch; cbv zeta.
  all: rewrite ?(freeing_ok _ _ _ _ _ Hgen).
  all: destruct (a_fork a <? 0)%Z;
    [intros Hf; apply (Hfin _ _ _ Hf); reflexivity|].
  all: destruct (a_fork a =? 0)%Z;
    [destruct (a_exec_fails a); [|discriminate];
     intros [= _ Hl]; destruct (leave_not_next _ _ _ Hl)|].
  - intros Hf. apply (Hfin _ _ _ Hf); reflexivity.
  - destruct (add_job (a_fork a) n (mem s)) as [m|f] eqn:Hadd; [|discriminate].
    rewrite (freeing_ok _ _ _ _ _ Hgen). intros Hf. apply finish_next in Hf as (He' & _ & Hok).
    cbn [error mem set_mem] in *. split; [exact He'|].
    intros Hreg Habs. apply Hok. exact (add_job_ok _ _ _ _ Hreg Habs Hadd).
Qed.

(** ** Runs of the loop *)

Lemma main_loop_running H E prompt trace : forall s ev s',
  main_loop H E prompt trace s = (ev, Running s') ->
  error s' = last_failure (error s) trace /\
  (registry_ok (mem s) -> fresh_pids H E prompt trace s -> registry_ok (mem s')).
Proof.
  induction trace as [|a rest IH]; intros s ev s'; cbn [main_loop fresh_pids].
  - intros [= _ <-]. auto.
  - destruct (iteration H E prompt a s) as [ev1 r] eqn:Hit.
    destruct r as [s1| | |]; try discriminate.
    destruct (main_loop H E prompt rest s1) as [ev2 r2] eqn:Hrest.
    intros [= _ ->].
    destruct (iteration_next _ _ _ _ _ _ _ Hit) as (He & Hok).
    destruct (IH _ _ _ Hrest) as (He' & Hok').
    split.
    + unfold last_failure in *. cbn [fold_left]. rewrite <- He. exact He'.
    + intros Hreg (Habs & Hfresh). apply Hok'; [apply Hok; assumption|exact Hfresh].
Qed.

Lemma main_loop_app H E prompt trace : forall s ev s' rest,
  main_loop H E prompt trace s = (ev, Running s') ->
  main_loop H E prompt (trace ++ rest) s =
    (ev ++ fst (main_loop H E prompt rest s'), snd (main_loop H E prompt rest s')).
Proof.
  induction trace as [|a tr IH]; intros s ev s' rest; cbn [main_loop app].
  - intros [= <- <-]. destruct (main_loop H E prompt rest s). reflexivity.
  - destruct (iteration H E prompt a s) as [ev1 r].
    destruct r as [s1| | |]; try discriminate.
    destruct (main_loop H E prompt tr s1) as [ev2 r2] eqn:Htr.
    intros [= <- ->]. rewrite (IH _ _ _ rest Htr).
    rewrite app_assoc. reflexivity.
Qed.

(** The iteration that reads "exit" makes [main] return [error]. *)
Lemma iteration_exit H E prompt a s line t c :
  a_getline a = Some line -> gen_command line = Ok (t, Some c) ->
  cmd c = Str (bytes "exit") -> registry_ok (mem s) ->
  iteration H E prompt a s = ([PrintPrompt prompt], Returned BuiltinExit (error s)).
Proof.
  intros Ha Hgen Hcmd Hok.
  destruct (gen_command_named _ _ _ Hgen) as (Ht & _).
  unfold iteration. rewrite Ha.
  destruct line as [|x l]; [rewrite gen_command_nil in Hgen; discriminate|].
  rewrite Hgen, (run_exit H E a c s Hcmd), (leave_ok BuiltinExit s Hok).
  destruct Ht as [-> | ->]; apply (freeing_ok _ _ _ _ _ Hgen).
Qed.

(** The iteration in which the child cannot execute the program makes
    [main] return -4 in the child. *)
Lemma iteration_exec_fails H E prompt a s line t c n :
  a_getline a = Some line -> gen_command line = Ok (t, Some c) ->
  cmd c = Str n -> is_built_in n = false ->
  a_fork a = 0%Z -> a_exec_fails a = true -> registry_ok (mem s) ->
  exists ev, iteration H E prompt a s = (ev, Returned ExecFailedExit (-4)).
Proof.
  intros Ha Hgen Hcmd Hb Hfork Hexec Hok.
  destruct (gen_command_named _ _ _ Hgen) as (Ht & n' & Hcmd' & Ha0).
  rewrite Hcmd in Hcmd'. injection Hcmd' as <-.
  destruct (run_built_in_kind H E a c s n Hcmd Ha0) as (Hnot & _).
  unfold iteration. rewrite Ha.
  destruct line as [|x l]; [rewrite gen_command_nil in Hgen; discriminate|].
  rewrite Hgen, (Hnot Hb), Hcmd. cbn [deref]. unfold launch.
  rewrite Hfork, Hexec. cbn [Z.ltb Z.eqb Z.compare]. cbv zeta.
  rewrite (freeing_ok _ _ _ _ _ Hgen).
  rewrite (leave_ok ExecFailedExit (set_error s (-4)) Hok). cbn [error set_error].
  destruct Ht as [-> | ->]; eexists; reflexivity.
Qed.

(** C3 (amended). When [main] is started with one or three arguments and
    the loop went through [trace], the "exit" built-in makes [main] return
    the code of the last failure of the run (-1 for a line that could not
    be read, -2 for a line that could not be parsed, -3 for a failed
    [fork]), and 0 when no iteration failed; a child whose [execvp] fails
    returns -4.  The four codes are distinct and nonzero as exit statuses. *)
Theorem exit_status_spec H E args dir trace evs s' :
  length args = 1 \/ length args = 3 ->
  fresh_pids H E (prompt_of args) trace (shell0 dir) ->
  main H E args dir trace = (evs, Running s') ->
  (forall a line t c,
     a_getline a = Some line -> gen_command line = Ok (t, Some c) ->
     cmd c = Str (bytes "exit") ->
     exists ev,
       main H E args dir (trace ++ [a]) =
         (ev, Stopped_by (Returned BuiltinExit (last_failure 0 trace)))) /\
  (Forall (fun a => failure_of a = None) trace -> last_failure 0 trace = 0%Z) /\
  (forall tr a e, trace = tr ++ [a] -> failure_of a = Some e ->
     last_failure 0 trace = e /\ (e = -1 \/ e = -2 \/ e = -3)%Z) /\
  (forall a line t c n,
     a_getline a = Some line -> gen_command line = Ok (t, Some c) ->
     cmd c = Str n -> is_built_in n = false ->
     a_fork a = 0%Z -> a_exec_fails a = true ->
     exists ev,
       main H E args dir (trace ++ [a]) =
         (ev, Stopped_by (Returned ExecFailedExit (-4)))) /\
  map exit_status [-1; -2; -3; -4]%Z = [255; 254; 253; 252]%Z.
Proof.
  intros Hargs Hfresh Hrun.
  assert (Hmain : forall tr, main H E args dir tr =
                    main_loop H E (prompt_of args) tr (shell0 dir)).
  { intros tr. unfold main. destruct Hargs as [-> | ->]; reflexivity. }
  rewrite Hmain in Hrun.
  destruct (main_loop_running _ _ _ _ _ _ _ Hrun) as (Herr & Hok).
  specialize (Hok registry_ok_no_jobs Hfresh). cbn [error shell0] in Herr.
  split; [|split; [|split; [|split]]].
  - intros a line t c Ha Hgen Hcmd.
    rewrite Hmain, (main_loop_app _ _ _ _ _ _ _ [a] Hrun). cbn [main_loop].
    rewrite (iteration_exit H E _ a s' line t c Ha Hgen Hcmd Hok), Herr.
    eexists. reflexivity.
  - unfold last_failure. generalize 0%Z. clear.
    induction trace as [|a tr IH]; intros e Hall; [reflexivity|].
    inversion Hall as [|? ? Ha Htr]; subst. cbn [fold_left]. rewrite Ha. cbn [default].
    apply IH, Htr.
  - intros tr a e -> Hfail. unfold last_failure.
    rewrite fold_left_app. cbn [fold_left]. rewrite Hfail. split; [reflexivity|].
    unfold failure_of in Hfail.
    destruct (a_getline a) as [[|x l]|]; try (injection Hfail as <-; auto; fail).
    destruct (gen_command (x :: l)) as [[[] [c|]]|]; try discriminate;
      try (injection Hfail as <-; auto; fail).
    all: destruct (cmd c) as [| |nm]; try discriminate.
    all: destruct (negb (is_built_in nm) && (a_fork a <? 0)%Z); [|discriminate].
    all: injection Hfail as <-; auto.
  - intros a line t c n Ha Hgen Hcmd Hb Hfork Hexec.
    rewrite Hmain, (main_loop_app _ _ _ _ _ _ _ [a] Hrun). cbn [main_loop].
    destruct (iteration_exec_fails H E (prompt_of args) a s' line t c n
                Ha Hgen Hcmd Hb Hfork Hexec Hok)
      as (ev & ->).
    eexists. reflexivity.
  - reflexivity.
Qed.

Lemma exit_status_spec_witness :
  let trace := [typed ["001"%char; LF]] in
  (forall a line t c,
     a_getline a = Some line -> gen_command line = Ok (t, Some c) ->
     cmd c = Str (bytes "exit") ->
     exists ev,
       main linux_headers tiny_env [bytes "./shell"] (bytes "/") (trace ++ [a]) =
         (ev, Stopped_by (Returned BuiltinExit (last_failure 0 trace)))) /\
  (Forall (fun a => failure_of a = None) trace -> last_failure 0 trace = 0%Z) /\
  (forall tr a e, trace = tr ++ [a] -> failure_of a = Some e ->
     last_failure 0 trace = e /\ (e = -1 \/ e = -2 \/ e = -3)%Z) /\
  (forall a line t c n,
     a_getline a = Some line -> gen_command line = Ok (t, Some c) ->
     cmd c = Str n -> is_built_in n = false ->
     a_fork a = 0%Z -> a_exec_fails a = true ->
     exists ev,
       main linux_headers tiny_env [bytes "./shell"] (bytes "/") (trace ++ [a]) =
         (ev, Stopped_by (Returned ExecFailedExit (-4)))) /\
  map exit_status [-1; -2; -3; -4]%Z = [255; 254; 253; 252]%Z.
Proof.
  intros trace.
  eapply (exit_status_spec linux_headers tiny_env [bytes "./shell"] (bytes "/") trace).
  - left. reflexivity.
  - vm_compute. auto.
  - vm_compute. reflexivity.
Defined.

(** C3 fails as stated: the code of a parse failure is still in [error]
    when "exit" is typed later, and the usage error does not set a code. *)
Lemma exit_status_claim_fails : ~ clean_exit_claim /\ ~ usage_exit_claim.
Proof.
  split; intros Hc.
  - assert (Hrun : main linux_headers tiny_env [bytes "./shell"] (bytes "/")
                     [typed ["001"%char; LF]; typed (bytes "exit" ++ [LF])]
                   = ([PrintPrompt (bytes "308sh> "); PrintParseError;
                       CallWaitpid (-1) 1; PrintPrompt (bytes "308sh> ")],
                      Stopped_by (Returned BuiltinExit (-2))))
      by (vm_compute; reflexivity).
    apply Hc in Hrun. vm_compute in Hrun. discriminate Hrun.
  - assert (Hrun : main linux_headers tiny_env [bytes "./shell"; bytes "-p"] (bytes "/") []
                   = ([PrintUsage], Stopped_by (Returned UsageExit 0)))
      by (vm_compute; reflexivity).
    apply Hc in Hrun. apply Hrun. reflexivity.
Qed.

Lemma cd_spec_witness :
  let a := typed (bytes "cd /nowhere" ++ [LF]) in
  let c := {| cmd := Str (bytes "cd");
              argv := [Str (bytes "cd"); Str (bytes "/nowhere"); NULL; Uninit] |} in
  let s := shell0 (bytes "/") in
  (argv c !! 1 = Some NULL ->
   forall h d, home tiny_env = Some h -> resolve tiny_env (cwd s) h = Some d ->
     exists ev s',
       iteration linux_headers tiny_env (bytes "308sh> ") a s = (ev, Next s') /\
       cwd s' = d /\ error s' = error s /\ CallChdir (Some h) ∈ ev /\
       Perror (bytes "cd") ∉ ev) /\
  (forall path, argv c !! 1 = Some (Str path) ->
     resolve tiny_env (cwd s) path = None ->
     exists ev s',
       iteration linux_headers tiny_env (bytes "308sh> ") a s = (ev, Next s') /\
       cwd s' = cwd s /\ error s' = error s /\ Perror (bytes "cd") ∈ ev).
Proof.
  intros a c s.
  apply (cd_spec linux_headers tiny_env (bytes "308sh> ") a s
           (bytes "cd /nowhere" ++ [LF]) FOREGROUND c).
  - reflexivity.
  - vm_compute. reflexivity.
  - reflexivity.
  - exact I.
Defined.

(** With the macros of glibc, a status word whose low seven bits are not
    all set (the child exited or was killed) always gets a report line. *)
Lemma report_terminated p n st :
  Z.land st 127 <> 127%Z ->
  report linux_headers p n st =
    [PrintReport p n Exited (Z.shiftr (Z.land st 65280) 8)] \/
  report linux_headers p n st = [PrintReport p n Killed (Z.land st 127)].
Proof.
  intros Hne. unfold report. cbn [WIFEXITED WIFSIGNALED WEXITSTATUS WTERMSIG linux_headers].
  destruct (Z.land st 127 =? 0)%Z eqn:H0; [left; reflexivity|]. right.
  apply Z.eqb_neq in H0.
  assert (Hb : (0 <= Z.land st 127 < 128)%Z).
  { change 127%Z with (Z.ones 7). rewrite Z.land_ones by lia.
    apply Z.mod_pos_bound. reflexivity. }
  replace (0 <? Z.land st 127)%Z with true by (symmetry; apply Z.ltb_lt; lia).
  replace (Z.land st 127 <? 127)%Z with true by (symmetry; apply Z.ltb_lt; lia).
  reflexivity.
Qed.

(** ** Runs of the whole model on the scenarios of the specification *)

(** "echo hi": a foreground command, program name echo, two tokens. *)
Example scenario_echo :
  gen_command (bytes "echo hi" ++ [LF]) =
  Ok (FOREGROUND,
      Some {| cmd := Str (bytes "echo");
              argv := [Str (bytes "echo"); Str (bytes "hi"); NULL; Uninit] |}).
Proof. reflexivity. Qed.

(** "sleep 5 &" is registered at once, listed by "jobs", and reported and
    removed by the sweep of the iteration in which it has ended. *)
Example scenario_sleep :
  fst (main linux_headers tiny_env [bytes "./shell"] (bytes "/")
         [typed (bytes "sleep 5 &" ++ [LF]);
          typed (bytes "jobs" ++ [LF]);
          {| a_getline := Some [LF]; a_getpid := 500; a_getppid := 1; a_fork := 0;
             a_exec_fails := false; a_getcwd_fails := false; a_status := 0;
             a_sweep := [(501, 0)%Z] |};
          typed (bytes "jobs" ++ [LF])])
  = [PrintPrompt (bytes "308sh> "); CallFork; CallWaitpid (-1) 1;
     PrintPrompt (bytes "308sh> "); PrintJob 501 (bytes "sleep"); CallWaitpid (-1) 1;
     PrintPrompt (bytes "308sh> "); CallWaitpid (-1) 1;
     PrintReport 501 (bytes "sleep") Exited 0; CallWaitpid (-1) 1;
     PrintPrompt (bytes "308sh> "); CallWaitpid (-1) 1].
Proof. vm_compute. reflexivity. Qed.

(** "cd" alone goes to the home directory. *)
Example scenario_cd_home :
  iteration linux_headers tiny_env (bytes "308sh> ") (typed (bytes "cd" ++ [LF]))
    (shell0 (bytes "/"))
  = ([PrintPrompt (bytes "308sh> "); CallChdir (Some (bytes "/home/u"));
      CallWaitpid (-1) 1],
     Next {| error := 0; mem := no_jobs; cwd := bytes "/home/u" |}).
Proof. vm_compute. reflexivity. Qed.

(** Five insertions into an empty registry: the capacity grows from four
    to eight and every job is found with its name. *)
Example growth_keeps_jobs :
  match add_jobs five_jobs no_jobs with
  | Ok m =>
      (live m, cap <$> child_jobs m, map (lookup_name m) [101; 102; 103; 104; 105; 106]%Z)
      = (5, Some 8, [Some (bytes "a"); Some (bytes "b"); Some (bytes "c");
                     Some (bytes "d"); Some (bytes "e"); None])
  | Fault _ => False
  end.
Proof. vm_compute. reflexivity. Qed.

(** C10 (defect of the code). "jobs" as the first line: the registry
    pointer is still null, and [run_built_in] reads [child_jobs->len]
    through it; [find_job_by_pid], [free_job_by_pid] and [free_jobs] test
    the pointer first. *)
Theorem jobs_without_registry :
  run_built_in linux_headers tiny_env (typed (bytes "jobs" ++ [LF]))
    {| cmd := Str (bytes "jobs"); argv := [Str (bytes "jobs"); NULL; Uninit] |}
    (shell0 (bytes "/"))
  = ([], Fault NullDeref) /\
  main linux_headers tiny_env [bytes "./shell"] (bytes "/")
    [typed (bytes "jobs" ++ [LF])]
  = ([PrintPrompt (bytes "308sh> ")], Stopped_by (Crashed NullDeref)) /\
  find_job_by_pid 7 no_jobs = Ok None /\
  free_job_by_pid 7 no_jobs = Ok no_jobs /\
  free_jobs no_jobs = Ok no_jobs.
Proof. repeat split; vm_compute; reflexivity. Qed.

(** * Further properties *)

(** ** Lines with a marker: when the second loop leaves the allocation *)

Lemma tokens_app_blank pre l :
  blank_end pre = true -> tokens (pre ++ l) = tokens pre ++ tokens l.
Proof.
  induction pre as [|c pre IH]; intros Hend; [reflexivity|].
  destruct pre as [|d pre'].
  - cbn [blank_end] in Hend. cbn [app tokens]. rewrite Hend. reflexivity.
  - assert (Hend' : blank_end (d :: pre') = true) by exact Hend.
    specialize (IH Hend'). cbn [app] in IH. cbn [app tokens].
    destruct (isspace c); [exact IH|].
    destruct (isspace d) eqn:Hd.
    + cbn [tokens] in IH. rewrite Hd in IH. rewrite IH. reflexivity.
    + destruct (tokens_head d pre' Hd) as (t & ts & Ht).
      cbn [tokens] in IH, Ht. rewrite Hd in IH, Ht. rewrite IH, Ht. reflexivity.
Qed.

Lemma store_tokens_overflow toks : forall done m n,
  n < length toks ->
  store_tokens toks (length done)
    {| cmd := m; argv := map Str done ++ replicate n Uninit |}
  = Fault (OutOfBounds (length done + n) (length done + n)).
Proof.
  induction toks as [|t ts IH]; intros done m n Hn; [simpl in Hn; lia|].
  cbn [store_tokens].
  destruct n as [|n].
  - unfold store_arg.
    assert (Hl : forall c', argv c' = map Str done ++ replicate 0 Uninit ->
                 (length done <? length (argv c')) = false).
    { intros c' ->. rewrite length_app, length_map. apply Nat.ltb_ge. simpl. lia. }
    destruct (length done =? 0); rewrite Hl by reflexivity; cbn [res_bind argv];
      rewrite length_app, length_map; cbn [replicate length];
      rewrite !Nat.add_0_r; reflexivity.
  - assert (Hc : forall m', store_arg
               {| cmd := m'; argv := map Str done ++ replicate (S n) Uninit |}
               (length done) (Str t)
             = Ok {| cmd := m'; argv := map Str (done ++ [t]) ++ replicate n Uninit |}).
    { intros m'. rewrite store_arg_fresh, map_app, <- app_assoc. reflexivity. }
    destruct (length done =? 0); cbn [argv]; rewrite Hc; cbn [res_bind].
    all: replace (length done + 1) with (length (done ++ [t]))
           by (rewrite length_app; reflexivity).
    all: rewrite IH by (simpl in Hn; lia).
    all: rewrite length_app; cbn [length].
    all: replace (length done + 1 + n) with (length done + S n) by lia; reflexivity.
Qed.

(** X4. A line whose bytes before its first '&' are printable or white
    space, with at least one token before that '&', which stands at the
    start of a token (white space precedes it), and with no NUL byte after
    it.  When at most two white-space separated tokens start at or after
    the marker, the result is BACKGROUND with exactly the tokens before the
    marker in front of the NULL sentinel (a second such token is left in
    the spare slot after the sentinel); with three or more, the second loop
    stores a string one slot past the end of [argv]. *)
Theorem gen_command_marker pre post t ts :
  Forall (fun x => accepted x = true) pre ->
  Forall (fun x => x <> AMP) pre ->
  blank_end pre = true ->
  tokens pre = t :: ts ->
  Forall (fun x => x <> NUL) post ->
  gen_command (pre ++ AMP :: post) =
  match tokens (AMP :: post) with
  | [_] =>
      Ok (BACKGROUND,
          Some {| cmd := Str t; argv := map Str (t :: ts) ++ [NULL; Uninit] |})
  | [_; b] =>
      Ok (BACKGROUND,
          Some {| cmd := Str t; argv := map Str (t :: ts) ++ [NULL; Str b] |})
  | _ => Fault (OutOfBounds (length (t :: ts) + 2) (length (t :: ts) + 2))
  end.
Proof.
  intros Hacc Hamp Hend Htok Hpost.
  rewrite gen_command_rest.
  rewrite (count_rest_tokens pre post 0 Hacc Hamp Hend), Htok. cbn [Nat.add].
  rewrite copy_rest_tokens; [|constructor|].
  2: { apply Forall_app. split; [apply accepted_no_nul, Hacc|].
       constructor; [discriminate|exact Hpost]. }
  rewrite tokens_from_nil, (tokens_app_blank pre (AMP :: post) Hend), Htok.
  remember (t :: ts) as T eqn:ET.
  remember (length T) as n eqn:En.
  assert (Hn : n <> 0) by (subst n T; discriminate).
  rewrite (proj2 (Nat.eqb_neq n 0) Hn).
  assert (Hnull : forall m a (tail : list ptr),
            store_arg {| cmd := m; argv := map Str T ++ a :: tail |} n NULL
            = Ok {| cmd := m; argv := map Str T ++ NULL :: tail |}).
  { intros m a tail. unfold store_arg. cbn [argv cmd].
    rewrite length_app, length_map, <- En. cbn [length].
    replace (n <? n + S (length tail)) with true by (symmetry; apply Nat.ltb_lt; lia).
    rewrite insert_app_r_alt by (rewrite length_map, <- En; lia).
    rewrite length_map, <- En, Nat.sub_diag. reflexivity. }
  destruct (tokens (AMP :: post)) as [|a [|b [|x rest]]] eqn:Hafter.
  - destruct (tokens_nonspace_head AMP post eq_refl Hafter).
  - pose proof (store_tokens_fits (T ++ [a]) [] Uninit (n + 2)) as Hst.
    cbn [length map app Nat.eqb] in Hst.
    rewrite Hst by (rewrite length_app, <- En; simpl; lia).
    cbn [res_bind snd].
    replace (replicate (n + 2 - length (T ++ [a])) Uninit) with [Uninit]
      by (rewrite length_app, <- En; cbn [length];
          replace (n + 2 - (n + 1)) with 1 by lia; reflexivity).
    rewrite map_app, <- app_assoc. cbn [map app].
    rewrite Hnull. subst T. reflexivity.
  - pose proof (store_tokens_fits (T ++ [a; b]) [] Uninit (n + 2)) as Hst.
    cbn [length map app Nat.eqb] in Hst.
    rewrite Hst by (rewrite length_app, <- En; simpl; lia).
    cbn [res_bind snd].
    replace (replicate (n + 2 - length (T ++ [a; b])) Uninit) with (@nil ptr)
      by (rewrite length_app, <- En; cbn [length];
          replace (n + 2 - (n + 2)) with 0 by lia; reflexivity).
    rewrite app_nil_r, map_app. cbn [map app].
    rewrite Hnull. subst T. reflexivity.
  - pose proof (store_tokens_overflow (T ++ a :: b :: x :: rest) [] Uninit (n + 2)) as Hst.
    cbn [length map app Nat.add] in Hst.
    rewrite Hst; [reflexivity|].
    rewrite length_app, <- En. cbn [length]. lia.
Qed.

Lemma gen_command_marker_witness :
  gen_command (bytes "ls -l " ++ AMP :: bytes " x y" ++ [LF]) =
  match tokens (AMP :: bytes " x y" ++ [LF]) with
  | [_] =>
      Ok (BACKGROUND,
          Some {| cmd := Str (bytes "ls");
                  argv := map Str [bytes "ls"; bytes "-l"] ++ [NULL; Uninit] |})
  | [_; b] =>
      Ok (BACKGROUND,
          Some {| cmd := Str (bytes "ls");
                  argv := map Str [bytes "ls"; bytes "-l"] ++ [NULL; Str b] |})
  | _ => Fault (OutOfBounds (length [bytes "ls"; bytes "-l"] + 2)
                            (length [bytes "ls"; bytes "-l"] + 2))
  end.
Proof.
  apply (gen_command_marker (bytes "ls -l ") (bytes " x y" ++ [LF])
           (bytes "ls") [bytes "-l"]).
  - repeat constructor.
  - repeat constructor; discriminate.
  - reflexivity.
  - reflexivity.
  - repeat constructor; discriminate.
Defined.

(** ** The registry: lookup *)

(** Under the invariant, [find] and [j->name] give exactly the jobs that
    the live slots hold. *)
Lemma registered_holds m q nm : registry_ok m -> (registered m q nm <-> holds m q nm).
Proof.
  intros Hok. split.
  - intros Hreg.
    destruct (registered_slot m q nm Hreg) as (r & i & j & Hc & _ & Hname & Hi & Hj & Hp).
    exists r, i, j. repeat split; try assumption.
    unfold job_name in Hname. rewrite Hc, (read_slot_ok r i j Hj) in Hname.
    cbn [res_bind] in Hname.
    destruct (strings m !! name j); [congruence|discriminate].
  - intros (r & k & j & Hc & Hk & Hj & Hp & Hn).
    pose proof (registry_ok_wf m Hok) as Hwf.
    destruct (find_total q m Hwf)
      as [(_ & Habs)|(r' & i & j' & Hc' & Hfind & Hi & Hj' & Hp')].
    + unfold absent in Habs. rewrite Hc in Habs. destruct (Habs k j Hk Hj Hp).
    + rewrite Hc in Hc'. injection Hc' as <-.
      unfold registry_ok in Hok. rewrite Hc in Hok. destruct Hok as (_ & Huniq & _).
      assert (i = k) by (apply (Huniq i k j' j); try assumption; congruence). subst i.
      rewrite (slot_fun r k j' j Hj' Hj) in *.
      exists k. split; [exact Hfind|].
      unfold job_name. rewrite Hc, (read_slot_ok r k j Hj). cbn [res_bind].
      rewrite Hn. reflexivity.
Qed.

(** X5. On a registry state [find_job_by_pid] does not fault; it returns
    the first live slot whose job has the pid, and no slot exactly when no
    live job has the pid. *)
Theorem find_job_by_pid_spec p m :
  wf_memory m ->
  (find_job_by_pid p m = Ok None /\ absent p m) \/
  (exists r i j,
     child_jobs m = Some r /\ find_job_by_pid p m = Ok (Some i) /\
     i < len r /\ slot r i j /\ pid j = p /\
     forall k jk, k < i -> slot r k jk -> pid jk <> p).
Proof.
  intros Hwf.
  destruct (find_total p m Hwf) as [Hnone|(r & i & j & Hc & Hfind & Hi & Hj & Hp)];
    [left; exact Hnone|right].
  exists r, i, j. repeat split; try assumption.
  intros k jk Hk Hjk.
  pose proof Hfind as Hf. unfold find_job_by_pid in Hf. rewrite Hc in Hf.
  destruct (0 <? len r); [|discriminate].
  destruct (find_loop_sound p r _ _ _ Hf) as (_ & _ & Ho).
  destruct (Ho k) as (jk' & Hjk' & Hne); [lia|].
  rewrite (slot_fun r k jk jk' Hjk Hjk'). exact Hne.
Qed.

Lemma find_job_by_pid_spec_witness :
  (find_job_by_pid 7 one_job = Ok None /\ absent 7 one_job) \/
  (exists r i j,
     child_jobs one_job = Some r /\ find_job_by_pid 7 one_job = Ok (Some i) /\
     i < len r /\ slot r i j /\ pid j = 7%Z /\
     forall k jk, k < i -> slot r k jk -> pid jk <> 7%Z).
Proof.
  apply (find_job_by_pid_spec 7 one_job).
  split; [simpl; lia|]. split; [reflexivity|].
  intros k Hk. simpl in Hk. destruct k as [|k]; [|lia].
  eexists. split; [reflexivity|]. vm_compute. eauto.
Defined.

(** ** The registry: growth *)

Lemma add_job_capacity p n m m1 :
  wf_memory m -> add_job p n m = Ok m1 ->
  capacity m1 = (if capacity m <=? live m then capacity m + 4 else capacity m).
Proof.
  unfold add_job, wf_memory, capacity, live.
  destruct (child_jobs m) as [r|].
  - intros _. destruct (cap r <=? len r); cbn [len cap jobs].
    + destruct (len r <? _); [|discriminate]. intros [= <-]. reflexivity.
    + destruct (len r <? _); [|discriminate]. intros [= <-]. reflexivity.
  - intros _. cbn. intros [= <-]. reflexivity.
Qed.

(** X6. [add_job] on a registry state does not fault: the length grows by
    one; the capacity grows by four exactly when the registry was full (a
    null registry counts as full with capacity 0) and is otherwise kept;
    the slots that were live keep their contents; the heap gains the copy
    of the name and nothing else; the new job sits in the first free slot;
    and the invariant is kept when the pid is new. *)
Theorem add_job_grows p n m :
  wf_memory m ->
  exists m1 a,
    add_job p n m = Ok m1 /\
    wf_memory m1 /\
    live m1 = live m + 1 /\
    capacity m1 = (if capacity m <=? live m then capacity m + 4 else capacity m) /\
    (forall k, k < live m -> slots m1 !! k = slots m !! k) /\
    slots m1 !! live m = Some (Some {| pid := p; name := a |}) /\
    strings m !! a = None /\
    strings m1 = <[a := n]> (strings m) /\
    (registry_ok m -> absent p m -> registry_ok m1).
Proof.
  intros Hwf.
  destruct (add_job_spec p n m Hwf) as (a & extra & r1 & Ha & Hlt & Hle & Hr1 & Hadd).
  pose proof (add_job_wf p n m _ Hwf Hadd) as Hwf1.
  eexists _, a. split; [exact Hadd|]. split; [exact Hwf1|].
  split; [|split; [exact (add_job_capacity p n m _ Hwf Hadd)|]].
  { unfold live at 1. cbn [child_jobs]. subst r1. reflexivity. }
  unfold slots at 1 3. cbn [child_jobs strings]. subst r1. cbn [jobs].
  split; [|split; [|split; [exact Ha|split]]].
  - intros k Hk. rewrite list_lookup_insert_ne by lia. apply lookup_app_l. lia.
  - apply list_lookup_insert_eq. exact Hlt.
  - reflexivity.
  - intros Hok Habs. exact (add_job_ok p n m _ Hok Habs Hadd).
Qed.

Lemma add_job_grows_witness :
  exists m1 a,
    add_job 9 (bytes "vi") one_job = Ok m1 /\
    wf_memory m1 /\
    live m1 = live one_job + 1 /\
    capacity m1 = (if capacity one_job <=? live one_job
                   then capacity one_job + 4 else capacity one_job) /\
    (forall k, k < live one_job -> slots m1 !! k = slots one_job !! k) /\
    slots m1 !! live one_job = Some (Some {| pid := 9; name := a |}) /\
    strings one_job !! a = None /\
    strings m1 = <[a := bytes "vi"]> (strings one_job) /\
    (registry_ok one_job -> absent 9 one_job -> registry_ok m1).
Proof.
  apply (add_job_grows 9 (bytes "vi") one_job).
  split; [simpl; lia|]. split; [reflexivity|].
  intros k Hk. simpl in Hk. destruct k as [|k]; [|lia].
  eexists. split; [reflexivity|]. vm_compute. eauto.
Defined.

(** ** The registry: removal keeps the other jobs *)

(** The two ways [free_job_by_pid] can go on a registry that satisfies the
    invariant. *)
Lemma free_job_cases p m :
  registry_ok m ->
  (absent p m /\ free_job_by_pid p m = Ok m) \/
  (exists r i j last,
     child_jobs m = Some r /\ i < len r /\ slot r i j /\ pid j = p /\
     jobs r !! (len r - 1) = Some last /\
     (forall k jk, k < len r -> slot r k jk -> pid jk = p -> k = i) /\
     free_job_by_pid p m =
       Ok {| strings := delete (name j) (strings m);
             child_jobs := Some {| len := len r - 1; cap := cap r;
                                   jobs := <[i := last]> (jobs r) |} |}).
Proof.
  intros Hok. pose proof (registry_ok_wf m Hok) as Hwf.
  destruct (find_total p m Hwf) as [(_ & Habs)|(r & i & j & Hc & _ & Hi & Hj & Hp)].
  - left. split; [exact Habs|apply free_absent; assumption].
  - right. unfold registry_ok in Hok. rewrite Hc in Hok.
    destruct Hok as (Hwfr & Huniq & _).
    assert (Honly : forall k jk, k < len r -> slot r k jk -> pid jk = p -> k = i).
    { intros k jk Hk Hjk Hpk. apply (Huniq k i jk j); try assumption. congruence. }
    destruct (free_present p m r i j Hc Hwfr Honly Hi Hj Hp) as (last & Hlast & Hfree).
    exists r, i, j, last. repeat split; assumption.
Qed.

(** After [free_job_by_pid(p)] the live slots hold the jobs they held
    before, except the one with pid [p]. *)
Lemma free_job_holds p m m' :
  registry_ok m -> free_job_by_pid p m = Ok m' ->
  capacity m' = capacity m /\
  forall q nm, holds m' q nm <-> holds m q nm /\ q <> p.
Proof.
  intros Hok Hfree.
  destruct (free_job_cases p m Hok)
    as [(Habs & Hsame)|(r & i & j & last & Hc & Hi & Hj & Hp & Hlast & Honly & Hex)].
  - rewrite Hfree in Hsame. injection Hsame as ->. split; [reflexivity|].
    intros q nm. split; [|tauto].
    intros Hh. split; [exact Hh|].
    destruct Hh as (r & k & jk & Hc & Hk & Hjk & Hq & _).
    unfold absent in Habs. rewrite Hc in Habs. rewrite <- Hq. exact (Habs k jk Hk Hjk).
  - rewrite Hfree in Hex. injection Hex as ->.
    unfold registry_ok in Hok. rewrite Hc in Hok.
    destruct Hok as ((Hle & Hcap & Hlive) & _ & Hnames).
    split; [unfold capacity; cbn [child_jobs cap]; rewrite Hc; reflexivity|].
    pose proof (lookup_lt_Some _ _ _ Hlast) as Hlastlt.
    intros q nm. split.
    + intros (r' & k & jk & Hc' & Hk & Hjk & Hq & Hn).
      cbn [child_jobs strings] in Hc', Hn. injection Hc' as <-. cbn [len] in Hk.
      pose proof (removed_slot r i last k jk Hlast Hi Hk Hjk) as Hs.
      apply lookup_delete_Some in Hn as (Hne & Hn).
      set (k' := if decide (k = i) then len r - 1 else k) in *.
      assert (Hk' : k' < len r) by (unfold k'; destruct (decide (k = i)); lia).
      split.
      * exists r, k', jk. repeat split; assumption.
      * intros Heq. rewrite Heq in Hq.
        pose proof (Honly k' jk Hk' Hs Hq) as Hki.
        unfold k' in Hki. destruct (decide (k = i)); lia.
    + intros ((r' & k & jk & Hc' & Hk & Hjk & Hq & Hn) & Hqp).
      rewrite Hc in Hc'. injection Hc' as <-.
      assert (Hki : k <> i).
      { intros ->. rewrite (slot_fun r i jk j Hjk Hj) in Hq. congruence. }
      eexists _, (if decide (k = len r - 1) then i else k), jk.
      cbn [child_jobs strings]. split; [reflexivity|]. cbn [len].
      split; [destruct (decide (k = len r - 1)); lia|].
      split; [|split; [exact Hq|]].
      * unfold slot. cbn [jobs]. destruct (decide (k = len r - 1)) as [->|Hnl].
        -- rewrite list_lookup_insert_eq by lia. unfold slot in Hjk. congruence.
        -- rewrite list_lookup_insert_ne by congruence. exact Hjk.
      * rewrite lookup_delete_ne; [exact Hn|].
        intros Heq. apply Hki. symmetry.
        exact (Hnames i k j jk Hi Hk Hj Hjk Heq).
Qed.

Lemma absent_holds q m : wf_memory m -> (absent q m <-> forall nm, ~ holds m q nm).
Proof.
  intros Hwf. unfold absent, wf_memory in *. split.
  - intros Habs nm (r & k & j & Hc & Hk & Hj & Hq & _).
    rewrite Hc in Habs. exact (Habs k j Hk Hj Hq).
  - intros Hno. destruct (child_jobs m) as [r|] eqn:Hc; [|exact I].
    intros k j Hk Hj Hq. destruct Hwf as (_ & _ & Hlive).
    destruct (Hlive k Hk) as (j' & Hj' & [nm Hn]).
    rewrite (slot_fun r k j' j Hj' Hj) in Hn.
    apply (Hno nm). exists r, k, j. repeat split; assumption.
Qed.

(** X7. On a registry that satisfies the invariant, [free_job_by_pid(p)]
    does not fault and keeps the invariant; afterwards [find(p)] returns
    nothing, every other pid is found exactly as before and with the same
    name, the capacity is what it was, and the length is one less when the
    pid was there and the same when it was not. *)
Theorem free_job_by_pid_keeps p m :
  registry_ok m ->
  exists m',
    free_job_by_pid p m = Ok m' /\
    registry_ok m' /\
    find_job_by_pid p m' = Ok None /\
    (forall q nm, registered m' q nm <-> registered m q nm /\ q <> p) /\
    capacity m' = capacity m /\
    live m' + match find_job_by_pid p m with Ok None => 0 | _ => 1 end = live m.
Proof.
  intros Hok.
  destruct (free_job_ok p m Hok) as (m' & Hfree & Hok' & Habs & _).
  destruct (free_job_holds p m m' Hok Hfree) as (Hcap & Hholds).
  exists m'. split; [exact Hfree|]. split; [exact Hok'|].
  split; [apply find_absent; [apply registry_ok_wf, Hok'|exact Habs]|].
  split; [|split; [exact Hcap|]].
  - intros q nm. rewrite (registered_holds m' q nm Hok'), (registered_holds m q nm Hok).
    apply Hholds.
  - destruct (free_job_cases p m Hok)
      as [(Habs0 & Hsame)|(r & i & j & last & Hc & Hi & Hj & Hp & _ & _ & Hex)].
    + rewrite Hfree in Hsame. injection Hsame as ->.
      rewrite (find_absent p m (registry_ok_wf m Hok) Habs0). lia.
    + rewrite Hfree in Hex. injection Hex as ->.
      unfold live. cbn [child_jobs len]. rewrite Hc.
      destruct (find_total p m (registry_ok_wf m Hok))
        as [(_ & Ha)|(r' & i' & j' & _ & Hf & _)].
      * unfold absent in Ha. rewrite Hc in Ha. destruct (Ha i j Hi Hj Hp).
      * rewrite Hf. lia.
Qed.

Lemma one_job_ok : registry_ok one_job.
Proof.
  split; [|split].
  - split; [simpl; lia|]. split; [reflexivity|].
    intros k Hk. simpl in Hk. destruct k as [|k]; [|lia].
    eexists. split; [reflexivity|]. vm_compute. eauto.
  - intros k1 k2 j1 j2 H1 H2 _ _ _. simpl in H1, H2. lia.
  - intros k1 k2 j1 j2 H1 H2 _ _ _. simpl in H1, H2. lia.
Defined.

Lemma free_job_by_pid_keeps_witness :
  exists m',
    free_job_by_pid 7 one_job = Ok m' /\
    registry_ok m' /\
    find_job_by_pid 7 m' = Ok None /\
    (forall q nm, registered m' q nm <-> registered one_job q nm /\ q <> 7%Z) /\
    capacity m' = capacity one_job /\
    live m' + match find_job_by_pid 7 one_job with Ok None => 0 | _ => 1 end
      = live one_job.
Proof. apply (free_job_by_pid_keeps 7 one_job). exact one_job_ok. Defined.

(** ** The registry: [free_jobs] *)

Lemma free_names_spec r : distinct_names r ->
  forall fuel i h, i + fuel = len r ->
    (forall k, i <= k < len r -> exists j, slot r k j /\ is_Some (h !! name j)) ->
    exists h',
      free_names r fuel i h = Ok h' /\
      (forall k j, i <= k < len r -> slot r k j -> h' !! name j = None) /\
      (forall a, (forall k j, i <= k < len r -> slot r k j -> name j <> a) ->
                 h' !! a = h !! a).
Proof.
  intros Hnames. induction fuel as [|fuel IH]; intros i h Hi Hlive.
  - exists h. split; [reflexivity|]. split; [intros k j Hk; lia|auto].
  - destruct (Hlive i) as (j & Hj & [n Hn]); [lia|].
    cbn [free_names]. rewrite (read_slot_ok r i j Hj). cbn [res_bind]. rewrite Hn.
    destruct (IH (S i) (delete (name j) h)) as (h' & Hfree & Hgone & Hkept); [lia| |].
    { intros k Hk. destruct (Hlive k) as (jk & Hjk & Hnk); [lia|].
      exists jk. split; [exact Hjk|].
      rewrite lookup_delete_ne; [exact Hnk|].
      intros Heq. assert (i = k) by (apply (Hnames i k j jk); try assumption; lia). lia. }
    exists h'. split; [exact Hfree|]. split.
    + intros k jk Hk Hjk. destruct (decide (k = i)) as [->|Hne].
      * rewrite (slot_fun r i jk j Hjk Hj). rewrite Hkept; [apply lookup_delete_eq|].
        intros k' j' Hk' Hj' Heq.
        assert (k' = i) by (apply (Hnames k' i j' j); try assumption; lia). lia.
      * apply (Hgone k jk); [lia|exact Hjk].
    + intros a Ha. rewrite Hkept.
      * apply lookup_delete_ne. apply (Ha i j); [lia|exact Hj].
      * intros k jk Hk Hjk. apply (Ha k jk); [lia|exact Hjk].
Qed.

(** X8. On a registry that satisfies the invariant, [free_jobs] does not
    fault: it leaves the null registry, the name of every live job is
    released, and every other string of the heap is kept. *)
Theorem free_jobs_spec m :
  registry_ok m ->
  exists m',
    free_jobs m = Ok m' /\
    child_jobs m' = None /\
    (forall q nm, ~ holds m' q nm) /\
    (forall k j, k < live m -> slots m !! k = Some (Some j) ->
       strings m' !! name j = None) /\
    (forall a, (forall k j, k < live m -> slots m !! k = Some (Some j) -> name j <> a) ->
       strings m' !! a = strings m !! a).
Proof.
  unfold registry_ok, free_jobs, live, slots.
  destruct (child_jobs m) as [r|].
  - intros ((_ & _ & Hlive) & _ & Hnames).
    assert (Hnone : forall h q nm,
              ~ holds {| strings := h; child_jobs := None |} q nm).
    { intros h q nm (r' & k & j & Hc & _). discriminate Hc. }
    destruct (0 <? len r) eqn:Hpos.
    + destruct (free_names_spec r Hnames (len r) 0 (strings m) eq_refl)
        as (h' & Hfree & Hgone & Hkept).
      { intros k Hk. apply Hlive. lia. }
      rewrite Hfree. eexists. split; [reflexivity|]. cbn [child_jobs strings].
      split; [reflexivity|]. split; [apply Hnone|]. split.
      * intros k j Hk Hj. apply (Hgone k j); [lia|exact Hj].
      * intros a Ha. apply Hkept. intros k j Hk Hj. apply (Ha k j); [lia|exact Hj].
    + apply Nat.ltb_ge in Hpos. eexists. split; [reflexivity|]. cbn [child_jobs strings].
      split; [reflexivity|]. split; [apply Hnone|]. split; [intros k j Hk; lia|auto].
  - intros _. eexists. split; [reflexivity|]. cbn [child_jobs strings].
    split; [reflexivity|]. split.
    + intros q nm (r' & k & j & Hc & _). discriminate Hc.
    + split; [intros k j Hk; lia|auto].
Qed.

Lemma free_jobs_spec_witness :
  exists m',
    free_jobs one_job = Ok m' /\
    child_jobs m' = None /\
    (forall q nm, ~ holds m' q nm) /\
    (forall k j, k < live one_job -> slots one_job !! k = Some (Some j) ->
       strings m' !! name j = None) /\
    (forall a, (forall k j, k < live one_job -> slots one_job !! k = Some (Some j) ->
                  name j <> a) ->
       strings m' !! a = strings one_job !! a).
Proof. apply (free_jobs_spec one_job). exact one_job_ok. Defined.

(** ** The sweep and the registry *)

Lemma sweep_holds H ans : forall m,
  registry_ok m ->
  exists m',
    snd (sweep H ans m) = Ok m' /\ registry_ok m' /\
    capacity m' = capacity m /\
    forall q nm, holds m' q nm <-> holds m q nm /\ q ∉ observed ans.
Proof.
  induction ans as [|[child st] rest IH]; intros m Hok; cbn [sweep observed].
  - exists m. split; [reflexivity|]. split; [exact Hok|]. split; [reflexivity|].
    intros q nm. split; [|tauto]. intros Hh. split; [exact Hh|]. intros Hin. inversion Hin.
  - destruct (0 <? child)%Z.
    2: { exists m. split; [reflexivity|]. split; [exact Hok|]. split; [reflexivity|].
         intros q nm. split; [|tauto]. intros Hh. split; [exact Hh|].
         intros Hin. inversion Hin. }
    pose proof (registry_ok_wf m Hok) as Hwf.
    destruct (find_total child m Hwf)
      as [(Hfind & Habs)|(r & i & j & Hc & Hfind & Hi & Hj & Hp)]; rewrite Hfind.
    + destruct (IH m Hok) as (m' & Hs & Hok' & Hcap & Hh).
      destruct (sweep H rest m) as [ev x]. exists m'.
      split; [exact Hs|]. split; [exact Hok'|]. split; [exact Hcap|].
      intros q nm. rewrite Hh. split.
      * intros (Hq & Hn). split; [exact Hq|].
        intros Hin. apply elem_of_cons in Hin as [->|Hin]; [|exact (Hn Hin)].
        exact (proj1 (absent_holds child m Hwf) Habs nm Hq).
      * intros (Hq & Hn). split; [exact Hq|].
        intros Hin. apply Hn. apply list_elem_of_further. exact Hin.
    + unfold wf_memory in Hwf. rewrite Hc in Hwf.
      destruct (job_name_ok m r i j Hc Hwf Hi Hj) as (n & _ & Hn). rewrite Hn.
      destruct (free_job_ok child m Hok) as (m1 & Hfree & Hok1 & _ & _).
      rewrite Hfree.
      destruct (free_job_holds child m m1 Hok Hfree) as (Hcap1 & Hh1).
      destruct (IH m1 Hok1) as (m' & Hs & Hok' & Hcap & Hh).
      destruct (sweep H rest m1) as [ev x]. exists m'.
      split; [exact Hs|]. split; [exact Hok'|]. split; [congruence|].
      intros q nm. rewrite Hh, Hh1. split.
      * intros ((Hq & Hne) & Hn'). split; [exact Hq|].
        intros Hin. apply elem_of_cons in Hin as [->|Hin]; [congruence|exact (Hn' Hin)].
      * intros (Hq & Hn'). split; [split; [exact Hq|]|].
        -- intros ->. apply Hn'. apply list_elem_of_here.
        -- intros Hin. apply Hn'. apply list_elem_of_further. exact Hin.
Qed.

(** C7. The sweep only polls: each of its [waitpid] calls is for any child
    with [WNOHANG], and it stops at the first call that reports no child.
    For a child it observes: when a live slot of the registry holds the pid,
    the sweep prints the report with the name of that job and the status
    (Exited, Killed, Stopped or Continued, in this order of tests), removes
    the job - the pid is in no live slot afterwards, the other jobs are
    those that were there, there is one job less - and goes on; when no
    live slot holds the pid, the sweep prints nothing for the child and
    goes on with the registry as it was. *)
Theorem sweep_reaps H child st rest m :
  (0 < child)%Z ->
  registry_ok m ->
  (* present *)
  (forall n, holds m child n ->
     exists m',
       sweep H ((child, st) :: rest) m =
         (CallWaitpid (-1) (WNOHANG H) :: report H child n st ++ fst (sweep H rest m'),
          snd (sweep H rest m')) /\
       free_job_by_pid child m = Ok m' /\
       registry_ok m' /\ absent child m' /\
       live m' + 1 = live m /\ capacity m' = capacity m /\
       (forall q nm, holds m' q nm <-> holds m q nm /\ q <> child)) /\
  (* absent *)
  (absent child m ->
     sweep H ((child, st) :: rest) m =
       (CallWaitpid (-1) (WNOHANG H) :: fst (sweep H rest m), snd (sweep H rest m))) /\
  (* the four-way report *)
  (forall n,
     (WIFEXITED H st = true ->
        report H child n st = [PrintReport child n Exited (WEXITSTATUS H st)]) /\
     (WIFEXITED H st = false -> WIFSIGNALED H st = true ->
        report H child n st = [PrintReport child n Killed (WTERMSIG H st)]) /\
     (WIFEXITED H st = false -> WIFSIGNALED H st = false -> WIFSTOPPED H st = true ->
        report H child n st = [PrintReport child n Stopped (WSTOPSIG H st)]) /\
     (WIFEXITED H st = false -> WIFSIGNALED H st = false -> WIFSTOPPED H st = false ->
      WIFCONTINUED H st = true ->
        report H child n st = [PrintReport child n Continued st])) /\
  (* no blocking *)
  (forall ans m0, Forall (polls H) (fst (sweep H ans m0))) /\
  (forall m0, sweep H [] m0 = ([CallWaitpid (-1) (WNOHANG H)], Ok m0)) /\
  (forall c0 st0 rest0 m0, (c0 <= 0)%Z ->
     sweep H ((c0, st0) :: rest0) m0 = ([CallWaitpid (-1) (WNOHANG H)], Ok m0)).
Proof.
  intros Hpos Hok.
  assert (Hgt : (0 <? child)%Z = true) by (apply Z.ltb_lt; exact Hpos).
  split; [|split; [|split; [|split; [|split]]]].
  - intros n Hheld.
    pose proof (proj2 (registered_holds m child n Hok) Hheld) as Hreg.
    destruct (registered_slot m child n Hreg) as (r & i & j & Hc & Hfind & Hname & _).
    destruct (free_job_ok child m Hok) as (m' & Hfree & Hok' & Habs & _).
    destruct (free_job_holds child m m' Hok Hfree) as (Hcap & Hh).
    exists m'. split.
    { cbn [sweep]. rewrite Hgt, Hfind, Hname, Hfree.
      destruct (sweep H rest m') as [ev x]. reflexivity. }
    split; [exact Hfree|]. split; [exact Hok'|]. split; [exact Habs|].
    split; [|split; [exact Hcap|exact Hh]].
    destruct (free_job_cases child m Hok)
      as [(Habs0 & _)|(r0 & i0 & j0 & last & Hc0 & Hi0 & _ & _ & _ & _ & Hfree0)].
    + destruct (proj1 (absent_holds child m (registry_ok_wf m Hok)) Habs0 n Hheld).
    + rewrite Hfree in Hfree0. injection Hfree0 as ->.
      unfold live. rewrite Hc0. cbn [child_jobs len]. lia.
  - intros Habs. cbn [sweep].
    rewrite Hgt, (find_absent child m (registry_ok_wf m Hok) Habs).
    destruct (sweep H rest m) as [ev x]. reflexivity.
  - intros n. unfold report. repeat split.
    + intros ->. reflexivity.
    + intros -> ->. reflexivity.
    + intros -> -> ->. reflexivity.
    + intros -> -> -> ->. reflexivity.
  - intros ans m0. apply sweep_polls.
  - reflexivity.
  - intros c0 st0 rest0 m0 Hc0. cbn [sweep].
    replace (0 <? c0)%Z with false by (symmetry; apply Z.ltb_ge; exact Hc0).
    reflexivity.
Qed.

Lemma sweep_reaps_witness :
  holds one_job 7 (bytes "sleep") /\
  (forall n, holds one_job 7 n ->
     exists m',
       sweep linux_headers [(7, 0)%Z] one_job =
         (CallWaitpid (-1) (WNOHANG linux_headers) ::
            report linux_headers 7 n 0 ++ fst (sweep linux_headers [] m'),
          snd (sweep linux_headers [] m')) /\
       free_job_by_pid 7 one_job = Ok m' /\
       registry_ok m' /\ absent 7 m' /\
       live m' + 1 = live one_job /\ capacity m' = capacity one_job /\
       (forall q nm, holds m' q nm <-> holds one_job q nm /\ q <> 7%Z)) /\
  (absent 7 one_job ->
     sweep linux_headers [(7, 0)%Z] one_job =
       (CallWaitpid (-1) (WNOHANG linux_headers) :: fst (sweep linux_headers [] one_job),
        snd (sweep linux_headers [] one_job))) /\
  (forall n,
     (WIFEXITED linux_headers 0 = true ->
        report linux_headers 7 n 0 =
          [PrintReport 7 n Exited (WEXITSTATUS linux_headers 0)]) /\
     (WIFEXITED linux_headers 0 = false -> WIFSIGNALED linux_headers 0 = true ->
        report linux_headers 7 n 0 =
          [PrintReport 7 n Killed (WTERMSIG linux_headers 0)]) /\
     (WIFEXITED linux_headers 0 = false -> WIFSIGNALED linux_headers 0 = false ->
      WIFSTOPPED linux_headers 0 = true ->
        report linux_headers 7 n 0 =
          [PrintReport 7 n Stopped (WSTOPSIG linux_headers 0)]) /\
     (WIFEXITED linux_headers 0 = false -> WIFSIGNALED linux_headers 0 = false ->
      WIFSTOPPED linux_headers 0 = false -> WIFCONTINUED linux_headers 0 = true ->
        report linux_headers 7 n 0 = [PrintReport 7 n Continued 0])) /\
  (forall ans m0, Forall (polls linux_headers) (fst (sweep linux_headers ans m0))) /\
  (forall m0, sweep linux_headers [] m0 =
                ([CallWaitpid (-1) (WNOHANG linux_headers)], Ok m0)) /\
  (forall c0 st0 rest0 m0, (c0 <= 0)%Z ->
     sweep linux_headers ((c0, st0) :: rest0) m0 =
       ([CallWaitpid (-1) (WNOHANG linux_headers)], Ok m0)).
Proof.
  split.
  - eexists _, 0, _. split; [reflexivity|]. split; [simpl; lia|].
    split; [reflexivity|]. split; [reflexivity|]. vm_compute. reflexivity.
  - apply (sweep_reaps linux_headers 7 0 [] one_job); [lia|exact one_job_ok].
Defined.

(** X9. On a registry that satisfies the invariant the sweep does not
    fault and keeps the invariant and the capacity; when it is over, the
    pids that [waitpid] returned are no longer found, and every other pid
    is found exactly as before, with the same name. *)
Theorem sweep_clears H ans m :
  registry_ok m ->
  exists m',
    snd (sweep H ans m) = Ok m' /\
    registry_ok m' /\
    capacity m' = capacity m /\
    (forall q, q ∈ observed ans -> find_job_by_pid q m' = Ok None) /\
    (forall q nm, registered m' q nm <-> registered m q nm /\ q ∉ observed ans).
Proof.
  intros Hok.
  destruct (sweep_holds H ans m Hok) as (m' & Hs & Hok' & Hcap & Hh).
  exists m'. split; [exact Hs|]. split; [exact Hok'|]. split; [exact Hcap|]. split.
  - intros q Hq. apply find_absent; [apply registry_ok_wf, Hok'|].
    apply (absent_holds q m' (registry_ok_wf m' Hok')).
    intros nm Hhold. apply Hh in Hhold as (_ & Hn). exact (Hn Hq).
  - intros q nm.
    rewrite (registered_holds m' q nm Hok'), (registered_holds m q nm Hok). apply Hh.
Qed.

Lemma sweep_clears_witness :
  exists m',
    snd (sweep linux_headers [(7, 0); (8, 9); (0, 0)]%Z one_job) = Ok m' /\
    registry_ok m' /\
    capacity m' = capacity one_job /\
    (forall q, q ∈ observed [(7, 0); (8, 9); (0, 0)]%Z -> find_job_by_pid q m' = Ok None) /\
    (forall q nm, registered m' q nm <->
                  registered one_job q nm /\ q ∉ observed [(7, 0); (8, 9); (0, 0)]%Z).
Proof.
  apply (sweep_clears linux_headers [(7, 0); (8, 9); (0, 0)]%Z one_job).
  exact one_job_ok.
Defined.

(** ** The "jobs" built-in *)

Lemma print_jobs_spec m r : forall fuel i,
  (forall k, i <= k < i + fuel ->
     exists j n, slot r k j /\ strings m !! name j = Some n) ->
  exists ev,
    print_jobs m r fuel i = (ev, Ok tt) /\ length ev = fuel /\
    forall k, k < fuel ->
      exists j n, slot r (i + k) j /\ strings m !! name j = Some n /\
                  ev !! k = Some (PrintJob (pid j) n).
Proof.
  induction fuel as [|fuel IH]; intros i Hlive.
  - exists []. split; [reflexivity|]. split; [reflexivity|]. intros k Hk. lia.
  - destruct (Hlive i) as (j & n & Hj & Hn); [lia|].
    destruct (IH (S i)) as (ev & Hev & Hlen & Hk); [intros k Hk; apply Hlive; lia|].
    exists (PrintJob (pid j) n :: ev).
    cbn [print_jobs]. rewrite (read_slot_ok r i j Hj), Hn, Hev.
    split; [reflexivity|]. split; [simpl; lia|].
    intros k Hlt. destruct k as [|k].
    + exists j, n. rewrite Nat.add_0_r. auto.
    + destruct (Hk k) as (j' & n' & Hj' & Hn' & Hl); [lia|].
      exists j', n'. replace (i + S k) with (S i + k) by lia. auto.
Qed.

Lemma run_jobs H E a c s r :
  cmd c = Str (bytes "jobs") -> child_jobs (mem s) = Some r ->
  run_built_in H E a c s =
    (fst (print_jobs (mem s) r (len r) 0),
     _ <- snd (print_jobs (mem s) r (len r) 0) ;;; Ok (JOBS, s)).
Proof.
  intros Hcmd Hc. unfold run_built_in. rewrite Hcmd. cbn [deref].
  replace (bool_decide (bytes "jobs" = bytes "exit")) with false by reflexivity.
  replace (bool_decide (bytes "jobs" = bytes "pid")) with false by reflexivity.
  replace (bool_decide (bytes "jobs" = bytes "ppid")) with false by reflexivity.
  replace (bool_decide (bytes "jobs" = bytes "cd")) with false by reflexivity.
  replace (bool_decide (bytes "jobs" = bytes "pwd")) with false by reflexivity.
  replace (bool_decide (bytes "jobs" = bytes "jobs")) with true by reflexivity.
  rewrite Hc. destruct (print_jobs (mem s) r (len r) 0). reflexivity.
Qed.

(** X10. With a registry state, the "jobs" built-in does not fault and
    prints one line per live job, in slot order, with the pid and the name
    of the job; it leaves the state of the shell as it is. *)
Theorem jobs_lists H E a c s r :
  cmd c = Str (bytes "jobs") ->
  child_jobs (mem s) = Some r ->
  registry_wf (strings (mem s)) r ->
  exists ev,
    run_built_in H E a c s = (ev, Ok (JOBS, s)) /\
    length ev = len r /\
    forall k, k < len r ->
      exists j n, slot r k j /\ strings (mem s) !! name j = Some n /\
                  ev !! k = Some (PrintJob (pid j) n).
Proof.
  intros Hcmd Hc (_ & _ & Hlive).
  destruct (print_jobs_spec (mem s) r (len r) 0) as (ev & Hev & Hlen & Hk).
  { intros k Hk. destruct (Hlive k) as (j & Hj & [n Hn]); [lia|]. eauto. }
  exists ev. rewrite (run_jobs H E a c s r Hcmd Hc), Hev.
  split; [reflexivity|]. split; [exact Hlen|exact Hk].
Qed.

Lemma jobs_lists_witness :
  let c := {| cmd := Str (bytes "jobs"); argv := [Str (bytes "jobs"); NULL; Uninit] |} in
  let s := {| error := 0; mem := one_job; cwd := bytes "/" |} in
  let r := {| len := 1; cap := 4;
              jobs := [Some {| pid := 7; name := 1 |}; None; None; None] |} in
  exists ev,
    run_built_in linux_headers tiny_env (typed (bytes "jobs" ++ [LF])) c s
      = (ev, Ok (JOBS, s)) /\
    length ev = len r /\
    forall k, k < len r ->
      exists j n, slot r k j /\ strings (mem s) !! name j = Some n /\
                  ev !! k = Some (PrintJob (pid j) n).
Proof.
  intros c s r.
  apply (jobs_lists linux_headers tiny_env (typed (bytes "jobs" ++ [LF])) c s r).
  - reflexivity.
  - reflexivity.
  - split; [simpl; lia|]. split; [reflexivity|].
    intros k Hk. simpl in Hk. destruct k as [|k]; [|lia].
    eexists. split; [reflexivity|]. vm_compute. eauto.
Defined.

(** ** What the built-ins do to the shell *)

Lemma print_jobs_events m r : forall fuel i,
  Forall (fun e => is_launch e = false) (fst (print_jobs m r fuel i)).
Proof.
  induction fuel as [|fuel IH]; intros i; cbn [print_jobs]; [constructor|].
  destruct (read_slot r i) as [j|f]; [|constructor].
  destruct (strings m !! name j) as [n|]; [|constructor].
  specialize (IH (S i)). destruct (print_jobs m r fuel (S i)) as [ev x].
  cbn [fst] in *. constructor; [reflexivity|exact IH].
Qed.

(** The dispatcher never forks or executes, never changes the error code
    or the registry, and changes the working directory only for "cd". *)
Lemma run_built_in_effects H E a c s ev b s1 :
  run_built_in H E a c s = (ev, Ok (b, s1)) ->
  error s1 = error s /\ mem s1 = mem s /\
  (b <> CD -> s1 = s) /\
  (b = NOT -> ev = []) /\
  Forall (fun e => is_launch e = false) ev.
Proof.
  unfold run_built_in.
  destruct (deref (cmd c)) as [n|f]; [|discriminate].
  destruct (bool_decide (n = bytes "exit"));
    [intros [= <- <- <-]; repeat split; auto; discriminate|].
  destruct (bool_decide (n = bytes "pid"));
    [intros [= <- <- <-]; repeat split; auto; try discriminate; repeat constructor|].
  destruct (bool_decide (n = bytes "ppid"));
    [intros [= <- <- <-]; repeat split; auto; try discriminate; repeat constructor|].
  destruct (bool_decide (n = bytes "cd")).
  { destruct (arg c 0) as [a0|f]; [|discriminate].
    destruct (deref a0) as [n0|f]; [|discriminate].
    destruct (bool_decide (n0 = bytes "cd"));
      [|intros [= <- <- <-]; repeat split; auto; discriminate].
    destruct (arg c 1) as [[| |d]|f]; try discriminate.
    - unfold chdir. destruct (home E) as [h|]; [destruct (resolve E (cwd s) h)|];
        intros [= <- <- <-]; cbn; repeat split; auto; try congruence;
        repeat constructor.
    - unfold chdir. destruct (resolve E (cwd s) d);
        intros [= <- <- <-]; cbn; repeat split; auto; try congruence;
        repeat constructor. }
  destruct (bool_decide (n = bytes "pwd")).
  { intros [= <- <- <-]. repeat split; auto; try discriminate.
    destruct (negb (a_getcwd_fails a) && (length (cwd s) <? MAXPATHLEN H));
      repeat constructor. }
  destruct (bool_decide (n = bytes "jobs")).
  { destruct (child_jobs (mem s)) as [r|]; [|discriminate].
    pose proof (print_jobs_events (mem s) r (len r) 0) as Hev.
    destruct (print_jobs (mem s) r (len r) 0) as [ev' [[]|f]]; [|discriminate].
    intros [= <- <- <-]. repeat split; auto; discriminate. }
  intros [= <- <- <-]. repeat split; auto; constructor.
Qed.

(** X11. Whatever the Command, when [run_built_in] returns it has issued
    no [fork] and no [execvp], the error code and the registry are what
    they were, and the working directory is too unless the result is CD;
    when the result is NOT it has printed nothing. *)
Theorem run_built_in_frame H E a c s ev b s1 :
  run_built_in H E a c s = (ev, Ok (b, s1)) ->
  error s1 = error s /\ mem s1 = mem s /\
  (b <> CD -> s1 = s) /\
  (b = NOT -> ev = []) /\
  Forall (fun e => is_launch e = false) ev.
Proof. apply run_built_in_effects. Qed.

Lemma run_built_in_frame_witness :
  let c := {| cmd := Str (bytes "cd"); argv := [Str (bytes "cd"); NULL; Uninit] |} in
  let s := shell0 (bytes "/") in
  let s1 := set_cwd s (bytes "/home/u") in
  error s1 = error s /\ mem s1 = mem s /\
  (CD <> CD -> s1 = s) /\
  (CD = NOT -> [CallChdir (Some (bytes "/home/u"))] = []) /\
  Forall (fun e => is_launch e = false) [CallChdir (Some (bytes "/home/u"))].
Proof.
  intros c s s1.
  apply (run_built_in_frame linux_headers tiny_env (typed (bytes "cd" ++ [LF])) c s
           [CallChdir (Some (bytes "/home/u"))] CD s1).
  vm_compute. reflexivity.
Defined.

(** ** The two ways an iteration can crash *)

Lemma gen_command_none line t :
  gen_command line = Ok (t, None) -> t = FAIL \/ t = SPACES.
Proof.
  rewrite gen_command_rest.
  destruct (count_rest line 0) as [|num b]; [intros [= <-]; auto|].
  destruct (num =? 0); [intros [= <-]; auto|].
  destruct (copy_rest [] line 0 _) as [[k' c']|f]; [|discriminate].
  cbn [res_bind snd]. destruct (store_arg c' num NULL); discriminate.
Qed.

Lemma finish_not_crashed H a ev s ev' f :
  registry_ok (mem s) -> finish H a ev s <> (ev', Crashed f).
Proof.
  intros Hok. destruct (finish_ok H a ev s Hok) as (m' & -> & _). discriminate.
Qed.

Lemma leave_not_crashed how s f : registry_ok (mem s) -> leave how s <> Crashed f.
Proof. intros Hok. rewrite (leave_ok how s Hok). discriminate. Qed.

(** On a Command of [gen_command], the dispatcher only faults on "jobs"
    with a null registry. *)
Lemma run_built_in_fault H E a s line t c ev f :
  gen_command line = Ok (t, Some c) ->
  wf_memory (mem s) ->
  run_built_in H E a c s = (ev, Fault f) ->
  f = NullDeref /\ cmd c = Str (bytes "jobs") /\ child_jobs (mem s) = None.
Proof.
  intros Hgen Hwf.
  destruct (gen_command_argv line t c Hgen) as (tok & toks & last & Hcmd & Hargv & _).
  unfold run_built_in, arg. rewrite Hcmd, Hargv. cbn [deref map app lookup list_lookup].
  destruct (bool_decide (tok = bytes "exit")); [discriminate|].
  destruct (bool_decide (tok = bytes "pid")); [discriminate|].
  destruct (bool_decide (tok = bytes "ppid")); [discriminate|].
  destruct (bool_decide (tok = bytes "cd")).
  { destruct toks as [|t2 toks]; cbn [map app lookup list_lookup];
      [destruct (chdir E (home E) s)|destruct (chdir E (Some t2) s)]; discriminate. }
  destruct (bool_decide (tok = bytes "pwd")); [discriminate|].
  destruct (bool_decide (tok = bytes "jobs")) eqn:Hj; [|discriminate].
  apply bool_decide_eq_true in Hj. subst tok.
  unfold wf_memory in Hwf.
  destruct (child_jobs (mem s)) as [r|]; [|intros [= _ <-]; auto].
  destruct Hwf as (_ & _ & Hlive).
  destruct (print_jobs_spec (mem s) r (len r) 0) as (ev' & Hev & _).
  { intros k Hk. destruct (Hlive k) as (j & Hj & [n Hn]); [lia|]. eauto. }
  rewrite Hev. discriminate.
Qed.

Lemma iteration_crash H E prompt a s ev f :
  registry_ok (mem s) -> absent (a_fork a) (mem s) ->
  iteration H E prompt a s = (ev, Crashed f) ->
  exists line,
    a_getline a = Some line /\
    (gen_command line = Fault f \/
     (f = NullDeref /\ child_jobs (mem s) = None /\
      exists t c, gen_command line = Ok (t, Some c) /\ cmd c = Str (bytes "jobs"))).
Proof.
  intros Hok Habs. unfold iteration.
  destruct (a_getline a) as [[|x l]|]; [discriminate| |discriminate].
  intros Hit. exists (x :: l). split; [reflexivity|]. revert Hit.
  destruct (gen_command (x :: l)) as [[t oc]|f0] eqn:Hgen;
    [|intros [= _ <-]; left; reflexivity].
  assert (Hfin : forall ev0 s0 (G : Prop), mem s0 = mem s ->
            finish H a ev0 s0 = (ev, Crashed f) -> G).
  { intros ev0 s0 G Hm Hf. exfalso. revert Hf. apply finish_not_crashed.
    rewrite Hm. exact Hok. }
  assert (Hleave : forall how s0 (G : Prop), mem s0 = mem s ->
            leave how s0 = Crashed f -> G).
  { intros how s0 G Hm Hl. exfalso. revert Hl. apply leave_not_crashed.
    rewrite Hm. exact Hok. }
  destruct t; try (apply Hfin; reflexivity).
  all: destruct oc as [c|];
    [|destruct (gen_command_none _ _ Hgen) as [Hx|Hx]; discriminate Hx].
  all: destruct (gen_command_argv _ _ _ Hgen) as (tok & toks & last & Hcmd & _).
  all: destruct (run_built_in H E a c s) as [ev1 [[b s1]|f1]] eqn:Hrun.
  all: try (intros [= _ <-]; right;
            destruct (run_built_in_fault H E a s _ _ _ _ _ Hgen
                        (registry_ok_wf _ Hok) Hrun) as (-> & Hj & Hnone);
            split; [reflexivity|]; split; [exact Hnone|]; eauto; fail).
  all: destruct (run_built_in_effects _ _ _ _ _ _ _ _ Hrun) as (_ & Hm & _).
  all: destruct b; rewrite ?(freeing_ok _ _ _ _ _ Hgen); try (apply Hfin; exact Hm).
  all: try (intros [= _ Hl]; revert Hl; apply Hleave; exact Hm).
  all: rewrite Hcmd; cbn [deref]; unfold launch; cbv zeta.
  all: rewrite ?(freeing_ok _ _ _ _ _ Hgen).
  all: destruct (a_fork a <? 0)%Z; [apply Hfin; exact Hm|].
  all: destruct (a_fork a =? 0)%Z;
    [destruct (a_exec_fails a); [|discriminate];
     intros [= _ Hl]; revert Hl; apply Hleave; exact Hm|].
  - apply Hfin. exact Hm.
  - rewrite Hm.
    destruct (add_job_total (a_fork a) tok (mem s) (registry_ok_wf _ Hok))
      as (m1 & Hadd & _).
    rewrite Hadd, (freeing_ok _ _ _ _ _ Hgen). intros Hf. exfalso. revert Hf.
    apply finish_not_crashed. cbn [mem set_mem].
    exact (add_job_ok _ _ _ _ Hok Habs Hadd).
Qed.

(** The second loop keeps the size of [argv], and it can only fault by a
    store at the index just past the last slot. *)
Lemma copy_rest_bounds rest : forall pending k c,
  k <= length (argv c) ->
  match copy_rest pending rest k c with
  | Ok (k', c') => length (argv c') = length (argv c) /\ k' <= length (argv c)
  | Fault f => f = OutOfBounds (length (argv c)) (length (argv c))
  end.
Proof.
  induction rest as [|ch r IH]; intros pending k c Hk; cbn [copy_rest].
  - auto.
  - destruct (isspace ch && negb (isspace (hd NUL r))); [apply IH, Hk|].
    destruct (negb (isspace ch) && (isspace (hd NUL r) || Ascii.eqb (hd NUL r) NUL));
      [|apply IH, Hk].
    unfold store_arg.
    assert (Hlen : length (argv (if k =? 0
                                 then {| cmd := Str (until_nul (pending ++ [ch]));
                                         argv := argv c |}
                                 else c)) = length (argv c))
      by (destruct (k =? 0); reflexivity).
    rewrite Hlen.
    destruct (k <? length (argv c)) eqn:Hlt; cbn [res_bind].
    + apply Nat.ltb_lt in Hlt.
      match goal with
      | |- context [copy_rest _ r (k + 1) ?c2] =>
          specialize (IH (pending ++ [ch]) (k + 1) c2)
      end.
      cbn [argv] in IH. rewrite length_insert, Hlen in IH. apply IH. lia.
    + apply Nat.ltb_ge in Hlt. f_equal; lia.
Qed.

(** When [gen_command] faults, it is by such a store. *)
Lemma gen_command_fault line f :
  gen_command line = Fault f -> exists n, f = OutOfBounds n n.
Proof.
  rewrite gen_command_rest.
  destruct (count_rest line 0) as [|num b]; [discriminate|].
  destruct (num =? 0); [discriminate|].
  pose proof (copy_rest_bounds line [] 0
                {| cmd := Uninit; argv := replicate (num + 2) Uninit |}
                ltac:(lia)) as Hb.
  destruct (copy_rest [] line 0 _) as [[k' c']|f0]; cbn [res_bind snd].
  - destruct Hb as (Hlen & _). cbn [argv] in Hlen. rewrite length_replicate in Hlen.
    unfold store_arg. rewrite Hlen.
    replace (num <? num + 2) with true by (symmetry; apply Nat.ltb_lt; lia).
    discriminate.
  - intros [= <-]. eexists. exact Hb.
Qed.

(** A run that crashes went back to the prompt until the iteration that
    crashed, and that iteration crashed in one of the two ways. *)
Lemma main_loop_crash H E prompt trace : forall s ev f,
  registry_ok (mem s) -> fresh_pids H E prompt trace s ->
  main_loop H E prompt trace s = (ev, Stopped_by (Crashed f)) ->
  exists pre a post evs s1 line,
    trace = pre ++ a :: post /\
    main_loop H E prompt pre s = (evs, Running s1) /\
    a_getline a = Some line /\
    ((gen_command line = Fault f /\ exists n, f = OutOfBounds n n) \/
     (f = NullDeref /\ child_jobs (mem s1) = None /\
      exists t c, gen_command line = Ok (t, Some c) /\ cmd c = Str (bytes "jobs"))).
Proof.
  induction trace as [|a rest IH]; intros s ev f Hok; cbn [main_loop fresh_pids];
    [discriminate|].
  intros (Habs & Hfresh).
  destruct (iteration H E prompt a s) as [ev1 r] eqn:Hit.
  destruct r as [s1|how st| |f1].
  - destruct (main_loop H E prompt rest s1) as [ev2 r2] eqn:Hrest.
    intros [= _ ->].
    destruct (iteration_next _ _ _ _ _ _ _ Hit) as (_ & Hok1).
    destruct (IH s1 ev2 f (Hok1 Hok Habs) Hfresh Hrest)
      as (pre & a' & post & evs & s2 & line & -> & Hpre & Hcase).
    exists (a :: pre), a', post, (ev1 ++ evs), s2, line.
    split; [reflexivity|]. split; [|exact Hcase].
    cbn [main_loop]. rewrite Hit, Hpre. reflexivity.
  - discriminate.
  - discriminate.
  - intros [= _ <-].
    destruct (iteration_crash _ _ _ _ _ _ _ Hok Habs Hit) as (line & Ha & Hcase).
    exists [], a, rest, [], s, line.
    split; [reflexivity|]. split; [reflexivity|]. split; [exact Ha|].
    destruct Hcase as [Hc|Hj]; [left|right; exact Hj].
    split; [exact Hc|exact (gen_command_fault _ _ Hc)].
Qed.

(** X12. A run of [main] on lines of ASCII bytes, where the system never
    hands out the pid of a child that is still in the registry.  When the
    run ends in a memory fault, every iteration before the faulting one
    went back to the prompt, and the faulting iteration either read a line
    on which [gen_command] stores a token one slot past the end of [argv],
    or read a line that parses to the command "jobs" while the registry
    pointer was null.  So [free_command], the registry functions and the
    sweep never fault in a run. *)
Theorem main_crashes_only H E args dir trace ev f :
  Forall (fun a => forall line, a_getline a = Some line ->
                   forallb is_ascii line = true) trace ->
  fresh_pids H E (prompt_of args) trace (shell0 dir) ->
  main H E args dir trace = (ev, Stopped_by (Crashed f)) ->
  exists pre a post evs s line,
    trace = pre ++ a :: post /\
    main_loop H E (prompt_of args) pre (shell0 dir) = (evs, Running s) /\
    a_getline a = Some line /\
    ((gen_command line = Fault f /\ exists n, f = OutOfBounds n n) \/
     (f = NullDeref /\ child_jobs (mem s) = None /\
      exists t c, gen_command line = Ok (t, Some c) /\ cmd c = Str (bytes "jobs"))).
Proof.
  intros _ Hfresh. unfold main.
  destruct (negb (length args =? 1) && negb (length args =? 3)); [discriminate|].
  apply main_loop_crash; [exact registry_ok_no_jobs|exact Hfresh].
Qed.

Lemma main_crashes_only_witness :
  exists pre a post evs s line,
    [typed (bytes "ls" ++ [LF]); typed (bytes "a & b c" ++ [LF])] = pre ++ a :: post /\
    main_loop linux_headers tiny_env (prompt_of [bytes "./shell"]) pre (shell0 (bytes "/"))
      = (evs, Running s) /\
    a_getline a = Some line /\
    ((gen_command line = Fault (OutOfBounds 3 3) /\
      exists n, OutOfBounds 3 3 = OutOfBounds n n) \/
     (OutOfBounds 3 3 = NullDeref /\ child_jobs (mem s) = None /\
      exists t c, gen_command line = Ok (t, Some c) /\ cmd c = Str (bytes "jobs"))).
Proof.
  eapply (main_crashes_only linux_headers tiny_env [bytes "./shell"] (bytes "/")
            [typed (bytes "ls" ++ [LF]); typed (bytes "a & b c" ++ [LF])]).
  - repeat constructor; intros line [= <-]; reflexivity.
  - vm_compute. auto.
  - vm_compute. reflexivity.
Defined.

(** ** Which commands create a process *)

Lemma run_built_in_events H E a c s :
  Forall (fun e => is_launch e = false) (fst (run_built_in H E a c s)).
Proof.
  unfold run_built_in.
  destruct (deref (cmd c)) as [n|f]; [|constructor].
  destruct (bool_decide (n = bytes "exit")); [constructor|].
  destruct (bool_decide (n = bytes "pid")); [repeat constructor|].
  destruct (bool_decide (n = bytes "ppid")); [repeat constructor|].
  destruct (bool_decide (n = bytes "cd")).
  { destruct (arg c 0) as [a0|f]; [|constructor].
    destruct (deref a0) as [n0|f]; [|constructor].
    destruct (bool_decide (n0 = bytes "cd")); [|constructor].
    destruct (arg c 1) as [[| |d]|f]; try constructor.
    - destruct (chdir E (home E) s) as [fail s1]. cbn [fst].
      destruct (Z.eqb fail 0); repeat constructor.
    - destruct (chdir E (Some d) s) as [fail s1]. cbn [fst].
      destruct (Z.eqb fail 0); repeat constructor. }
  destruct (bool_decide (n = bytes "pwd")).
  { cbn [fst]. destruct (negb (a_getcwd_fails a) && (length (cwd s) <? MAXPATHLEN H));
      repeat constructor. }
  destruct (bool_decide (n = bytes "jobs")); [|constructor].
  destruct (child_jobs (mem s)) as [r|]; [|constructor].
  pose proof (print_jobs_events (mem s) r (len r) 0) as Hev.
  destruct (print_jobs (mem s) r (len r) 0) as [ev' x]. exact Hev.
Qed.

Lemma launch_forks H a t c name ev s : CallFork ∈ fst (launch H a t c name ev s).
Proof.
  assert (Hfork : forall ev0 s0 evx,
            CallFork ∈ fst (finish H a (ev0 ++ CallFork :: evx) s0)).
  { intros ev0 s0 evx. unfold finish.
    destruct (sweep H (a_sweep a) (mem s0)) as [ev' x']. cbn [fst].
    apply elem_of_app. left. apply elem_of_app. right. apply list_elem_of_here. }
  assert (Hmid : forall evx, CallFork ∈ ev ++ CallFork :: evx).
  { intros evx. apply elem_of_app. right. apply list_elem_of_here. }
  assert (Hfr : forall ev1 k, CallFork ∈ ev1 -> CallFork ∈ fst k ->
                  CallFork ∈ fst (freeing c ev1 k)).
  { intros ev1 k H1 Hk. unfold freeing.
    destruct (free_command (Some c)); cbn [fst]; assumption. }
  unfold launch; cbv zeta.
  destruct (a_fork a <? 0)%Z; [apply Hfr; [apply Hmid|apply Hfork]|].
  destruct (a_fork a =? 0)%Z.
  - destruct (a_exec_fails a); [|cbn [fst]; apply Hmid].
    apply Hfr; cbn [fst]; apply elem_of_app; left; apply Hmid.
  - destruct t; try (destruct (add_job (a_fork a) name (mem s));
                     [apply Hfr; [apply Hmid|apply Hfork]|cbn [fst]; apply Hmid]).
    apply Hfr; [apply Hmid|apply Hfork].
Qed.

(** X13. For a line that parses to a Command: when the program name is
    one of exit, pid, ppid, cd, pwd, jobs, the iteration issues no [fork]
    and no [execvp]; for every other name it calls [fork]. *)
Theorem dispatch_forks H E prompt a s line t c n :
  a_getline a = Some line ->
  gen_command line = Ok (t, Some c) ->
  cmd c = Str n ->
  if is_built_in n
  then Forall (fun e => is_launch e = false) (fst (iteration H E prompt a s))
  else CallFork ∈ fst (iteration H E prompt a s).
Proof.
  intros Ha Hgen Hcmd.
  destruct (gen_command_named _ _ _ Hgen) as (Ht & n' & Hcmd' & Ha0).
  rewrite Hcmd in Hcmd'. injection Hcmd' as <-.
  destruct (run_built_in_kind H E a c s n Hcmd Ha0) as (Hnot & Hyes).
  assert (Hnil : line <> []) by (intros ->; rewrite gen_command_nil in Hgen; discriminate).
  unfold iteration. rewrite Ha. destruct line as [|x l]; [congruence|]. rewrite Hgen.
  assert (Hfin : forall ev0 s0,
            Forall (fun e => is_launch e = false) ev0 ->
            Forall (fun e => is_launch e = false) (fst (finish H a ev0 s0))).
  { intros ev0 s0 Hev0. unfold finish.
    pose proof (sweep_no_launch H (a_sweep a) (mem s0)) as Hs.
    destruct (sweep H (a_sweep a) (mem s0)) as [ev' x']. cbn [fst] in *.
    apply Forall_app. split; assumption. }
  destruct (is_built_in n) eqn:Hb.
  - pose proof (run_built_in_events H E a c s) as Hev.
    destruct (run_built_in H E a c s) as [ev1 [[b s1]|f1]] eqn:Hrun; cbn [fst] in Hev.
    + destruct (Hyes eq_refl _ _ _ eq_refl) as (Hne & _).
      assert (Hev0 : Forall (fun e => is_launch e = false) ([PrintPrompt prompt] ++ ev1))
        by (constructor; [reflexivity|exact Hev]).
      destruct Ht as [-> | ->]; destruct b; try congruence;
        rewrite (freeing_ok _ _ _ _ _ Hgen);
        first [exact Hev0|apply Hfin; exact Hev0].
    + destruct Ht as [-> | ->]; (constructor; [reflexivity|exact Hev]).
  - rewrite (Hnot eq_refl), Hcmd. cbn [deref].
    destruct Ht as [-> | ->]; apply launch_forks.
Qed.

Lemma dispatch_forks_witness :
  if is_built_in (bytes "pwd")
  then Forall (fun e => is_launch e = false)
         (fst (iteration linux_headers tiny_env (bytes "308sh> ")
                 (typed (bytes "pwd" ++ [LF])) (shell0 (bytes "/"))))
  else CallFork ∈ fst (iteration linux_headers tiny_env (bytes "308sh> ")
                         (typed (bytes "pwd" ++ [LF])) (shell0 (bytes "/"))).
Proof.
  apply (dispatch_forks linux_headers tiny_env (bytes "308sh> ")
           (typed (bytes "pwd" ++ [LF])) (shell0 (bytes "/"))
           (bytes "pwd" ++ [LF]) FOREGROUND
           {| cmd := Str (bytes "pwd"); argv := [Str (bytes "pwd"); NULL; Uninit] |}
           (bytes "pwd")).
  - reflexivity.
  - vm_compute. reflexivity.
  - reflexivity.
Defined.

(** ** Launching a command, seen from the parent *)




(** ** Reads that fail *)

(** X15. A read that fails does not end the loop and skips the sweep:
    after any number of failed reads, and at least one, the loop is still
    running, it has printed the prompt and the error message once per
    read, the error code is -1, and the registry and the working directory
    are untouched. *)
Theorem read_failures_loop H E prompt trace s :
  trace <> [] ->
  Forall (fun a => a_getline a = None \/ a_getline a = Some []) trace ->
  main_loop H E prompt trace s =
    (concat (map (fun _ => [PrintPrompt prompt; PrintReadError]) trace),
     Running (set_error s (-1))).
Proof.
  intros Hne Hall. revert s Hne.
  induction Hall as [|a rest Ha _ IH]; intros s Hne; [congruence|].
  assert (Hit : iteration H E prompt a s =
                ([PrintPrompt prompt; PrintReadError], Next (set_error s (-1)))).
  { unfold iteration. destruct Ha as [-> | ->]; reflexivity. }
  cbn [main_loop map concat]. rewrite Hit.
  destruct rest as [|b rest].
  - reflexivity.
  - rewrite IH by discriminate. reflexivity.
Qed.

Lemma read_failures_loop_witness :
  let eof := {| a_getline := None; a_getpid := 500; a_getppid := 1; a_fork := 0;
                a_exec_fails := false; a_getcwd_fails := false; a_status := 0;
                a_sweep := [(7, 0)%Z] |} in
  main_loop linux_headers tiny_env (bytes "308sh> ") [eof; eof; eof]
    {| error := 0; mem := one_job; cwd := bytes "/" |} =
    (concat (map (fun _ => [PrintPrompt (bytes "308sh> "); PrintReadError])
               [eof; eof; eof]),
     Running (set_error {| error := 0; mem := one_job; cwd := bytes "/" |} (-1))).
Proof.
  intros eof.
  apply (read_failures_loop linux_headers tiny_env (bytes "308sh> ") [eof; eof; eof]).
  - discriminate.
  - repeat constructor.
Defined.
